(** * A shallow embedding of the game screen of webcam-fruit-game

    The model follows the [<script setup>] block of the game view
    (src/unnamed/part_003): the reactive refs and module-level variables
    become fields of an explicit [State]; every function of the view becomes
    a state transformer; the browser's timers, animation frames, hand-data
    watcher and navigation become the events of a step function.

    Numbers: scores, lives, combos and millisecond times are integers ([Z]);
    geometry, velocities, life fractions and the physics time scale are
    rationals ([Q]), i.e. IEEE doubles are read as exact numbers.  The
    functions of JavaScript's [Math] object that the view calls and that have
    no exact rational counterpart ([Math.random], [Math.sqrt], [Math.cos],
    [Math.sin], [Math.PI]) are parameters of the model, bundled in a
    [MathLib] record; [Math.random()] is the [n]-th draw of a stream, [n]
    being a draw counter of the state.  [Math.hypot (a, b) < c] with [c > 0]
    is written as the exact comparison [a*a + b*b < c*c].

    Left out, as presentation only: sound, canvas painting, screen shake and
    the hit-flash overlay (and their reset timers), the high-score entry of
    localStorage.  The physics engine (matter-js) is a black box: a frame
    passes a body-update function standing for [Matter.Engine.update]. *)

From Stdlib Require Import ZArith QArith Qminmax Qround List Bool String Lia Relations.
From Stdlib Require Import Lqa.
From Stdlib Require Import Sorted.
Import ListNotations.
Open Scope Z_scope.

(** The JavaScript [Math] functions the view uses. *)
Record MathLib := mkMathLib {
  m_random : nat -> Q;
  m_sqrt : Q -> Q;
  m_cos : Q -> Q;
  m_sin : Q -> Q;
  m_PI : Q
}.

Record Pt := mkPt { px : Q; py : Q }.

Record TrailPt := mkTrailPt { tx : Q; ty : Q; ttime : Z }.

(** [FRUIT_TYPES] and [BOMB_TYPE]: the [type] field of an entry. *)
Inductive FruitType :=
  Apple | Banana | Orange | Watermelon | Grape | FreezeBanana | FrenzyBanana | Bomb.

Definition FRUIT_TYPES : list FruitType :=
  [Apple; Banana; Orange; Watermelon; Grape; FreezeBanana; FrenzyBanana].

Definition type_radius (t : FruitType) : Q :=
  match t with
  | Apple => 30 | Banana => 35 | Orange => 30 | Watermelon => 40 | Grape => 25
  | FreezeBanana => 35 | FrenzyBanana => 35 | Bomb => 35
  end.

Definition type_color (t : FruitType) : string :=
  match t with
  | Apple => "#ff4444" | Banana => "#ffeb3b" | Orange => "#ff9800"
  | Watermelon => "#4caf50" | Grape => "#9c27b0" | FreezeBanana => "#00ffff"
  | FrenzyBanana => "#ff00ff" | Bomb => "#000000"
  end.

Definition type_name (t : FruitType) : string :=
  match t with
  | Apple => "apple" | Banana => "banana" | Orange => "orange"
  | Watermelon => "watermelon" | Grape => "grape" | FreezeBanana => "freeze-banana"
  | FrenzyBanana => "frenzy-banana" | Bomb => "bomb"
  end.

(** A matter-js circle body: the fields the view reads or sets. *)
Record Body := mkBody {
  b_id : nat;
  b_x : Q; b_y : Q;
  b_vx : Q; b_vy : Q;
  b_angle : Q; b_angularVelocity : Q;
  b_circleRadius : Q
}.

(** A value of the [fruits] map. *)
Record Fruit := mkFruit { fr_body : Body; fr_type : FruitType; fr_color : string }.

Record Engine := mkEngine { timeScale : Q; worldBodies : list nat }.

Definition set_timeScale (x : Q) (e : Engine) : Engine := mkEngine x (worldBodies e).
Definition set_worldBodies (x : list nat) (e : Engine) : Engine := mkEngine (timeScale e) x.

Record Particle := mkParticle {
  p_x : Q; p_y : Q; p_vx : Q; p_vy : Q; p_life : Q;
  p_color : string; p_size : Q; p_active : bool
}.

Inductive Side := Left | Right.

Record Debris := mkDebris {
  d_x : Q; d_y : Q; d_vx : Q; d_vy : Q; d_rotation : Q; d_rotSpeed : Q;
  d_type : string; d_side : Side; d_life : Q; d_active : bool
}.

(** A popup; its [text] is [+points] or [+points (combox)]. *)
Record Popup := mkPopup {
  pu_id : nat; pu_x : Q; pu_y : Q; pu_points : Z; pu_combo : Z;
  pu_life : Q; pu_velocity : Q
}.

(** The callbacks passed to [setTimeout] / [setInterval]. *)
Inductive Callback :=
  CbSpawnLoop | CbCountdownTick | CbFreezeEnd | CbFrenzyEnd | CbBombGameOver | CbHitStopEnd.

(** A pending timer: handle, due time, callback, and the period of an interval. *)
Record Timer := mkTimer { t_handle : nat; t_due : Z; t_cb : Callback; t_period : option Z }.

(** [router.push] targets. *)
Inductive Route := RHome | RGameOver (final : Z).

(** Ghost record of one resolved normal hit (not in the source): the combo
    and [lastSliceTime] read by the hit, the hit's [now], the combo it sets and
    the points it awards. *)
Record HitRec := mkHitRec {
  hr_combo_before : Z; hr_last : Z; hr_now : Z; hr_combo_after : Z; hr_points : Z
}.

(** Ghost record of one life lost in the render pass (not in the source): the
    body, its position and velocity, the canvas height, and [gameStarted]. *)
Record LifeRec := mkLifeRec {
  lr_id : nat; lr_y : Q; lr_vy : Q; lr_height : Q; lr_started : bool
}.

Record Game := mkGame {
  score : Z;
  lives : Z;
  combo : Z;
  maxCombo : Z;
  lastSliceTime : Z;
  loading : bool;
  countdown : Z;
  gameStarted : bool;
  freezeActive : bool;
  frenzyActive : bool;
  hitStopActive : bool
}.

Definition set_score (x : Z) (g0 : Game) : Game :=
  {| score := x; lives := lives g0; combo := combo g0; maxCombo := maxCombo g0; lastSliceTime := lastSliceTime g0; loading := loading g0; countdown := countdown g0; gameStarted := gameStarted g0; freezeActive := freezeActive g0; frenzyActive := frenzyActive g0; hitStopActive := hitStopActive g0 |}.
Definition set_lives (x : Z) (g0 : Game) : Game :=
  {| score := score g0; lives := x; combo := combo g0; maxCombo := maxCombo g0; lastSliceTime := lastSliceTime g0; loading := loading g0; countdown := countdown g0; gameStarted := gameStarted g0; freezeActive := freezeActive g0; frenzyActive := frenzyActive g0; hitStopActive := hitStopActive g0 |}.
Definition set_combo (x : Z) (g0 : Game) : Game :=
  {| score := score g0; lives := lives g0; combo := x; maxCombo := maxCombo g0; lastSliceTime := lastSliceTime g0; loading := loading g0; countdown := countdown g0; gameStarted := gameStarted g0; freezeActive := freezeActive g0; frenzyActive := frenzyActive g0; hitStopActive := hitStopActive g0 |}.
Definition set_maxCombo (x : Z) (g0 : Game) : Game :=
  {| score := score g0; lives := lives g0; combo := combo g0; maxCombo := x; lastSliceTime := lastSliceTime g0; loading := loading g0; countdown := countdown g0; gameStarted := gameStarted g0; freezeActive := freezeActive g0; frenzyActive := frenzyActive g0; hitStopActive := hitStopActive g0 |}.
Definition set_lastSliceTime (x : Z) (g0 : Game) : Game :=
  {| score := score g0; lives := lives g0; combo := combo g0; maxCombo := maxCombo g0; lastSliceTime := x; loading := loading g0; countdown := countdown g0; gameStarted := gameStarted g0; freezeActive := freezeActive g0; frenzyActive := frenzyActive g0; hitStopActive := hitStopActive g0 |}.
Definition set_loading (x : bool) (g0 : Game) : Game :=
  {| score := score g0; lives := lives g0; combo := combo g0; maxCombo := maxCombo g0; lastSliceTime := lastSliceTime g0; loading := x; countdown := countdown g0; gameStarted := gameStarted g0; freezeActive := freezeActive g0; frenzyActive := frenzyActive g0; hitStopActive := hitStopActive g0 |}.
Definition set_countdown (x : Z) (g0 : Game) : Game :=
  {| score := score g0; lives := lives g0; combo := combo g0; maxCombo := maxCombo g0; lastSliceTime := lastSliceTime g0; loading := loading g0; countdown := x; gameStarted := gameStarted g0; freezeActive := freezeActive g0; frenzyActive := frenzyActive g0; hitStopActive := hitStopActive g0 |}.
Definition set_gameStarted (x : bool) (g0 : Game) : Game :=
  {| score := score g0; lives := lives g0; combo := combo g0; maxCombo := maxCombo g0; lastSliceTime := lastSliceTime g0; loading := loading g0; countdown := countdown g0; gameStarted := x; freezeActive := freezeActive g0; frenzyActive := frenzyActive g0; hitStopActive := hitStopActive g0 |}.
Definition set_freezeActive (x : bool) (g0 : Game) : Game :=
  {| score := score g0; lives := lives g0; combo := combo g0; maxCombo := maxCombo g0; lastSliceTime := lastSliceTime g0; loading := loading g0; countdown := countdown g0; gameStarted := gameStarted g0; freezeActive := x; frenzyActive := frenzyActive g0; hitStopActive := hitStopActive g0 |}.
Definition set_frenzyActive (x : bool) (g0 : Game) : Game :=
  {| score := score g0; lives := lives g0; combo := combo g0; maxCombo := maxCombo g0; lastSliceTime := lastSliceTime g0; loading := loading g0; countdown := countdown g0; gameStarted := gameStarted g0; freezeActive := freezeActive g0; frenzyActive := x; hitStopActive := hitStopActive g0 |}.
Definition set_hitStopActive (x : bool) (g0 : Game) : Game :=
  {| score := score g0; lives := lives g0; combo := combo g0; maxCombo := maxCombo g0; lastSliceTime := lastSliceTime g0; loading := loading g0; countdown := countdown g0; gameStarted := gameStarted g0; freezeActive := freezeActive g0; frenzyActive := frenzyActive g0; hitStopActive := x |}.

Record World := mkWorld {
  engine : option Engine;
  fruits : list (nat * Fruit)
}.

Definition set_engine (x : option Engine) (w0 : World) : World :=
  {| engine := x; fruits := fruits w0 |}.
Definition set_fruits (x : list (nat * Fruit)) (w0 : World) : World :=
  {| engine := engine w0; fruits := x |}.

Record Hands := mkHands {
  rawHand : list (option Pt);
  handPos : list (option Pt);
  lastHandPos : list (option Pt);
  handTrails : list (list TrailPt)
}.

Definition set_rawHand (x : list (option Pt)) (h0 : Hands) : Hands :=
  {| rawHand := x; handPos := handPos h0; lastHandPos := lastHandPos h0; handTrails := handTrails h0 |}.
Definition set_handPos (x : list (option Pt)) (h0 : Hands) : Hands :=
  {| rawHand := rawHand h0; handPos := x; lastHandPos := lastHandPos h0; handTrails := handTrails h0 |}.
Definition set_lastHandPos (x : list (option Pt)) (h0 : Hands) : Hands :=
  {| rawHand := rawHand h0; handPos := handPos h0; lastHandPos := x; handTrails := handTrails h0 |}.
Definition set_handTrails (x : list (list TrailPt)) (h0 : Hands) : Hands :=
  {| rawHand := rawHand h0; handPos := handPos h0; lastHandPos := lastHandPos h0; handTrails := x |}.

Record Fx := mkFx {
  particlePool : list Particle;
  activeParticleCount : Z;
  debrisPool : list Debris;
  popups : list Popup;
  popupIdCounter : nat
}.

Definition set_particlePool (x : list Particle) (f0 : Fx) : Fx :=
  {| particlePool := x; activeParticleCount := activeParticleCount f0; debrisPool := debrisPool f0; popups := popups f0; popupIdCounter := popupIdCounter f0 |}.
Definition set_activeParticleCount (x : Z) (f0 : Fx) : Fx :=
  {| particlePool := particlePool f0; activeParticleCount := x; debrisPool := debrisPool f0; popups := popups f0; popupIdCounter := popupIdCounter f0 |}.
Definition set_debrisPool (x : list Debris) (f0 : Fx) : Fx :=
  {| particlePool := particlePool f0; activeParticleCount := activeParticleCount f0; debrisPool := x; popups := popups f0; popupIdCounter := popupIdCounter f0 |}.
Definition set_popups (x : list Popup) (f0 : Fx) : Fx :=
  {| particlePool := particlePool f0; activeParticleCount := activeParticleCount f0; debrisPool := debrisPool f0; popups := x; popupIdCounter := popupIdCounter f0 |}.
Definition set_popupIdCounter (x : nat) (f0 : Fx) : Fx :=
  {| particlePool := particlePool f0; activeParticleCount := activeParticleCount f0; debrisPool := debrisPool f0; popups := popups f0; popupIdCounter := x |}.

Record Sys := mkSys {
  clock : Z;
  timers : list Timer;
  nextHandle : nat;
  spawnerH : option nat;
  countdownH : option nat;
  draws : nat;
  nextBodyId : nat;
  width : Q;
  height : Q;
  navs : list Route
}.

Definition set_clock (x : Z) (s0 : Sys) : Sys :=
  {| clock := x; timers := timers s0; nextHandle := nextHandle s0; spawnerH := spawnerH s0; countdownH := countdownH s0; draws := draws s0; nextBodyId := nextBodyId s0; width := width s0; height := height s0; navs := navs s0 |}.
Definition set_timers (x : list Timer) (s0 : Sys) : Sys :=
  {| clock := clock s0; timers := x; nextHandle := nextHandle s0; spawnerH := spawnerH s0; countdownH := countdownH s0; draws := draws s0; nextBodyId := nextBodyId s0; width := width s0; height := height s0; navs := navs s0 |}.
Definition set_nextHandle (x : nat) (s0 : Sys) : Sys :=
  {| clock := clock s0; timers := timers s0; nextHandle := x; spawnerH := spawnerH s0; countdownH := countdownH s0; draws := draws s0; nextBodyId := nextBodyId s0; width := width s0; height := height s0; navs := navs s0 |}.
Definition set_spawnerH (x : option nat) (s0 : Sys) : Sys :=
  {| clock := clock s0; timers := timers s0; nextHandle := nextHandle s0; spawnerH := x; countdownH := countdownH s0; draws := draws s0; nextBodyId := nextBodyId s0; width := width s0; height := height s0; navs := navs s0 |}.
Definition set_countdownH (x : option nat) (s0 : Sys) : Sys :=
  {| clock := clock s0; timers := timers s0; nextHandle := nextHandle s0; spawnerH := spawnerH s0; countdownH := x; draws := draws s0; nextBodyId := nextBodyId s0; width := width s0; height := height s0; navs := navs s0 |}.
Definition set_draws (x : nat) (s0 : Sys) : Sys :=
  {| clock := clock s0; timers := timers s0; nextHandle := nextHandle s0; spawnerH := spawnerH s0; countdownH := countdownH s0; draws := x; nextBodyId := nextBodyId s0; width := width s0; height := height s0; navs := navs s0 |}.
Definition set_nextBodyId (x : nat) (s0 : Sys) : Sys :=
  {| clock := clock s0; timers := timers s0; nextHandle := nextHandle s0; spawnerH := spawnerH s0; countdownH := countdownH s0; draws := draws s0; nextBodyId := x; width := width s0; height := height s0; navs := navs s0 |}.
Definition set_width (x : Q) (s0 : Sys) : Sys :=
  {| clock := clock s0; timers := timers s0; nextHandle := nextHandle s0; spawnerH := spawnerH s0; countdownH := countdownH s0; draws := draws s0; nextBodyId := nextBodyId s0; width := x; height := height s0; navs := navs s0 |}.
Definition set_height (x : Q) (s0 : Sys) : Sys :=
  {| clock := clock s0; timers := timers s0; nextHandle := nextHandle s0; spawnerH := spawnerH s0; countdownH := countdownH s0; draws := draws s0; nextBodyId := nextBodyId s0; width := width s0; height := x; navs := navs s0 |}.
Definition set_navs (x : list Route) (s0 : Sys) : Sys :=
  {| clock := clock s0; timers := timers s0; nextHandle := nextHandle s0; spawnerH := spawnerH s0; countdownH := countdownH s0; draws := draws s0; nextBodyId := nextBodyId s0; width := width s0; height := height s0; navs := x |}.

Record Ghost := mkGhost {
  hitlog : list HitRec;
  tested : list (nat * bool);
  freezeLog : list Z;
  lifelog : list LifeRec
}.

Definition set_hitlog (x : list HitRec) (g0 : Ghost) : Ghost :=
  {| hitlog := x; tested := tested g0; freezeLog := freezeLog g0; lifelog := lifelog g0 |}.
Definition set_tested (x : list (nat * bool)) (g0 : Ghost) : Ghost :=
  {| hitlog := hitlog g0; tested := x; freezeLog := freezeLog g0; lifelog := lifelog g0 |}.
Definition set_freezeLog (x : list Z) (g0 : Ghost) : Ghost :=
  {| hitlog := hitlog g0; tested := tested g0; freezeLog := x; lifelog := lifelog g0 |}.
Definition set_lifelog (x : list LifeRec) (g0 : Ghost) : Ghost :=
  {| hitlog := hitlog g0; tested := tested g0; freezeLog := freezeLog g0; lifelog := x |}.

Record State := mkState {
  game : Game;
  world : World;
  hands : Hands;
  fx : Fx;
  sys : Sys;
  ghost : Ghost
}.

Definition set_game (x : Game) (s0 : State) : State :=
  {| game := x; world := world s0; hands := hands s0; fx := fx s0; sys := sys s0; ghost := ghost s0 |}.
Definition set_world (x : World) (s0 : State) : State :=
  {| game := game s0; world := x; hands := hands s0; fx := fx s0; sys := sys s0; ghost := ghost s0 |}.
Definition set_hands (x : Hands) (s0 : State) : State :=
  {| game := game s0; world := world s0; hands := x; fx := fx s0; sys := sys s0; ghost := ghost s0 |}.
Definition set_fx (x : Fx) (s0 : State) : State :=
  {| game := game s0; world := world s0; hands := hands s0; fx := x; sys := sys s0; ghost := ghost s0 |}.
Definition set_sys (x : Sys) (s0 : State) : State :=
  {| game := game s0; world := world s0; hands := hands s0; fx := fx s0; sys := x; ghost := ghost s0 |}.
Definition set_ghost (x : Ghost) (s0 : State) : State :=
  {| game := game s0; world := world s0; hands := hands s0; fx := fx s0; sys := sys s0; ghost := x |}.
(** Updating a sub-record of the state. *)
Definition upd_game (f : Game -> Game) (s : State) : State := set_game (f (game s)) s.
Definition upd_world (f : World -> World) (s : State) : State := set_world (f (world s)) s.
Definition upd_hands (f : Hands -> Hands) (s : State) : State := set_hands (f (hands s)) s.
Definition upd_fx (f : Fx -> Fx) (s : State) : State := set_fx (f (fx s)) s.
Definition upd_sys (f : Sys -> Sys) (s : State) : State := set_sys (f (sys s)) s.
Definition upd_ghost (f : Ghost -> Ghost) (s : State) : State := set_ghost (f (ghost s)) s.

(** [a < b] on rationals, as a boolean. *)
Definition Qltb (a b : Q) : bool := negb (Qle_bool b a).

(** [arr[i] = x] on an array of the view's fixed length. *)
Fixpoint replace_nth {A} (i : nat) (x : A) (l : list A) : list A :=
  match l, i with
  | [], _ => []
  | _ :: r, O => x :: r
  | y :: r, S i' => y :: replace_nth i' x r
  end.

Section Model.

Variable M : MathLib.

Definition random (n : nat) : Q := m_random M n.

(** ** Object pools ([createDebris], [createParticles], render updates) *)

(** The producers' loop [for (i = 0; i < MAX; i++) { if (spawned >= count) break;
    if (!slot.active) { ...; spawned++ } }]: [init spawned d] fills a claimed
    slot, reading random draws from index [d] on. *)
Fixpoint claim {A} (is_active : A -> bool) (init : nat -> nat -> A * nat)
    (spawned need : nat) (pool : list A) (d : nat) : list A * nat * nat :=
  match pool with
  | [] => ([], spawned, d)
  | a :: rest =>
      if (need <=? spawned)%nat then (a :: rest, spawned, d)
      else if is_active a then
        let '(rest', k, d') := claim is_active init spawned need rest d in
        (a :: rest', k, d')
      else
        let '(a', d1) := init spawned d in
        let '(rest', k, d') := claim is_active init (S spawned) need rest d1 in
        (a' :: rest', k, d')
  end.

Definition MAX_PARTICLES : nat := 200.
Definition MAX_DEBRIS : nat := 30.

Definition inert_particle : Particle := mkParticle 0 0 0 0 0 "" 0 false.
Definition inert_debris : Debris := mkDebris 0 0 0 0 0 0 "" Left 0 false.

Definition debris_piece (x y : Q) (type : string) (rotation sliceVx sliceVy : Q)
    (spawned d : nat) : Debris * nat :=
  let side := if (spawned =? 0)%nat then Left else Right in
  let sepSpeed := 5%Q in
  let angleOffset := match side with Left => (- m_PI M / 2)%Q | Right => (m_PI M / 2)%Q end in
  let vx := (m_cos M (rotation + angleOffset) * sepSpeed + sliceVx * (2#10))%Q in
  let vy := (m_sin M (rotation + angleOffset) * sepSpeed + sliceVy * (2#10))%Q in
  let rotSpeed := ((random d - (1#2)) * (1#2))%Q in
  (mkDebris x y vx vy rotation rotSpeed type side 1 true, S d).

Definition createDebris (x y : Q) (type : string) (rotation sliceVx sliceVy : Q)
    (f : Fx) (d : nat) : Fx * nat :=
  let '(pool, _, d') :=
    claim d_active (debris_piece x y type rotation sliceVx sliceVy) 0 2 (debrisPool f) d in
  (set_debrisPool pool f, d').

Definition burst_particle (x y : Q) (color : string) (isExplosion : bool) (speedMult : Q)
    (_ : nat) (d : nat) : Particle * nat :=
  let angle := (random d * m_PI M * 2)%Q in
  let speed := ((random (S d) * 10 + 5) * speedMult)%Q in
  let '(c, d2) :=
    if isExplosion
    then ((if Qltb (1#2) (random (S (S d))) then "#ff0000" else "#ffff00")%string, (3 + d)%nat)
    else (color, (2 + d)%nat) in
  (mkParticle x y (m_cos M angle * speed) (m_sin M angle * speed) 1 c
     (random d2 * 4 + 2) true, S d2).

Definition spark_particle (x y : Q) (_ : nat) (d : nat) : Particle * nat :=
  let angle := (random d * m_PI M * 2)%Q in
  let speed := (random (S d) * 8 + 3)%Q in
  (mkParticle x y (m_cos M angle * speed) (m_sin M angle * speed) (8#10) "#ffffff"
     (random (S (S d)) * 3 + 1) true, (3 + d)%nat).

Definition createParticles (x y : Q) (color : string) (isExplosion : bool)
    (f : Fx) (d : nat) : Fx * nat :=
  if 100 <? activeParticleCount f then (f, d) else
  let count := if isExplosion then 30%nat else 15%nat in
  let speedMult := if isExplosion then 2%Q else 1%Q in
  let '(pool1, k1, d1) :=
    claim p_active (burst_particle x y color isExplosion speedMult) 0 count (particlePool f) d in
  let f1 := set_activeParticleCount (activeParticleCount f + Z.of_nat k1)
              (set_particlePool pool1 f) in
  if isExplosion then (f1, d1) else
  let '(pool2, k2, d2) := claim p_active (spark_particle x y) 0 8 pool1 d1 in
  (set_activeParticleCount (activeParticleCount f1 + Z.of_nat k2)
     (set_particlePool pool2 f1), d2).

(** One particle of the render loop: move, fall, fade, retire. *)
Definition step_particle (height : Q) (p : Particle) : Particle * bool :=
  let x := (p_x p + p_vx p)%Q in
  let y := (p_y p + p_vy p)%Q in
  let vy := (p_vy p + (1#2))%Q in
  let life := (p_life p - (2#100))%Q in
  let off := Qle_bool life 0 || Qltb height y in
  (mkParticle x y (p_vx p) vy life (p_color p) (p_size p) (negb off), off).

Fixpoint render_particles (height : Q) (pool : list Particle) (cnt : Z) : list Particle * Z :=
  match pool with
  | [] => ([], cnt)
  | p :: rest =>
      if p_active p then
        let '(p', off) := step_particle height p in
        let '(rest', c') := render_particles height rest (if off then cnt - 1 else cnt) in
        (p' :: rest', c')
      else
        let '(rest', c') := render_particles height rest cnt in (p :: rest', c')
  end.

Definition renderParticles (height : Q) (f : Fx) : Fx :=
  if 0 <? activeParticleCount f then
    let '(pool, c) := render_particles height (particlePool f) (activeParticleCount f) in
    set_activeParticleCount c (set_particlePool pool f)
  else f.

Definition step_debris (height : Q) (d : Debris) : Debris :=
  let x := (d_x d + d_vx d)%Q in
  let y := (d_y d + d_vy d)%Q in
  let vy := (d_vy d + (8#10))%Q in
  let rotation := (d_rotation d + d_rotSpeed d)%Q in
  let life := (d_life d - (15#1000))%Q in
  let off := Qle_bool life 0 || Qltb height y in
  mkDebris x y (d_vx d) vy rotation (d_rotSpeed d) (d_type d) (d_side d) life (negb off).

Definition renderDebris (height : Q) (f : Fx) : Fx :=
  set_debrisPool
    (map (fun d => if d_active d then step_debris height d else d) (debrisPool f)) f.

(** Popups: rise, fade, and are spliced out at [life <= 0]. *)
Fixpoint render_popups (l : list Popup) : list Popup :=
  match l with
  | [] => []
  | p :: rest =>
      let life := (pu_life p - (2#100))%Q in
      let p' := mkPopup (pu_id p) (pu_x p) (pu_y p - pu_velocity p)%Q (pu_points p)
                  (pu_combo p) life (pu_velocity p) in
      if Qle_bool life 0 then render_popups rest else p' :: render_popups rest
  end.

(** Run a pool producer on the state's effects and random stream. *)
Definition fx_draw (f : Fx -> nat -> Fx * nat) (s : State) : State :=
  let '(fx', d') := f (fx s) (draws (sys s)) in
  set_fx fx' (upd_sys (set_draws d') s).

(** ** Timers *)

(** [setTimeout] / [setInterval]: handles are positive integers. *)
Definition setTimer (cb : Callback) (delay : Z) (period : option Z) (s : State) : nat * State :=
  let h := nextHandle (sys s) in
  (h, upd_sys (fun y => set_nextHandle (S h)
                          (set_timers (timers y ++ [mkTimer h (clock y + delay) cb period]) y)) s).

Definition setTimeout (cb : Callback) (delay : Z) (s : State) : nat * State :=
  setTimer cb delay None s.

Definition setInterval (cb : Callback) (delay : Z) (s : State) : nat * State :=
  setTimer cb delay (Some delay) s.

(** [clearTimeout] / [clearInterval]. *)
Definition clearTimer (h : nat) (s : State) : State :=
  upd_sys (fun y => set_timers (filter (fun t => negb (t_handle t =? h)%nat) (timers y)) y) s.

(** [Math.random()]. *)
Definition next_random (s : State) : Q * State :=
  (random (draws (sys s)), upd_sys (fun y => set_draws (S (draws y)) y) s).

(** ** Session teardown *)

(** [cleanup]: the engine is released ([Matter.Engine.clear]; [engine = null]), the
    spawn timeout and the countdown interval are cleared.  The animation frame
    needs no handle here: a frame finding [engine] null does nothing. *)
Definition cleanup (s : State) : State :=
  let s1 := match engine (world s) with
            | Some _ => upd_world (set_engine None) s
            | None => s
            end in
  let s2 := match spawnerH (sys s1) with
            | Some h => upd_sys (set_spawnerH None) (clearTimer h s1)
            | None => s1
            end in
  match countdownH (sys s2) with
  | Some h => upd_sys (set_countdownH None) (clearTimer h s2)
  | None => s2
  end.

(** [gameOver]: cleanup, then [router.push({ path: '/game-over', query: { score } })]. *)
Definition gameOver (s : State) : State :=
  let s1 := cleanup s in
  upd_sys (fun y => set_navs (navs y ++ [RGameOver (score (game s1))]) y) s1.

(** [goHome]. *)
Definition goHome (s : State) : State :=
  let s1 := cleanup s in
  upd_sys (fun y => set_navs (navs y ++ [RHome]) y) s1.

(** ** Spawner *)

Definition spawnFruit (s : State) : State :=
  match engine (world s) with
  | None => s
  | Some e =>
    if (15 <=? List.length (fruits (world s)))%nat then s else
    let w := width (sys s) in
    let h := height (sys s) in
    let '(r1, s) := next_random s in
    let x := (r1 * (w * (6#10)) + w * (2#10))%Q in
    let y := (h + 50)%Q in
    let '(rand, s) := next_random s in
    let isBomb := Qltb rand (15#100) in
    (* [FRUIT_TYPES[Math.floor(Math.random() * 5)]]: draws lie in [0,1) *)
    let '(itemType, s) :=
      if isBomb then (Bomb, s)
      else let '(r, s) := next_random s in
           (nth (Z.to_nat (Qfloor (r * 5))) FRUIT_TYPES Apple, s) in
    let '(itemType, s) :=
      if negb isBomb && Qltb (95#100) rand
      then let '(r, s) := next_random s in
           (nth (5 + Z.to_nat (Qfloor (r * 2))) FRUIT_TYPES Apple, s)
      else (itemType, s) in
    let radius := type_radius itemType in
    let '(ra, s) := next_random s in
    let id := nextBodyId (sys s) in
    let s := upd_sys (set_nextBodyId (S id)) s in
    let minVelocityY := (h * (24#1000))%Q in
    let maxVelocityY := (h * (30#1000))%Q in
    let '(r, s) := next_random s in
    let velocityY := (- (minVelocityY + r * (maxVelocityY - minVelocityY)))%Q in
    let centerX := (w / 2)%Q in
    let distToCenter := (centerX - x)%Q in
    let '(r, s) := next_random s in
    let velocityX := (distToCenter * ((1#100) + r * (15#1000)))%Q in
    let '(r, s) := next_random s in
    let body := mkBody id x y velocityX velocityY (ra * m_PI M * 2) ((r - (1#2)) * (3#10)) radius in
    upd_world (fun wd =>
      set_fruits (fruits wd ++ [(id, mkFruit body itemType (type_color itemType))])
        (set_engine (Some (set_worldBodies (worldBodies e ++ [id]) e)) wd)) s
  end.

(** The delay [spawnLoop] computes ([Math.floor] of a score is [Z.div]). *)
Definition spawn_delay (g : Game) : Z :=
  let difficultyMultiplier := score g / 50 in
  let delay := Z.max 600 (2000 - difficultyMultiplier * 100) in
  let delay := if frenzyActive g then 300 else delay in
  if freezeActive g then delay * 2 else delay.

Definition spawnLoop (s : State) : State :=
  let s := spawnFruit s in
  let delay := spawn_delay (game s) in
  let '(h, s) := setTimeout CbSpawnLoop delay s in
  upd_sys (set_spawnerH (Some h)) s.

Definition startSpawning (s : State) : State :=
  let s := match spawnerH (sys s) with Some h => clearTimer h s | None => s end in
  spawnLoop s.

Definition startCountdown (s : State) : State :=
  let '(h, s) := setInterval CbCountdownTick 1000 s in
  upd_sys (set_countdownH (Some h)) s.

(** ** Power-ups and hit-stop *)

Definition activateFreeze (s : State) : State :=
  let s := upd_game (set_freezeActive true) s in
  let s := match engine (world s) with
           | Some e => upd_world (set_engine (Some (set_timeScale (1#2) e))) s
           | None => s
           end in
  (* ghost: activation times *)
  let s := upd_ghost (fun gh => set_freezeLog (freezeLog gh ++ [clock (sys s)]) gh) s in
  snd (setTimeout CbFreezeEnd 5000 s).

Definition activateFrenzy (s : State) : State :=
  let s := upd_game (set_frenzyActive true) s in
  let s := startSpawning s in
  snd (setTimeout CbFrenzyEnd 5000 s).

Definition triggerHitStop (s : State) : State :=
  let s := upd_game (set_hitStopActive true) s in
  snd (setTimeout CbHitStopEnd 50 s).

(** The timer callbacks. *)
Definition run_callback (cb : Callback) (s : State) : State :=
  match cb with
  | CbSpawnLoop => spawnLoop s
  | CbCountdownTick =>
      let s := upd_game (fun g => set_countdown (countdown g - 1) g) s in
      if countdown (game s) <=? 0 then
        let s := match countdownH (sys s) with Some h => clearTimer h s | None => s end in
        let s := upd_sys (set_countdownH None) s in
        let s := upd_game (set_gameStarted true) s in
        startSpawning s
      else s
  | CbFreezeEnd =>
      let s := upd_game (set_freezeActive false) s in
      match engine (world s) with
      | Some e => upd_world (set_engine (Some (set_timeScale 1 e))) s
      | None => s
      end
  | CbFrenzyEnd => upd_game (set_frenzyActive false) s
  | CbBombGameOver => gameOver s
  | CbHitStopEnd => upd_game (set_hitStopActive false) s
  end.

(** A due timer fires: it leaves the queue (an interval is re-armed first, so
    that [clearInterval] in its callback removes it), then its callback runs. *)
Definition fire (h : nat) (s : State) : State :=
  match find (fun t => (t_handle t =? h)%nat) (timers (sys s)) with
  | None => s
  | Some t =>
      let rest := filter (fun t => negb (t_handle t =? h)%nat) (timers (sys s)) in
      let q := match t_period t with
               | Some p => rest ++ [mkTimer h (t_due t + p) (t_cb t) (Some p)]
               | None => rest
               end in
      run_callback (t_cb t) (upd_sys (set_timers q) s)
  end.

(** ** Input smoother ([updateHandPosition]) *)

Definition MAX_TRAIL_LENGTH : nat := 20.
Definition TRAIL_LIFETIME : Z := 400.

(** One lerp step of a tracked slot towards its raw target. *)
Definition smooth (target cur : Pt) : Pt :=
  let dx := (px target - px cur)%Q in
  let dy := (py target - py cur)%Q in
  let dist := m_sqrt M (dx * dx + dy * dy) in
  let smoothingFactor := ((2#10) + Qmin (dist * 8) (6#10))%Q in
  mkPt (px cur + dx * smoothingFactor)%Q (py cur + dy * smoothingFactor)%Q.

(** The loop body for one slot: new smoothed position, new last position, new trail. *)
Definition update_slot (now : Z) (target pos last : option Pt) (trail : list TrailPt)
    : option Pt * option Pt * list TrailPt :=
  match target with
  | None => (None, last, trail)
  | Some t =>
      match pos with
      | None => (Some t, Some t, trail)
      | Some p =>
          let p' := smooth t p in
          let trail' := trail ++ [mkTrailPt (px p') (py p') now] in
          (Some p', Some p,
           if (MAX_TRAIL_LENGTH <? List.length trail')%nat then tl trail' else trail')
      end
  end.

Definition update_hand_slot (i : nat) (s : State) : State :=
  let hs := hands s in
  let '(p, l, tr) :=
    update_slot (clock (sys s)) (nth i (rawHand hs) None) (nth i (handPos hs) None)
      (nth i (lastHandPos hs) None) (nth i (handTrails hs) []) in
  set_hands (mkHands (rawHand hs) (replace_nth i p (handPos hs))
               (replace_nth i l (lastHandPos hs)) (replace_nth i tr (handTrails hs))) s.

Definition updateHandPosition (s : State) : State :=
  update_hand_slot 1 (update_hand_slot 0 s).

(** ** Slicing engine ([checkSlicing]) *)

(** [Math.hypot(currX - position.x, currY - position.y) < fruitRadius + 20]. *)
Definition in_reach (cx cy : Q) (b : Body) : bool :=
  let fruitRadius := if Qeq_bool (b_circleRadius b) 0 then 30%Q else b_circleRadius b in
  let ddx := (cx - b_x b)%Q in
  let ddy := (cy - b_y b)%Q in
  Qltb (ddx * ddx + ddy * ddy) ((fruitRadius + 20) * (fruitRadius + 20)).


(** A hit on a body that is not a bomb: power-up effect, debris, hit-stop,
    combo, max combo, score, popup, particles.  [sdx, sdy] is the cursor's
    displacement ([currX - lastX], [currY - lastY]). *)
Definition normal_hit (sdx sdy : Q) (fr : Fruit) (s : State) : State :=
  let b := fr_body fr in
  let s := match fr_type fr with
           | FreezeBanana => activateFreeze s
           | FrenzyBanana => activateFrenzy s
           | _ => s
           end in
  let s := fx_draw (createDebris (b_x b) (b_y b) (type_name (fr_type fr)) (b_angle b) sdx sdy) s in
  let s := triggerHitStop s in
  let now := clock (sys s) in
  let g := game s in
  let c := if now - lastSliceTime g <? 500 then combo g + 1 else 1 in
  let mc := if maxCombo g <? c then c else maxCombo g in
  let points := 10 * c in
  let s := set_game (set_score (score g + points)
                       (set_maxCombo mc (set_lastSliceTime now (set_combo c g)))) s in
  let n := popupIdCounter (fx s) in
  let s := upd_fx (fun f => set_popupIdCounter (S n)
             (set_popups (popups f ++ [mkPopup n (b_x b) (b_y b - 30)%Q points c 1 2]) f)) s in
  let s := fx_draw (createParticles (b_x b) (b_y b) (fr_color fr) false) s in
  (* ghost: the hit as resolved *)
  upd_ghost (fun gh => set_hitlog (hitlog gh ++ [mkHitRec (combo g) (lastSliceTime g) now c points]) gh) s.

(** The [for (const [id, fruit] of fruits.entries())] loop of one hand.  A map
    iterator also visits entries added while it runs (a Frenzy hit spawns a
    body), so the loop reads the [k]-th entry of the current map.  Result: the
    state, [bodiesToRemove], [hitBomb].  The fuel [List.length fruits + 15] is
    never exhausted: a spawn needs fewer than 15 entries. *)
Fixpoint hand_pass (fuel k : nat) (cx cy sdx sdy : Q) (toRemove : list nat) (s : State)
    : State * list nat * bool :=
  match fuel with
  | O => (s, toRemove, false)
  | S fuel =>
    match nth_error (fruits (world s)) k with
    | None => (s, toRemove, false)
    | Some (id, fr) =>
        let hit := in_reach cx cy (fr_body fr) in
        (* ghost: the hit test of this entry is evaluated *)
        let s := upd_ghost (fun gh => set_tested (tested gh ++ [(id, hit)]) gh) s in
        if hit then
          match fr_type fr with
          | Bomb =>
              (fx_draw (createParticles (b_x (fr_body fr)) (b_y (fr_body fr)) "#000000" true) s,
               toRemove, true)
          | _ => hand_pass fuel (S k) cx cy sdx sdy (toRemove ++ [id]) (normal_hit sdx sdy fr s)
          end
        else hand_pass fuel (S k) cx cy sdx sdy toRemove s
    end
  end.

(** [Matter.World.remove(engine.world, fruit.body); fruits.delete(id)]. *)
Definition remove_body (id : nat) (s : State) : State :=
  match find (fun e => (fst e =? id)%nat) (fruits (world s)), engine (world s) with
  | Some _, Some e =>
      upd_world (fun wd =>
        set_fruits (filter (fun e => negb (fst e =? id)%nat) (fruits wd))
          (set_engine (Some (set_worldBodies (filter (fun j => negb (j =? id)%nat) (worldBodies e)) e)) wd)) s
  | _, _ => s
  end.

(** The bomb exit of [checkSlicing]. *)
Definition bomb_exit (s : State) : State :=
  let s := upd_game (set_gameStarted false) s in
  snd (setTimeout CbBombGameOver 100 s).

(** One iteration of the hands loop; [true] when [checkSlicing] returns. *)
Definition slice_hand (i : nat) (s : State) : State * bool :=
  match nth i (handPos (hands s)) None, nth i (lastHandPos (hands s)) None with
  | Some handP, Some lastP =>
      let w := width (sys s) in
      let h := height (sys s) in
      let currX := (px handP * w)%Q in
      let currY := (py handP * h)%Q in
      let lastX := (px lastP * w)%Q in
      let lastY := (py lastP * h)%Q in
      let ddx := (currX - lastX)%Q in
      let ddy := (currY - lastY)%Q in
      if Qltb (ddx * ddx + ddy * ddy) 25 then (s, false) else
      let '(s1, toRemove, hitBomb) :=
        hand_pass (List.length (fruits (world s)) + 15) 0 currX currY ddx ddy [] s in
      if hitBomb then (bomb_exit s1, true)
      else (fold_left (fun s id => remove_body id s) toRemove s1, false)
  | _, _ => (s, false)
  end.

(** [checkSlicing]; the flag tells whether it returned at a bomb. *)
Definition check_slicing (s : State) : State * bool :=
  match engine (world s) with
  | None => (s, false)
  | Some _ =>
      let '(s1, stop) := slice_hand 0 s in
      if stop then (s1, true) else slice_hand 1 s1
  end.

Definition checkSlicing (s : State) : State := fst (check_slicing s).

(** ** Render pass ([renderGame]) *)

(** The [fruits.forEach] loop: a body below the canvas and moving down is
    removed and, while the game is started, costs a life.  After [gameOver]
    the engine is null, and the next missed body throws at [engine!.world]:
    [true] reports that the pass was aborted. *)
Fixpoint render_fruits (l : list (nat * Fruit)) (s : State) : State * bool :=
  match l with
  | [] => (s, false)
  | (_, fr) :: rest =>
      let b := fr_body fr in
      if Qltb (height (sys s) + 100) (b_y b) && Qltb 0 (b_vy b) then
        match engine (world s) with
        | None => (s, true)
        | Some e =>
            let id := b_id b in
            let s := upd_world (fun wd =>
                       set_fruits (filter (fun e => negb (fst e =? id)%nat) (fruits wd))
                         (set_engine (Some (set_worldBodies
                            (filter (fun j => negb (j =? id)%nat) (worldBodies e)) e)) wd)) s in
            let s := if gameStarted (game s) then
                       let s := upd_game (fun g => set_lives (lives g - 1) g) s in
                       (* ghost: the life lost *)
                       let s := upd_ghost (fun gh => set_lifelog (lifelog gh ++
                                  [mkLifeRec id (b_y b) (b_vy b) (height (sys s))
                                     (gameStarted (game s))]) gh) s in
                       if lives (game s) <=? 0 then gameOver s else s
                     else s in
            render_fruits rest s
        end
      else render_fruits rest s
  end.

Fixpoint drop_old (now : Z) (tr : list TrailPt) : list TrailPt :=
  match tr with
  | [] => []
  | p :: r => if TRAIL_LIFETIME <=? now - ttime p then drop_old now r else tr
  end.

Definition trim_trail (now : Z) (tr : list TrailPt) : list TrailPt :=
  if (1 <? List.length tr)%nat then drop_old now tr else tr.

Definition renderGame (s : State) : State :=
  let h := height (sys s) in
  let s := upd_fx (fun f => renderDebris h (renderParticles h f)) s in
  let '(s, crashed) := render_fruits (fruits (world s)) s in
  if crashed then s else
  let now := clock (sys s) in
  let s := upd_hands (fun hs => mkHands (rawHand hs) (handPos hs) (lastHandPos hs)
                                   (map (trim_trail now) (handTrails hs))) s in
  upd_fx (fun f => set_popups (render_popups (popups f)) f) s.

(** ** The animation-frame loop *)

(** [Matter.Engine.update(engine, delta)]: the black-box physics moves every
    body of the world; identity and radius are kept. *)
Definition physics_update (stepBody : Body -> Body) (s : State) : State :=
  match engine (world s) with
  | None => s
  | Some e =>
      let mv (b : Body) := let b' := stepBody b in
        mkBody (b_id b) (b_x b') (b_y b') (b_vx b') (b_vy b') (b_angle b')
          (b_angularVelocity b') (b_circleRadius b) in
      upd_world (fun wd => set_fruits
        (map (fun '(id, fr) =>
                if existsb (Nat.eqb id) (worldBodies e)
                then (id, mkFruit (mv (fr_body fr)) (fr_type fr) (fr_color fr))
                else (id, fr)) (fruits wd)) wd) s
  end.

(** The swoosh sound: [trail.length > 5 && Math.random() < 0.02] draws once
    per long trail. *)
Definition swoosh (s : State) : State :=
  let n := List.length (filter (fun tr => (5 <? List.length tr)%nat) (handTrails (hands s))) in
  upd_sys (fun y => set_draws (draws y + n)%nat y) s.

(** The body of [loop] up to [checkSlicing]: physics (skipped during a
    hit-stop), then the smoother. *)
Definition pre_slice (stepBody : Body -> Body) (s : State) : State :=
  let s := if hitStopActive (game s) then s else physics_update stepBody s in
  updateHandPosition s.

Definition frame (stepBody : Body -> Body) (s : State) : State :=
  match engine (world s) with
  | None => s
  | Some _ =>
      let s := pre_slice stepBody s in
      let s := if gameStarted (game s) then swoosh (checkSlicing s) else s in
      renderGame s
  end.

(** ** Events *)

Inductive Event :=
| EvHandData (cameraReady : bool) (r0 r1 : option Pt)  (* the [watch(handData)] callback *)
| EvFrame (stepBody : Body -> Body)                    (* an animation frame *)
| EvAdvance (dt : Z)                                   (* time passes *)
| EvTimer (h : nat)                                    (* a due timer fires *)
| EvResize (w h : Q)
| EvGoHome.

Definition step (s : State) (ev : Event) : State :=
  match ev with
  | EvHandData ready r0 r1 =>
      let s := if loading (game s) && ready
               then startCountdown (upd_game (set_loading false) s) else s in
      upd_hands (fun hs => mkHands [r0; r1] (handPos hs) (lastHandPos hs) (handTrails hs)) s
  | EvFrame stepBody => frame stepBody s
  | EvAdvance dt => upd_sys (fun y => set_clock (clock y + dt) y) s
  | EvTimer h => fire h s
  | EvResize w h => upd_sys (fun y => set_height h (set_width w y)) s
  | EvGoHome => goHome s
  end.

(** Time never passes a pending timer's due time; only a due timer fires. *)
Definition enabledb (s : State) (ev : Event) : bool :=
  match ev with
  | EvAdvance dt => (0 <=? dt) && forallb (fun t => clock (sys s) + dt <=? t_due t) (timers (sys s))
  | EvTimer h => existsb (fun t => (t_handle t =? h)%nat && (t_due t <=? clock (sys s))) (timers (sys s))
  | _ => true
  end.

(** [onMounted]: canvas sized to the window, physics created, countdown
    started if the camera is already ready.  The first synchronous [loop()]
    is a no-op (no body, no hand) and is not repeated here. *)
Definition mount (cameraReady : bool) (now : Z) (w h : Q) : State :=
  let s := {| game := mkGame 0 3 0 0 0 true 5 false false false false;
              world := mkWorld (Some (mkEngine 1 [])) [];
              hands := mkHands [None; None] [None; None] [None; None] [[]; []];
              fx := mkFx (repeat inert_particle MAX_PARTICLES) 0 (repeat inert_debris MAX_DEBRIS) [] 0;
              sys := mkSys now [] 1 None None 0 1 w h [];
              ghost := mkGhost [] [] [] [] |} in
  if cameraReady then startCountdown (upd_game (set_loading false) s) else s.

Inductive reachable : State -> Prop :=
| reach_mount cam now w h : reachable (mount cam now w h)
| reach_step s ev : reachable s -> enabledb s ev = true -> reachable (step s ev).

(** Running a list of events from a state, and whether each was enabled. *)
Fixpoint run (s : State) (evs : list Event) : State :=
  match evs with [] => s | ev :: r => run (step s ev) r end.

Fixpoint run_ok (s : State) (evs : list Event) : bool :=
  match evs with [] => true | ev :: r => enabledb s ev && run_ok (step s ev) r end.

End Model.


(** * The control projection of a state

    The invariants of a session concern a small part of the state: the game
    refs, the engine's time scale, the navigation history, the timer queue and
    its handles, the clock and the ghost logs.  [ctl] projects a state onto
    that part; the [c*] functions below are the effect of the view's functions
    on it (particles, debris, popups, trails, random draws and the bodies are
    left out: they are invisible here). *)

Record Ctl := mkCtl {
  c_game : Game;
  c_ts : option Q;
  c_navs : list Route;
  c_timers : list Timer;
  c_next : nat;
  c_spawnerH : option nat;
  c_countdownH : option nat;
  c_clock : Z;
  c_hitlog : list HitRec;
  c_freezeLog : list Z;
  c_lifelog : list LifeRec
}.

Definition set_c_game (x : Game) (c : Ctl) : Ctl :=
  {| c_game := x; c_ts := c_ts c; c_navs := c_navs c; c_timers := c_timers c; c_next := c_next c; c_spawnerH := c_spawnerH c; c_countdownH := c_countdownH c; c_clock := c_clock c; c_hitlog := c_hitlog c; c_freezeLog := c_freezeLog c; c_lifelog := c_lifelog c |}.
Definition set_c_ts (x : option Q) (c : Ctl) : Ctl :=
  {| c_game := c_game c; c_ts := x; c_navs := c_navs c; c_timers := c_timers c; c_next := c_next c; c_spawnerH := c_spawnerH c; c_countdownH := c_countdownH c; c_clock := c_clock c; c_hitlog := c_hitlog c; c_freezeLog := c_freezeLog c; c_lifelog := c_lifelog c |}.
Definition set_c_navs (x : list Route) (c : Ctl) : Ctl :=
  {| c_game := c_game c; c_ts := c_ts c; c_navs := x; c_timers := c_timers c; c_next := c_next c; c_spawnerH := c_spawnerH c; c_countdownH := c_countdownH c; c_clock := c_clock c; c_hitlog := c_hitlog c; c_freezeLog := c_freezeLog c; c_lifelog := c_lifelog c |}.
Definition set_c_timers (x : list Timer) (c : Ctl) : Ctl :=
  {| c_game := c_game c; c_ts := c_ts c; c_navs := c_navs c; c_timers := x; c_next := c_next c; c_spawnerH := c_spawnerH c; c_countdownH := c_countdownH c; c_clock := c_clock c; c_hitlog := c_hitlog c; c_freezeLog := c_freezeLog c; c_lifelog := c_lifelog c |}.
Definition set_c_next (x : nat) (c : Ctl) : Ctl :=
  {| c_game := c_game c; c_ts := c_ts c; c_navs := c_navs c; c_timers := c_timers c; c_next := x; c_spawnerH := c_spawnerH c; c_countdownH := c_countdownH c; c_clock := c_clock c; c_hitlog := c_hitlog c; c_freezeLog := c_freezeLog c; c_lifelog := c_lifelog c |}.
Definition set_c_spawnerH (x : option nat) (c : Ctl) : Ctl :=
  {| c_game := c_game c; c_ts := c_ts c; c_navs := c_navs c; c_timers := c_timers c; c_next := c_next c; c_spawnerH := x; c_countdownH := c_countdownH c; c_clock := c_clock c; c_hitlog := c_hitlog c; c_freezeLog := c_freezeLog c; c_lifelog := c_lifelog c |}.
Definition set_c_countdownH (x : option nat) (c : Ctl) : Ctl :=
  {| c_game := c_game c; c_ts := c_ts c; c_navs := c_navs c; c_timers := c_timers c; c_next := c_next c; c_spawnerH := c_spawnerH c; c_countdownH := x; c_clock := c_clock c; c_hitlog := c_hitlog c; c_freezeLog := c_freezeLog c; c_lifelog := c_lifelog c |}.
Definition set_c_clock (x : Z) (c : Ctl) : Ctl :=
  {| c_game := c_game c; c_ts := c_ts c; c_navs := c_navs c; c_timers := c_timers c; c_next := c_next c; c_spawnerH := c_spawnerH c; c_countdownH := c_countdownH c; c_clock := x; c_hitlog := c_hitlog c; c_freezeLog := c_freezeLog c; c_lifelog := c_lifelog c |}.
Definition set_c_hitlog (x : list HitRec) (c : Ctl) : Ctl :=
  {| c_game := c_game c; c_ts := c_ts c; c_navs := c_navs c; c_timers := c_timers c; c_next := c_next c; c_spawnerH := c_spawnerH c; c_countdownH := c_countdownH c; c_clock := c_clock c; c_hitlog := x; c_freezeLog := c_freezeLog c; c_lifelog := c_lifelog c |}.
Definition set_c_freezeLog (x : list Z) (c : Ctl) : Ctl :=
  {| c_game := c_game c; c_ts := c_ts c; c_navs := c_navs c; c_timers := c_timers c; c_next := c_next c; c_spawnerH := c_spawnerH c; c_countdownH := c_countdownH c; c_clock := c_clock c; c_hitlog := c_hitlog c; c_freezeLog := x; c_lifelog := c_lifelog c |}.
Definition set_c_lifelog (x : list LifeRec) (c : Ctl) : Ctl :=
  {| c_game := c_game c; c_ts := c_ts c; c_navs := c_navs c; c_timers := c_timers c; c_next := c_next c; c_spawnerH := c_spawnerH c; c_countdownH := c_countdownH c; c_clock := c_clock c; c_hitlog := c_hitlog c; c_freezeLog := c_freezeLog c; c_lifelog := x |}.

Definition ctl (s : State) : Ctl :=
  {| c_game := game s; c_ts := option_map timeScale (engine (world s));
     c_navs := navs (sys s); c_timers := timers (sys s); c_next := nextHandle (sys s);
     c_spawnerH := spawnerH (sys s); c_countdownH := countdownH (sys s);
     c_clock := clock (sys s); c_hitlog := hitlog (ghost s);
     c_freezeLog := freezeLog (ghost s); c_lifelog := lifelog (ghost s) |}.

Definition cSetTimer (cb : Callback) (delay : Z) (period : option Z) (c : Ctl) : nat * Ctl :=
  let h := c_next c in
  (h, set_c_next (S h) (set_c_timers (c_timers c ++ [mkTimer h (c_clock c + delay) cb period]) c)).

Definition cClear (h : nat) (c : Ctl) : Ctl :=
  set_c_timers (filter (fun t => negb (t_handle t =? h)%nat) (c_timers c)) c.

Definition cUpdGame (f : Game -> Game) (c : Ctl) : Ctl := set_c_game (f (c_game c)) c.

Definition cCleanup (c : Ctl) : Ctl :=
  let c1 := set_c_ts None c in
  let c2 := match c_spawnerH c1 with
            | Some h => set_c_spawnerH None (cClear h c1)
            | None => c1
            end in
  match c_countdownH c2 with
  | Some h => set_c_countdownH None (cClear h c2)
  | None => c2
  end.

Definition cGameOver (c : Ctl) : Ctl :=
  let c1 := cCleanup c in
  set_c_navs (c_navs c1 ++ [RGameOver (score (c_game c1))]) c1.

Definition cGoHome (c : Ctl) : Ctl :=
  let c1 := cCleanup c in set_c_navs (c_navs c1 ++ [RHome]) c1.

Definition cSpawnLoop (c : Ctl) : Ctl :=
  let '(h, c) := cSetTimer CbSpawnLoop (spawn_delay (c_game c)) None c in
  set_c_spawnerH (Some h) c.

Definition cStartSpawning (c : Ctl) : Ctl :=
  cSpawnLoop (match c_spawnerH c with Some h => cClear h c | None => c end).

Definition cStartCountdown (c : Ctl) : Ctl :=
  let '(h, c) := cSetTimer CbCountdownTick 1000 (Some 1000) c in
  set_c_countdownH (Some h) c.

Definition cActivateFreeze (c : Ctl) : Ctl :=
  let c := cUpdGame (set_freezeActive true) c in
  let c := set_c_ts (option_map (fun _ => 1#2) (c_ts c)) c in
  let c := set_c_freezeLog (c_freezeLog c ++ [c_clock c]) c in
  snd (cSetTimer CbFreezeEnd 5000 None c).

Definition cActivateFrenzy (c : Ctl) : Ctl :=
  let c := cUpdGame (set_frenzyActive true) c in
  let c := cStartSpawning c in
  snd (cSetTimer CbFrenzyEnd 5000 None c).

Definition cTriggerHitStop (c : Ctl) : Ctl :=
  let c := cUpdGame (set_hitStopActive true) c in
  snd (cSetTimer CbHitStopEnd 50 None c).

Definition cNormalHit (ty : FruitType) (c : Ctl) : Ctl :=
  let c := match ty with
           | FreezeBanana => cActivateFreeze c
           | FrenzyBanana => cActivateFrenzy c
           | _ => c
           end in
  let c := cTriggerHitStop c in
  let now := c_clock c in
  let g := c_game c in
  let cmb := if now - lastSliceTime g <? 500 then combo g + 1 else 1 in
  let mc := if maxCombo g <? cmb then cmb else maxCombo g in
  let c := set_c_game (set_score (score g + 10 * cmb)
                         (set_maxCombo mc (set_lastSliceTime now (set_combo cmb g)))) c in
  set_c_hitlog (c_hitlog c ++ [mkHitRec (combo g) (lastSliceTime g) now cmb (10 * cmb)]) c.

Definition cBombExit (c : Ctl) : Ctl :=
  snd (cSetTimer CbBombGameOver 100 None (cUpdGame (set_gameStarted false) c)).

(** A missed body, as the render pass handles it once the body is removed. *)
Definition cMiss (id : nat) (y vy h : Q) (c : Ctl) : Ctl :=
  if gameStarted (c_game c) then
    let c := cUpdGame (fun g => set_lives (lives g - 1) g) c in
    let c := set_c_lifelog (c_lifelog c ++ [mkLifeRec id y vy h (gameStarted (c_game c))]) c in
    if lives (c_game c) <=? 0 then cGameOver c else c
  else c.

Definition cRunCallback (cb : Callback) (c : Ctl) : Ctl :=
  match cb with
  | CbSpawnLoop => cSpawnLoop c
  | CbCountdownTick =>
      let c := cUpdGame (fun g => set_countdown (countdown g - 1) g) c in
      if countdown (c_game c) <=? 0 then
        let c := match c_countdownH c with Some h => cClear h c | None => c end in
        let c := set_c_countdownH None c in
        let c := cUpdGame (set_gameStarted true) c in
        cStartSpawning c
      else c
  | CbFreezeEnd =>
      let c := cUpdGame (set_freezeActive false) c in
      set_c_ts (option_map (fun _ => 1%Q) (c_ts c)) c
  | CbFrenzyEnd => cUpdGame (set_frenzyActive false) c
  | CbBombGameOver => cGameOver c
  | CbHitStopEnd => cUpdGame (set_hitStopActive false) c
  end.

Definition cFire (h : nat) (c : Ctl) : Ctl :=
  match find (fun t => (t_handle t =? h)%nat) (c_timers c) with
  | None => c
  | Some t =>
      let rest := filter (fun t => negb (t_handle t =? h)%nat) (c_timers c) in
      let q := match t_period t with
               | Some p => rest ++ [mkTimer h (t_due t + p) (t_cb t) (Some p)]
               | None => rest
               end in
      cRunCallback (t_cb t) (set_c_timers q c)
  end.

(** The moves of an animation frame on the projection: a normal hit, a bomb
    hit, a missed body.  Hits happen while the game is started; all three
    while the engine exists. *)
Inductive cmove : Ctl -> Ctl -> Prop :=
| cm_hit ty c : c_ts c <> None -> gameStarted (c_game c) = true -> cmove c (cNormalHit ty c)
| cm_bomb c : c_ts c <> None -> gameStarted (c_game c) = true -> cmove c (cBombExit c)
| cm_miss id y vy h c : c_ts c <> None -> Qltb (h + 100) y = true -> Qltb 0 vy = true ->
    cmove c (cMiss id y vy h c).

(** One event on the projection. *)
Inductive cstep : Ctl -> Ctl -> Prop :=
| cs_frame c c' : clos_refl_trans Ctl cmove c c' -> cstep c c'
| cs_hand c ready :
    cstep c (if loading (c_game c) && ready
             then cStartCountdown (cUpdGame (set_loading false) c) else c)
| cs_advance c dt : 0 <= dt -> (forall t, In t (c_timers c) -> c_clock c + dt <= t_due t) ->
    cstep c (set_c_clock (c_clock c + dt) c)
| cs_timer c h : (exists t, In t (c_timers c) /\ t_handle t = h /\ t_due t <= c_clock c) ->
    cstep c (cFire h c)
| cs_home c : cstep c (cGoHome c).

(** Number of [game-over] navigations. *)
Fixpoint count_go (l : list Route) : nat :=
  match l with
  | [] => O
  | RGameOver _ :: r => S (count_go r)
  | RHome :: r => count_go r
  end.

(** A resolved hit as the combo rule describes it. *)
Definition hit_ok (r : HitRec) : Prop :=
  hr_combo_after r = (if hr_now r - hr_last r <? 500 then hr_combo_before r + 1 else 1) /\
  hr_points r = 10 * hr_combo_after r.

(** The hits of a session in order: each reads the combo and the slice time
    the previous one set (starting from [cb], [tl]), and the last one leaves
    [cf], [tf]. *)
Fixpoint hits_from (cb tl : Z) (l : list HitRec) (cf tf : Z) : Prop :=
  match l with
  | [] => cb = cf /\ tl = tf
  | r :: rest => hr_combo_before r = cb /\ hr_last r = tl /\ hit_ok r /\
                 hits_from (hr_combo_after r) (hr_now r) rest cf tf
  end.

(** A life is lost for a body below the canvas, moving down, while the game is started. *)
Definition missed_ok (r : LifeRec) : Prop :=
  (lr_height r + 100 < lr_y r)%Q /\ (0 < lr_vy r)%Q /\ lr_started r = true.

(** The timer queue is well formed: handles are distinct and below the next
    handle, the spawn and countdown handles name timers of their callback (or
    none), only the countdown ticks periodically, no timer is overdue. *)
Record TimersOk (c : Ctl) : Prop := {
  to_nodup : NoDup (map t_handle (c_timers c));
  to_fresh : forall t, In t (c_timers c) -> (t_handle t < c_next c)%nat;
  to_spawnerH : forall h, c_spawnerH c = Some h -> (h < c_next c)%nat /\
    (forall t, In t (c_timers c) -> t_handle t = h -> t_cb t = CbSpawnLoop);
  to_countdownH : forall h, c_countdownH c = Some h -> (h < c_next c)%nat /\
    (forall t, In t (c_timers c) -> t_handle t = h -> t_cb t = CbCountdownTick);
  to_period : forall t, In t (c_timers c) ->
    t_period t = None \/ (t_cb t = CbCountdownTick /\ t_period t = Some 1000);
  to_due : forall t, In t (c_timers c) -> c_clock c <= t_due t
}.

(** The session invariant, on the control projection. *)
Record GoodC (c : Ctl) : Prop := {
  gd_timers : TimersOk c;
  gd_lives : 0 <= lives (c_game c);
  gd_lifecount : lives (c_game c) = 3 - Z.of_nat (List.length (c_lifelog c));
  gd_lifelog : Forall missed_ok (c_lifelog c);
  gd_engine : c_ts c <> None -> 1 <= lives (c_game c) /\ count_go (c_navs c) = O;
  gd_dead : lives (c_game c) = 0 -> count_go (c_navs c) = 1%nat;
  gd_go_once : (count_go (c_navs c) <= 1)%nat;
  gd_bomb_unique : forall t1 t2, In t1 (c_timers c) -> In t2 (c_timers c) ->
    t_cb t1 = CbBombGameOver -> t_cb t2 = CbBombGameOver -> t1 = t2;
  gd_bomb_pending : forall t, In t (c_timers c) -> t_cb t = CbBombGameOver ->
    gameStarted (c_game c) = false /\ loading (c_game c) = false /\
    count_go (c_navs c) = O /\
    (forall t', In t' (c_timers c) -> t_cb t' <> CbCountdownTick);
  gd_started : gameStarted (c_game c) = true -> loading (c_game c) = false /\
    (forall t, In t (c_timers c) -> t_cb t <> CbCountdownTick);
  gd_countdown : forall t, In t (c_timers c) -> t_cb t = CbCountdownTick ->
    loading (c_game c) = false /\ c_countdownH c = Some (t_handle t);
  gd_timescale : forall q, c_ts c = Some q ->
    q = (if freezeActive (c_game c) then 1#2 else 1)%Q;
  gd_combo : 0 <= combo (c_game c);
  gd_hits : hits_from 0 0 (c_hitlog c) (combo (c_game c)) (lastSliceTime (c_game c))
}.

Definition Good (s : State) : Prop := GoodC (ctl s).


(** * Auxiliary definitions for the proofs *)

(** Where the timers of a state come from. *)
Definition tfrom (c c' : Ctl) (P : Callback -> Prop) : Prop :=
  forall t, In t (c_timers c') -> In t (c_timers c) \/ P (t_cb t).

(** Callbacks that neither tick the countdown nor end the game after a bomb. *)
Definition quiet (cb : Callback) : Prop := cb <> CbCountdownTick /\ cb <> CbBombGameOver.

(** The combo the next hit would set. *)
Definition next_combo (c : Ctl) : Z :=
  if c_clock c - lastSliceTime (c_game c) <? 500 then combo (c_game c) + 1 else 1.

(** Nothing is removed from the fruit map or the engine: both only grow. *)
Definition grows (s s' : State) : Prop :=
  (exists ex, fruits (world s') = fruits (world s) ++ ex) /\
  (forall e, engine (world s) = Some e ->
     exists e' ex, engine (world s') = Some e' /\ worldBodies e' = worldBodies e ++ ex).

(** The state after a bomb hit: score and combo frozen, the game stopped, and
    the game-over timer pending or the game-over screen reached. *)
Definition after_bomb (sc cb : Z) (hb : nat) (due : Z) (c : Ctl) : Prop :=
  score (c_game c) = sc /\ combo (c_game c) = cb /\ gameStarted (c_game c) = false /\
  loading (c_game c) = false /\ (forall t, In t (c_timers c) -> t_cb t <> CbCountdownTick) /\
  (In (mkTimer hb due CbBombGameOver None) (c_timers c) \/ In (RGameOver sc) (c_navs c)).

(** The operations on the particle and debris pools. *)
Inductive PoolOp :=
| OpParticles (x y : Q) (color : string) (isExplosion : bool)
| OpDebris (x y : Q) (type : string) (rotation sliceVx sliceVy : Q)
| OpRender (height : Q).

Definition apply_op (M : MathLib) (fd : Fx * nat) (op : PoolOp) : Fx * nat :=
  let '(f, d) := fd in
  match op with
  | OpParticles x y c e => createParticles M x y c e f d
  | OpDebris x y ty r vx vy => createDebris M x y ty r vx vy f d
  | OpRender h => (renderDebris h (renderParticles h f), d)
  end.

Definition apply_ops (M : MathLib) (ops : list PoolOp) (fd : Fx * nat) : Fx * nat :=
  fold_left (apply_op M) ops fd.

Definition is_producer (op : PoolOp) : bool :=
  match op with OpRender _ => false | _ => true end.

(** A step that leaves the Freeze state alone. *)
Definition fz_same (c c' : Ctl) : Prop :=
  c_freezeLog c' = c_freezeLog c /\ freezeActive (c_game c') = freezeActive (c_game c) /\
  c_clock c <= c_clock c' /\
  (forall x, In x (c_timers c') -> t_cb x = CbFreezeEnd -> In x (c_timers c)) /\
  (forall x, In x (c_timers c) -> t_cb x = CbFreezeEnd -> In x (c_timers c')).

(** The part of [cNormalHit] after the power-up. *)
Definition hit_tail (c : Ctl) : Ctl :=
  let c := cTriggerHitStop c in
  let now := c_clock c in
  let g := c_game c in
  let cmb := if now - lastSliceTime g <? 500 then combo g + 1 else 1 in
  let mc := if maxCombo g <? cmb then cmb else maxCombo g in
  let c := set_c_game (set_score (score g + 10 * cmb)
                         (set_maxCombo mc (set_lastSliceTime now (set_combo cmb g)))) c in
  set_c_hitlog (c_hitlog c ++ [mkHitRec (combo g) (lastSliceTime g) now cmb (10 * cmb)]) c.

(** The Freeze state since a reference point with Freeze log [log0]: no
    activation and no FreezeEnd timer yet, or a first activation at [t] whose
    timer is pending (and Freeze on until it fires) or has fired. *)
Definition freeze_inv (log0 : list Z) (c : Ctl) : Prop :=
  (c_freezeLog c = log0 /\ forall x, In x (c_timers c) -> t_cb x <> CbFreezeEnd) \/
  exists t L, c_freezeLog c = log0 ++ t :: L /\ t <= c_clock c /\
    ((exists hf, In (mkTimer hf (t + 5000) CbFreezeEnd None) (c_timers c) /\
        (freezeActive (c_game c) = true \/ t + 5000 <= c_clock c) /\
        (forall x, In x (c_timers c) -> t_cb x = CbFreezeEnd -> t + 5000 <= t_due x)) \/
     (t + 5000 <= c_clock c /\ (L = [] -> freezeActive (c_game c) = false))).

(** The FreezeEnd timer of the activation at [v] is still pending. *)
Definition fe_pending (v : Z) (c : Ctl) : Prop :=
  exists x, In x (c_timers c) /\ t_cb x = CbFreezeEnd /\ t_due x = v + 5000.

(** Every activation logged after [log0] has either expired or its FreezeEnd
    timer is pending; while Freeze is on, some activation [u] is later than
    the expiry of every activation whose timer has already fired. *)
Definition freeze_all (log0 : list Z) (c : Ctl) : Prop :=
  exists A, c_freezeLog c = log0 ++ A /\
    (forall u, In u A -> u <= c_clock c) /\
    (forall pre u, A = pre ++ [u] -> forall v, In v pre -> v <= u) /\
    (forall v, In v A -> v + 5000 <= c_clock c \/ fe_pending v c) /\
    (freezeActive (c_game c) = true -> A = [] \/
       exists u, In u A /\ forall v, In v A -> v + 5000 <= u \/ fe_pending v c).

(** Test data *)
Definition qsqrt (q : Q) : Q := Qmake (Z.sqrt (Qnum q)) (Pos.sqrt (Qden q)).
Definition rnd0 (n : nat) : Q := if (n =? 3)%nat || (n =? 82)%nat then 1#5 else 97#100.
Definition M0 : MathLib := mkMathLib rnd0 qsqrt (fun _ => 0%Q) (fun _ => 0%Q) (355#113).
Definition rnd1 (n : nat) : Q := if (n =? 1)%nat then 1#10 else 97#100.
Definition M1 : MathLib := mkMathLib rnd1 qsqrt (fun _ => 0%Q) (fun _ => 0%Q) (355#113).
Definition sb0 (b : Body) : Body := mkBody (b_id b) 500 500 0 0 (b_angle b) 0 (b_circleRadius b).
Definition s_mount : State := mount true 0 1000 1000.
Definition ev_countdown : list Event := List.concat (repeat [EvAdvance 1000; EvTimer 1] 5).
Definition hand (x : Q) : Event := EvHandData true (Some (mkPt x (1#2))) None.
Definition ev_hit1 : list Event :=
  [hand (1#2); EvFrame sb0; hand (53#100); EvFrame sb0; EvAdvance 50; EvTimer 4; EvAdvance 1950].
Definition ev_hit2 : list Event :=
  [EvTimer 2; hand (47#100); EvFrame sb0; EvAdvance 50; EvTimer 7; EvAdvance 2950; EvTimer 3].
Definition s_hit1 : State := run M0 s_mount (ev_countdown ++ ev_hit1).
Definition s_hit2 : State := run M0 s_mount (ev_countdown ++ ev_hit1 ++ ev_hit2).
Definition s_started : State := run M0 s_mount ev_countdown.
Definition ev_bomb : list Event := ev_countdown ++ [hand (1#2); EvFrame sb0; hand (53#100)].
Definition s_bomb : State := run M1 s_mount ev_bomb.
Definition s_pass : State :=
  set_hands (mkHands [None; None] [Some (mkPt (52#100) (1#2)); None] [Some (mkPt (1#2) (1#2)); None] [[]; []])
   (set_world (mkWorld (Some (mkEngine 1 [10; 11]%nat))
      [(10%nat, mkFruit (mkBody 10 500 500 0 0 0 0 30) Apple "#ff0000");
       (11%nat, mkFruit (mkBody 11 505 500 0 0 0 0 30) Bomb "#000000")]) (mount false 0 1000 1000)).
Definition s_smooth : State :=
  set_hands (mkHands [Some (mkPt (53#100) (1#2)); None] [Some (mkPt (1#2) (1#2)); None]
                     [Some (mkPt (1#2) (1#2)); None] [[]; []]) (mount true 0 1000 1000).
Definition g_both : Game := set_frenzyActive true (set_freezeActive true (game s_mount)).

Definition ops0 : list PoolOp :=
  [OpParticles 0 0 "#ffffff"%string false; OpDebris 0 0 "apple"%string 0 0 0; OpRender 1000].

(** ** Further definitions: flags, invariants and sample runs used by the
    properties below *)

Definition fis (P : Fx -> Prop) (s : State) : Prop := P (fx s).

Inductive Flag := FHitStop | FFrenzy | FFreeze.

Definition flag_on (fl : Flag) (g : Game) : bool :=
  match fl with
  | FHitStop => hitStopActive g
  | FFrenzy => frenzyActive g
  | FFreeze => freezeActive g
  end.

Definition flag_cb (fl : Flag) : Callback :=
  match fl with
  | FHitStop => CbHitStopEnd
  | FFrenzy => CbFrenzyEnd
  | FFreeze => CbFreezeEnd
  end.

Definition flag_len (fl : Flag) : Z :=
  match fl with FHitStop => 50 | FFrenzy => 5000 | FFreeze => 5000 end.

(** An effect that is on has its end timer pending, due within its length. *)

Definition expiring (fl : Flag) (c : Ctl) : Prop :=
  flag_on fl (c_game c) = true ->
  exists t, In t (c_timers c) /\ t_cb t = flag_cb fl /\ t_due t <= c_clock c + flag_len fl.

(** A step that does not switch the effect on, keeps its end timers and does
    not move the clock back. *)

Definition fl_keeps (fl : Flag) (c c' : Ctl) : Prop :=
  (flag_on fl (c_game c') = true -> flag_on fl (c_game c) = true) /\
  (forall t, In t (c_timers c) -> t_cb t = flag_cb fl -> In t (c_timers c')) /\
  c_clock c <= c_clock c'.

Definition ev_fx : list Event := ev_countdown ++ [hand (1#2); EvFrame sb0; hand (53#100); EvFrame sb0].

Definition s_fx : State := run M0 s_mount ev_fx.

(** While the hit-stop, Frenzy or Freeze is active, its end timer is pending
    and due within 50 ms, 5000 ms and 5000 ms of the current time. *)

Definition spawn_ok (c : Ctl) : Prop :=
  forall t, In t (c_timers c) -> t_cb t = CbSpawnLoop -> c_spawnerH c = Some (t_handle t).

Definition no_spawn (c : Ctl) : Prop :=
  forall t, In t (c_timers c) -> t_cb t <> CbSpawnLoop.

(** A step that keeps the spawn handle and adds no spawn timer. *)

Definition sp_keeps (c c' : Ctl) : Prop :=
  c_spawnerH c' = c_spawnerH c /\
  forall t, In t (c_timers c') -> t_cb t = CbSpawnLoop -> In t (c_timers c).

Definition t_spawn_fx : Timer := mkTimer 2 7000 CbSpawnLoop None.

(** At most one spawn timer is pending, and it is the one
    [fruitSpawnerInterval] names, so [startSpawning] and [cleanup] stop every
    pending spawn loop when they clear that handle. *)

Definition cd_ok (c : Ctl) : Prop :=
  (0 <= countdown (c_game c) <= 5) /\
  (loading (c_game c) = true -> countdown (c_game c) = 5) /\
  (forall t, In t (c_timers c) -> t_cb t = CbCountdownTick -> 1 <= countdown (c_game c)) /\
  (gameStarted (c_game c) = true -> countdown (c_game c) = 0).

Definition not_tick (cb : Callback) : Prop := cb <> CbCountdownTick.

Definition s_cd : State := run M0 s_mount (firstn 4 ev_countdown).

(** The countdown stays between 0 and 5: it is 5 while the camera is loading,
    at least 1 while a countdown tick is pending, and 0 once the game has
    started. *)

Definition sum_points (l : list HitRec) : Z := fold_right (fun r acc => hr_points r + acc) 0 l.

Definition max_combo (l : list HitRec) : Z := fold_right (fun r acc => Z.max (hr_combo_after r) acc) 0 l.

Definition sc_ok (c : Ctl) : Prop :=
  score (c_game c) = sum_points (c_hitlog c) /\ maxCombo (c_game c) = max_combo (c_hitlog c).

Definition sc_keeps (c c' : Ctl) : Prop :=
  score (c_game c') = score (c_game c) /\ maxCombo (c_game c') = maxCombo (c_game c) /\
  c_hitlog c' = c_hitlog c.

Definition frozen (s s' : State) : Prop :=
  engine (world s') = None /\ fruits (world s') = fruits (world s) /\
  score (game s') = score (game s) /\ lives (game s') = lives (game s) /\
  combo (game s') = combo (game s) /\ maxCombo (game s') = maxCombo (game s).

Definition fm_ok (s : State) : Prop :=
  NoDup (map fst (fruits (world s))) /\
  (forall id fr, In (id, fr) (fruits (world s)) ->
     b_id (fr_body fr) = id /\ (id < nextBodyId (sys s))%nat) /\
  (List.length (fruits (world s)) <= 15)%nat /\
  (forall e, engine (world s) = Some e -> worldBodies e = map fst (fruits (world s))).

Definition idmap (l : list (nat * Fruit)) : list (nat * nat) :=
  map (fun p => (fst p, b_id (fr_body (snd p)))) l.

(** A step that keeps the keys and body ids of the fruits, does not
    decrease the next body id and adds no engine. *)

Definition wk (s s' : State) : Prop :=
  idmap (fruits (world s')) = idmap (fruits (world s)) /\
  (nextBodyId (sys s) <= nextBodyId (sys s'))%nat /\
  (forall e', engine (world s') = Some e' ->
     exists e, engine (world s) = Some e /\ worldBodies e' = worldBodies e).

Fixpoint chrono (tr : list TrailPt) : Prop :=
  match tr with
  | [] => True
  | p :: r => Forall (fun q => ttime p <= ttime q) r /\ chrono r
  end.

Definition trail_ok (now : Z) (tr : list TrailPt) : Prop :=
  (List.length tr <= MAX_TRAIL_LENGTH)%nat /\ chrono tr /\ Forall (fun p => ttime p <= now) tr.

Definition hands_ok (now : Z) (hs : Hands) : Prop :=
  List.length (rawHand hs) = 2%nat /\ List.length (handPos hs) = 2%nat /\
  List.length (lastHandPos hs) = 2%nat /\ List.length (handTrails hs) = 2%nat /\
  (forall i p, nth i (handPos hs) None = Some p -> exists q, nth i (lastHandPos hs) None = Some q) /\
  Forall (trail_ok now) (handTrails hs).

(** ** Trails *)

Definition trail_demo : list TrailPt :=
  [mkTrailPt 0 0 100; mkTrailPt 0 0 300; mkTrailPt 0 0 700; mkTrailPt 0 0 900].

Definition n_active (pool : list Particle) : nat := List.length (filter p_active pool).

Definition px_ok (f : Fx) : Prop :=
  List.length (particlePool f) = MAX_PARTICLES /\ List.length (debrisPool f) = MAX_DEBRIS /\
  activeParticleCount f = Z.of_nat (n_active (particlePool f)) /\ activeParticleCount f <= 130.

(** ** The pools *)

Definition s_bomb_hit : State := run M1 s_mount (ev_bomb ++ [EvFrame sb0]).

Definition t_bomb : Timer := mkTimer 3 5100 CbBombGameOver None.

Definition popup_ok (n : nat) (p : Popup) : Prop :=
  (pu_id p < n)%nat /\ (0 < pu_life p <= 1)%Q /\ pu_velocity p = 2%Q /\ pu_points p = 10 * pu_combo p.

Definition pp_ok (f : Fx) : Prop :=
  StronglySorted (fun a b => (pu_id a < pu_id b)%nat) (popups f) /\
  Forall (popup_ok (popupIdCounter f)) (popups f).

(** * Proofs *)

Ltac dstate s := destruct s as [?g [?eng ?fr] ?hs ?f [?clk ?tms ?nh ?sp ?cd ?dr ?nb ?wd ?ht ?nv] ?gh].

Ltac trefl := let t := fresh "t" in let Ht := fresh "Ht" in intros t Ht; left; exact Ht.

(** Which of the game's fields each control operation touches. *)
Ltac ctl_cases :=
  repeat match goal with
  | |- context [match ?x with Some _ => _ | None => _ end] => destruct x
  | |- context [if ?b then _ else _] => destruct b
  end.

Section Proofs.
Variable M : MathLib.


Lemma spawnFruit_ctl s : ctl (spawnFruit M s) = ctl s.
Proof.
  unfold spawnFruit. destruct (engine (world s)) eqn:E; [|reflexivity].
  destruct (15 <=? _)%nat; [reflexivity|].
  dstate s; cbn in E; subst eng. cbn.
  destruct (Qltb _ (15#100)); cbn; [reflexivity|].
  destruct (Qltb (95#100) _); cbn; reflexivity.
Qed.

Lemma fx_draw_ctl f s : ctl (fx_draw f s) = ctl s.
Proof. unfold fx_draw. destruct (f _ _); reflexivity. Qed.

Lemma fx_draw_world f s : world (fx_draw f s) = world s.
Proof. unfold fx_draw. destruct (f _ _); reflexivity. Qed.

Lemma fx_draw_game f s : game (fx_draw f s) = game s.
Proof. unfold fx_draw. destruct (f _ _); reflexivity. Qed.

Lemma fx_draw_ghost f s : ghost (fx_draw f s) = ghost s.
Proof. unfold fx_draw. destruct (f _ _); reflexivity. Qed.

Lemma fx_draw_hands f s : hands (fx_draw f s) = hands s.
Proof. unfold fx_draw. destruct (f _ _); reflexivity. Qed.

Lemma fx_draw_width f s : width (sys (fx_draw f s)) = width (sys s) /\ height (sys (fx_draw f s)) = height (sys s).
Proof. unfold fx_draw. destruct (f _ _); split; reflexivity. Qed.

Lemma setTimer_ctl cb d p s :
  fst (setTimer cb d p s) = fst (cSetTimer cb d p (ctl s)) /\
  ctl (snd (setTimer cb d p s)) = snd (cSetTimer cb d p (ctl s)).
Proof. split; reflexivity. Qed.

Lemma clearTimer_ctl h s : ctl (clearTimer h s) = cClear h (ctl s).
Proof. reflexivity. Qed.

Lemma cleanup_ctl s : ctl (cleanup s) = cCleanup (ctl s).
Proof.
  unfold cleanup, cCleanup. dstate s. destruct eng; cbn;
  destruct sp; cbn; destruct cd; reflexivity.
Qed.

Lemma gameOver_ctl s : ctl (gameOver s) = cGameOver (ctl s).
Proof. unfold gameOver, cGameOver. rewrite <- cleanup_ctl. reflexivity. Qed.

Lemma goHome_ctl s : ctl (goHome s) = cGoHome (ctl s).
Proof. unfold goHome, cGoHome. rewrite <- cleanup_ctl. reflexivity. Qed.

Lemma spawnLoop_ctl s : ctl (spawnLoop M s) = cSpawnLoop (ctl s).
Proof.
  unfold spawnLoop, cSpawnLoop. rewrite <- (spawnFruit_ctl s).
  generalize (spawnFruit M s); intro s1. reflexivity.
Qed.

Lemma startSpawning_ctl s : ctl (startSpawning M s) = cStartSpawning (ctl s).
Proof.
  unfold startSpawning, cStartSpawning. rewrite spawnLoop_ctl.
  dstate s; cbn. destruct sp; reflexivity.
Qed.

Lemma startCountdown_ctl s : ctl (startCountdown s) = cStartCountdown (ctl s).
Proof. reflexivity. Qed.

Lemma activateFreeze_ctl s : ctl (activateFreeze s) = cActivateFreeze (ctl s).
Proof. unfold activateFreeze, cActivateFreeze. dstate s; destruct eng; reflexivity. Qed.

Lemma activateFrenzy_ctl s : ctl (activateFrenzy M s) = cActivateFrenzy (ctl s).
Proof.
  unfold activateFrenzy, cActivateFrenzy.
  transitivity (snd (cSetTimer CbFrenzyEnd 5000 None
    (ctl (startSpawning M (upd_game (set_frenzyActive true) s))))); [reflexivity|].
  rewrite startSpawning_ctl. reflexivity.
Qed.

Lemma triggerHitStop_ctl s : ctl (triggerHitStop s) = cTriggerHitStop (ctl s).
Proof. reflexivity. Qed.


Lemma normal_hit_ctl sdx sdy fr s :
  ctl (normal_hit M sdx sdy fr s) = cNormalHit (fr_type fr) (ctl s).
Proof.
  unfold normal_hit, cNormalHit.
  set (s1 := match fr_type fr with
             | FreezeBanana => activateFreeze s
             | FrenzyBanana => activateFrenzy M s
             | _ => s end).
  assert (E1 : ctl s1 = match fr_type fr with
             | FreezeBanana => cActivateFreeze (ctl s)
             | FrenzyBanana => cActivateFrenzy (ctl s)
             | _ => ctl s end).
  { subst s1; destruct (fr_type fr); auto using activateFreeze_ctl, activateFrenzy_ctl. }
  rewrite <- E1. clearbody s1.
  rewrite <- (fx_draw_ctl (createDebris M (b_x (fr_body fr)) (b_y (fr_body fr))
        (type_name (fr_type fr)) (b_angle (fr_body fr)) sdx sdy) s1).
  generalize (fx_draw (createDebris M (b_x (fr_body fr)) (b_y (fr_body fr))
        (type_name (fr_type fr)) (b_angle (fr_body fr)) sdx sdy) s1). intro s2.
  change (cTriggerHitStop (ctl s2)) with (ctl (triggerHitStop s2)).
  generalize (triggerHitStop s2). intro s3.
  cbv zeta.
  match goal with |- ctl (upd_ghost ?F (fx_draw ?P ?X)) = _ =>
    transitivity (ctl (upd_ghost F X)); [unfold fx_draw; destruct (P _ _); reflexivity|] end.
  reflexivity.
Qed.


Lemma bomb_exit_ctl s : ctl (bomb_exit s) = cBombExit (ctl s).
Proof. reflexivity. Qed.

Lemma run_callback_ctl cb s : ctl (run_callback M cb s) = cRunCallback cb (ctl s).
Proof.
  destruct cb; cbn [run_callback cRunCallback].
  - apply spawnLoop_ctl.
  - cbv zeta.
    change (countdown (game (upd_game (fun g : Game => set_countdown (countdown g - 1) g) s)))
      with (countdown (game s) - 1).
    change (countdown (c_game (cUpdGame (fun g : Game => set_countdown (countdown g - 1) g) (ctl s))))
      with (countdown (game s) - 1).
    destruct (countdown (game s) - 1 <=? 0); [|reflexivity].
    rewrite startSpawning_ctl. f_equal.
    dstate s; cbn. destruct cd; reflexivity.
  - dstate s; destruct eng; reflexivity.
  - reflexivity.
  - apply gameOver_ctl.
  - reflexivity.
Qed.

Lemma fire_ctl h s : ctl (fire M h s) = cFire h (ctl s).
Proof.
  unfold fire, cFire. cbn [c_timers ctl].
  destruct (find _ (timers (sys s))) as [t|]; [|reflexivity].
  rewrite run_callback_ctl. reflexivity.
Qed.


Lemma physics_update_ctl sb s : ctl (physics_update sb s) = ctl s.
Proof. unfold physics_update. dstate s; destruct eng; reflexivity. Qed.

Lemma physics_update_game sb s : game (physics_update sb s) = game s /\ sys (physics_update sb s) = sys s /\ ghost (physics_update sb s) = ghost s.
Proof. unfold physics_update. dstate s; destruct eng; repeat split. Qed.

Lemma update_hand_slot_same i s :
  ctl (update_hand_slot M i s) = ctl s /\ world (update_hand_slot M i s) = world s /\
  game (update_hand_slot M i s) = game s /\ sys (update_hand_slot M i s) = sys s /\
  ghost (update_hand_slot M i s) = ghost s.
Proof. unfold update_hand_slot. destruct (update_slot _ _ _ _ _) as [[? ?] ?]. repeat split. Qed.

Lemma pre_slice_ctl sb s : ctl (pre_slice M sb s) = ctl s.
Proof.
  unfold pre_slice, updateHandPosition.
  rewrite !(proj1 (update_hand_slot_same _ _)).
  destruct (hitStopActive (game s)); [reflexivity|apply physics_update_ctl].
Qed.

Lemma pre_slice_game sb s : game (pre_slice M sb s) = game s /\ sys (pre_slice M sb s) = sys s /\
  ghost (pre_slice M sb s) = ghost s.
Proof.
  unfold pre_slice, updateHandPosition.
  destruct (update_hand_slot_same 1 (update_hand_slot M 0 (if hitStopActive (game s) then s else physics_update sb s)))
    as (_ & _ & -> & -> & ->).
  destruct (update_hand_slot_same 0 (if hitStopActive (game s) then s else physics_update sb s))
    as (_ & _ & -> & -> & ->).
  destruct (hitStopActive (game s)); [repeat split|apply physics_update_game].
Qed.

Lemma cNormalHit_ts ty c : c_ts c <> None -> c_ts (cNormalHit ty c) <> None.
Proof.
  destruct c as [? [q|] ? ? ? sp ? ? ? ? ?]; intros H; [clear H|now exfalso; apply H].
  destruct ty; cbn; try congruence; destruct sp; cbn; congruence.
Qed.

Lemma cNormalHit_started ty c : gameStarted (c_game (cNormalHit ty c)) = gameStarted (c_game c).
Proof. destruct ty; try reflexivity. cbn; destruct (c_spawnerH c); reflexivity. Qed.

Lemma upd_tested_ctl l s : ctl (upd_ghost (fun gh => set_tested (tested gh ++ l) gh) s) = ctl s.
Proof. reflexivity. Qed.

Lemma hand_pass_moves fuel k cx cy sdx sdy rem s s' rem' hb :
  hand_pass M fuel k cx cy sdx sdy rem s = (s', rem', hb) ->
  c_ts (ctl s) <> None -> gameStarted (game s) = true ->
  clos_refl_trans Ctl cmove (ctl s) (ctl s') /\ c_ts (ctl s') <> None /\ gameStarted (game s') = true.
Proof.
  revert k rem s. induction fuel as [|fuel IH]; intros k rem s Hp Hts Hg; cbn in Hp.
  - inversion Hp; subst. split; [apply rt_refl|auto].
  - destruct (nth_error (fruits (world s)) k) as [[id fr]|].
    2:{ inversion Hp; subst. split; [apply rt_refl|auto]. }
    set (s0 := upd_ghost _ s) in Hp.
    assert (E0 : ctl s0 = ctl s) by apply upd_tested_ctl.
    assert (G0 : game s0 = game s) by reflexivity.
    destruct (in_reach cx cy (fr_body fr)).
    + destruct (fr_type fr) eqn:Ety;
      try (inversion Hp; subst; rewrite fx_draw_ctl, fx_draw_game;
           split; [exact (rt_refl _ _ _)|split; [exact Hts|exact Hg]]; fail);
      (assert (T1 : c_ts (ctl (normal_hit M sdx sdy fr s0)) <> None)
         by (rewrite normal_hit_ctl; apply cNormalHit_ts; rewrite E0; exact Hts);
       assert (T2 : gameStarted (game (normal_hit M sdx sdy fr s0)) = true)
         by (change (gameStarted (c_game (ctl (normal_hit M sdx sdy fr s0))) = true);
             rewrite normal_hit_ctl, cNormalHit_started; exact Hg);
       destruct (IH _ _ _ Hp T1 T2) as (H1 & H2 & H3);
       split; [|auto];
       eapply rt_trans; [|exact H1]; rewrite normal_hit_ctl, E0; apply rt_step;
       constructor; [exact Hts|exact Hg]).
    + destruct (IH _ _ _ Hp) as (H1 & H2 & H3); rewrite ?E0, ?G0; auto.
Qed.


Lemma remove_body_ctl id s : ctl (remove_body id s) = ctl s /\ game (remove_body id s) = game s.
Proof.
  unfold remove_body. destruct (find _ _); [|split; reflexivity].
  dstate s; destruct eng; split; reflexivity.
Qed.

Lemma remove_all_ctl l s :
  ctl (fold_left (fun s id => remove_body id s) l s) = ctl s /\
  game (fold_left (fun s id => remove_body id s) l s) = game s.
Proof.
  revert s; induction l as [|id l IH]; intros s; cbn; [split; reflexivity|].
  destruct (IH (remove_body id s)) as [-> ->]. apply remove_body_ctl.
Qed.

Lemma slice_hand_moves i s s' b :
  slice_hand M i s = (s', b) ->
  c_ts (ctl s) <> None -> gameStarted (game s) = true ->
  clos_refl_trans Ctl cmove (ctl s) (ctl s') /\
  (b = false -> c_ts (ctl s') <> None /\ gameStarted (game s') = true).
Proof.
  unfold slice_hand. intros Hs Hts Hg.
  destruct (nth i (handPos (hands s)) None) as [hp|];
  [|inversion Hs; subst; split; [apply rt_refl|auto]].
  destruct (nth i (lastHandPos (hands s)) None) as [lp|];
  [|inversion Hs; subst; split; [apply rt_refl|auto]].
  cbv zeta in Hs.
  destruct (Qltb _ 25); [inversion Hs; subst; split; [apply rt_refl|auto]|].
  destruct (hand_pass _ _ _ _ _ _ _ _ _) as [[s1 rem] hb] eqn:Hp.
  destruct (hand_pass_moves _ _ _ _ _ _ _ _ _ _ _ Hp Hts Hg) as (H1 & H2 & H3).
  destruct hb; inversion Hs; subst.
  - split; [|discriminate].
    eapply rt_trans; [exact H1|]. rewrite bomb_exit_ctl. apply rt_step. constructor; auto.
  - destruct (remove_all_ctl rem s1) as [-> ->]. auto.
Qed.

Lemma check_slicing_moves s :
  gameStarted (game s) = true ->
  clos_refl_trans Ctl cmove (ctl s) (ctl (checkSlicing M s)).
Proof.
  unfold checkSlicing, check_slicing. intros Hg.
  destruct (engine (world s)) as [e|] eqn:E; [|apply rt_refl].
  assert (Hts : c_ts (ctl s) <> None) by (cbn; rewrite E; discriminate).
  destruct (slice_hand M 0 s) as [s1 stop] eqn:H0.
  destruct (slice_hand_moves _ _ _ _ H0 Hts Hg) as [H1 H2].
  destruct stop; [exact H1|].
  destruct (H2 eq_refl) as [Hts1 Hg1].
  destruct (slice_hand M 1 s1) as [s2 b] eqn:H3.
  destruct (slice_hand_moves _ _ _ _ H3 Hts1 Hg1) as [H4 _].
  cbn. eapply rt_trans; eauto.
Qed.

Lemma swoosh_ctl s : ctl (swoosh s) = ctl s.
Proof. reflexivity. Qed.

Lemma render_fruits_moves l s :
  clos_refl_trans Ctl cmove (ctl s) (ctl (fst (render_fruits l s))).
Proof.
  revert s; induction l as [|[id fr] l IH]; intros s; cbn; [apply rt_refl|].
  destruct (Qltb _ _ && Qltb 0 _) eqn:Hm; [|apply IH].
  destruct (engine (world s)) as [e|] eqn:E; [|apply rt_refl].
  apply andb_true_iff in Hm as [Hm1 Hm2].
  eapply rt_trans; [|apply IH].
  apply rt_step.
  match goal with |- cmove _ (ctl ?X) =>
    replace (ctl X) with (cMiss (b_id (fr_body fr)) (b_y (fr_body fr)) (b_vy (fr_body fr))
                            (height (sys s)) (ctl s)) end.
  - constructor; auto. cbn; rewrite E; discriminate.
  - unfold cMiss. dstate s; cbn in E |- *; subst eng. cbn.
    destruct (gameStarted g); [|reflexivity]. cbn.
    destruct (lives g - 1 <=? 0); [|reflexivity].
    rewrite gameOver_ctl. reflexivity.
Qed.

Lemma renderGame_moves s :
  clos_refl_trans Ctl cmove (ctl s) (ctl (renderGame s)).
Proof.
  unfold renderGame.
  set (s1 := upd_fx _ s).
  change (ctl s) with (ctl s1).
  destruct (render_fruits (fruits (world s1)) s1) as [s2 cr] eqn:Hr.
  pose proof (render_fruits_moves (fruits (world s1)) s1) as H. rewrite Hr in H. cbn in H.
  destruct cr; [exact H|]. exact H.
Qed.

Lemma frame_moves sb s :
  clos_refl_trans Ctl cmove (ctl s) (ctl (frame M sb s)).
Proof.
  unfold frame. destruct (engine (world s)); [|apply rt_refl].
  eapply rt_trans; [|apply renderGame_moves].
  rewrite <- (pre_slice_ctl sb s).
  destruct (pre_slice_game sb s) as [Hg _].
  destruct (gameStarted (game (pre_slice M sb s))) eqn:E; [|apply rt_refl].
  rewrite swoosh_ctl. apply check_slicing_moves; auto.
Qed.

Lemma step_cstep s ev : enabledb s ev = true -> cstep (ctl s) (ctl (step M s ev)).
Proof.
  intros Hen. destruct ev as [ready r0 r1|sb|dt|h|w h|]; cbn [enabledb step] in Hen |- *.
  - change (ctl (upd_hands (fun hs => mkHands [r0; r1] (handPos hs) (lastHandPos hs) (handTrails hs))
                 (if loading (game s) && ready then startCountdown (upd_game (set_loading false) s) else s)))
      with (ctl (if loading (game s) && ready then startCountdown (upd_game (set_loading false) s) else s)).
    replace (ctl (if loading (game s) && ready then startCountdown (upd_game (set_loading false) s) else s))
      with (if loading (game s) && ready
            then cStartCountdown (cUpdGame (set_loading false) (ctl s)) else ctl s)
      by (destruct (loading (game s) && ready); reflexivity).
    exact (cs_hand (ctl s) ready).
  - constructor. apply frame_moves.
  - apply andb_true_iff in Hen as [H1 H2]. apply (cs_advance (ctl s) dt).
    + apply Z.leb_le; auto.
    + intros t Ht. rewrite forallb_forall in H2. apply Z.leb_le, H2, Ht.
  - rewrite fire_ctl. apply cs_timer.
    apply existsb_exists in Hen as [t [Ht Hb]]. apply andb_true_iff in Hb as [Hb1 Hb2].
    exists t; split; [exact Ht|split; [apply Nat.eqb_eq, Hb1|apply Z.leb_le, Hb2]].
  - constructor. apply rt_refl.
  - rewrite goHome_ctl. apply cs_home.
Qed.

End Proofs.

Lemma in_filter_handle h t l :
  In t (filter (fun t => negb (t_handle t =? h)%nat) l) <-> In t l /\ t_handle t <> h.
Proof.
  rewrite filter_In. rewrite negb_true_iff, Nat.eqb_neq. tauto.
Qed.

Lemma nodup_map_filter (f : Timer -> nat) p l :
  NoDup (map f l) -> NoDup (map f (filter p l)).
Proof.
  induction l as [|a l IH]; cbn; intros H; [constructor|].
  inversion H; subst. destruct (p a); cbn; auto.
  constructor; auto. intros Hin. apply in_map_iff in Hin as [x [Hx Hin]].
  apply filter_In in Hin as [Hin _]. apply H2, in_map_iff. eauto.
Qed.

Lemma nodup_snoc (l : list nat) x : NoDup l -> ~ In x l -> NoDup (l ++ [x]).
Proof.
  intros H1 H2. apply NoDup_app; auto; [repeat constructor; auto|].
  intros a Ha [->|[]]. auto.
Qed.

Lemma in_snoc {A} (x y : A) l : In x (l ++ [y]) <-> In x l \/ x = y.
Proof. rewrite in_app_iff. cbn. intuition. Qed.

(** Timer-queue lemmas *)

Lemma to_setTimer cb d p c :
  TimersOk c -> 0 <= d -> (p = None \/ (cb = CbCountdownTick /\ p = Some 1000)) ->
  TimersOk (snd (cSetTimer cb d p c)).
Proof.
  intros [Hn Hf Hs Hc Hp Hd] Hd0 Hp0; constructor; cbn.
  - rewrite map_app. apply nodup_snoc; auto.
    intros Hin. apply in_map_iff in Hin as [t [Ht Hin]]. apply Hf in Hin. cbn in Ht. lia.
  - intros t Ht%in_snoc. destruct Ht as [Ht| ->]; [apply Hf in Ht|cbn]; lia.
  - intros h Hh. destruct (Hs h Hh) as [Hl Hr]. split; [lia|].
    intros t Ht%in_snoc Hth. destruct Ht as [Ht| ->]; [auto|cbn in Hth; lia].
  - intros h Hh. destruct (Hc h Hh) as [Hl Hr]. split; [lia|].
    intros t Ht%in_snoc Hth. destruct Ht as [Ht| ->]; [auto|cbn in Hth; lia].
  - intros t Ht%in_snoc. destruct Ht as [Ht| ->]; auto.
  - intros t Ht%in_snoc. destruct Ht as [Ht| ->]; [auto|cbn; lia].
Qed.

Lemma to_clear h c : TimersOk c -> TimersOk (cClear h c).
Proof.
  intros [Hn Hf Hs Hc Hp Hd]; constructor; cbn.
  - apply nodup_map_filter; auto.
  - intros t Ht%in_filter_handle. apply Hf, Ht.
  - intros h' Hh. destruct (Hs h' Hh) as [Hl Hr]. split; auto.
    intros t Ht%in_filter_handle. apply Hr, Ht.
  - intros h' Hh. destruct (Hc h' Hh) as [Hl Hr]. split; auto.
    intros t Ht%in_filter_handle. apply Hr, Ht.
  - intros t Ht%in_filter_handle. apply Hp, Ht.
  - intros t Ht%in_filter_handle. apply Hd, Ht.
Qed.

Lemma to_game f c : TimersOk c -> TimersOk (cUpdGame f c).
Proof. intros []; constructor; auto. Qed.

Lemma to_ts x c : TimersOk c -> TimersOk (set_c_ts x c).
Proof. intros []; constructor; auto. Qed.

Lemma to_navs x c : TimersOk c -> TimersOk (set_c_navs x c).
Proof. intros []; constructor; auto. Qed.

Lemma to_hitlog x c : TimersOk c -> TimersOk (set_c_hitlog x c).
Proof. intros []; constructor; auto. Qed.

Lemma to_freezeLog x c : TimersOk c -> TimersOk (set_c_freezeLog x c).
Proof. intros []; constructor; auto. Qed.

Lemma to_lifelog x c : TimersOk c -> TimersOk (set_c_lifelog x c).
Proof. intros []; constructor; auto. Qed.

Lemma to_setgame x c : TimersOk c -> TimersOk (set_c_game x c).
Proof. intros []; constructor; auto. Qed.

Lemma to_spawner_none c : TimersOk c -> TimersOk (set_c_spawnerH None c).
Proof. intros []; constructor; cbn; auto; discriminate. Qed.

Lemma to_countdown_none c : TimersOk c -> TimersOk (set_c_countdownH None c).
Proof. intros []; constructor; cbn; auto; discriminate. Qed.

Lemma to_cleanup c : TimersOk c -> TimersOk (cCleanup c).
Proof.
  intros H. unfold cCleanup. cbv zeta.
  repeat match goal with |- context [match ?x with Some _ => _ | None => _ end] => destruct x end;
  repeat first [apply to_countdown_none | apply to_spawner_none | apply to_clear | apply to_ts]; auto.
Qed.

Lemma to_gameOver c : TimersOk c -> TimersOk (cGameOver c).
Proof. intros H. apply to_navs, to_cleanup, H. Qed.

Lemma to_goHome c : TimersOk c -> TimersOk (cGoHome c).
Proof. intros H. apply to_navs, to_cleanup, H. Qed.

Lemma spawn_delay_pos g : 0 <= spawn_delay g.
Proof.
  unfold spawn_delay. destruct (frenzyActive g), (freezeActive g); lia.
Qed.

Lemma to_spawnLoop c : TimersOk c -> TimersOk (cSpawnLoop c).
Proof.
  intros H. pose proof (to_setTimer CbSpawnLoop (spawn_delay (c_game c)) None c H
                          (spawn_delay_pos _) (or_introl eq_refl)) as H1.
  destruct H1 as [Hn Hf Hs Hc Hp Hd]. destruct H as [_ Hf0 _ _ _ _].
  constructor; cbn in *; auto.
  intros h [= <-]. split; [lia|].
  intros t Ht%in_snoc Hth. destruct Ht as [Ht| ->]; [apply Hf0 in Ht; lia|reflexivity].
Qed.

Lemma to_startSpawning c : TimersOk c -> TimersOk (cStartSpawning c).
Proof.
  intros H. unfold cStartSpawning. apply to_spawnLoop.
  destruct (c_spawnerH c); auto using to_clear.
Qed.

Lemma to_startCountdown c : TimersOk c -> TimersOk (cStartCountdown c).
Proof.
  intros H. pose proof (to_setTimer CbCountdownTick 1000 (Some 1000) c H
                          ltac:(lia) (or_intror (conj eq_refl eq_refl))) as H1.
  destruct H1 as [Hn Hf Hs Hc Hp Hd]. destruct H as [_ Hf0 _ _ _ _].
  constructor; cbn in *; auto.
  intros h [= <-]. split; [lia|].
  intros t Ht%in_snoc Hth. destruct Ht as [Ht| ->]; [apply Hf0 in Ht; lia|reflexivity].
Qed.

Lemma to_activateFreeze c : TimersOk c -> TimersOk (cActivateFreeze c).
Proof.
  intros H. unfold cActivateFreeze. apply to_setTimer; [|lia|auto].
  apply to_freezeLog, to_ts, to_game, H.
Qed.

Lemma to_activateFrenzy c : TimersOk c -> TimersOk (cActivateFrenzy c).
Proof.
  intros H. unfold cActivateFrenzy. apply to_setTimer; [|lia|auto].
  apply to_startSpawning, to_game, H.
Qed.

Lemma to_triggerHitStop c : TimersOk c -> TimersOk (cTriggerHitStop c).
Proof.
  intros H. unfold cTriggerHitStop. apply to_setTimer; [|lia|auto]. apply to_game, H.
Qed.

Lemma to_normalHit ty c : TimersOk c -> TimersOk (cNormalHit ty c).
Proof.
  intros H. unfold cNormalHit. cbv zeta. apply to_hitlog, to_setgame, to_triggerHitStop.
  destruct ty; auto using to_activateFreeze, to_activateFrenzy.
Qed.

Lemma to_bombExit c : TimersOk c -> TimersOk (cBombExit c).
Proof. intros H. apply to_setTimer; [apply to_game, H|lia|auto]. Qed.

Lemma to_miss id y vy h c : TimersOk c -> TimersOk (cMiss id y vy h c).
Proof.
  intros H. unfold cMiss. destruct (gameStarted (c_game c)); auto. cbn.
  destruct (_ <=? 0).
  - apply to_gameOver, to_lifelog, to_game, H.
  - apply to_lifelog, to_game, H.
Qed.

Lemma to_runCallback cb c : TimersOk c -> TimersOk (cRunCallback cb c).
Proof.
  intros H. destruct cb; cbn [cRunCallback].
  - apply to_spawnLoop, H.
  - cbv zeta. destruct (_ <=? 0); [|apply to_game, H].
    apply to_startSpawning, to_game, to_countdown_none.
    destruct (c_countdownH _); auto using to_clear, to_game.
  - apply to_ts, to_game, H.
  - apply to_game, H.
  - apply to_gameOver, H.
  - apply to_game, H.
Qed.

Lemma find_handle h l t :
  find (fun t => (t_handle t =? h)%nat) l = Some t -> In t l /\ t_handle t = h.
Proof. intros Hf. apply find_some in Hf as [H1 H2]. apply Nat.eqb_eq in H2. auto. Qed.

Lemma to_requeue h t c :
  TimersOk c -> In t (c_timers c) -> t_handle t = h ->
  TimersOk (set_c_timers
    (match t_period t with
     | Some p => filter (fun t => negb (t_handle t =? h)%nat) (c_timers c) ++
                 [mkTimer h (t_due t + p) (t_cb t) (Some p)]
     | None => filter (fun t => negb (t_handle t =? h)%nat) (c_timers c)
     end) c).
Proof.
  intros HT Ht Hh. pose proof (to_clear h c HT) as HC.
  destruct (t_period t) as [p|] eqn:Ep; [|exact HC].
  destruct HT as [Hn Hf Hs Hc Hp Hd].
  destruct (Hp t Ht) as [E|[Ecb Ep']]; [congruence|]. rewrite Ep in Ep'. injection Ep' as ->.
  destruct HC as [Hn' Hf' Hs' Hc' Hp' Hd']. cbn in *.
  constructor; cbn.
  - rewrite map_app. apply nodup_snoc; auto.
    intros Hin. apply in_map_iff in Hin as [t' [Ht' Hin]]. cbn in Ht'.
    apply in_filter_handle in Hin. tauto.
  - intros t' Ht'%in_snoc. destruct Ht' as [Ht'| ->]; [auto|cbn; subst h; auto].
  - intros h' Hh'. destruct (Hs' h' Hh') as [Hl Hr]. split; auto.
    intros t' Ht'%in_snoc Hth. destruct Ht' as [Ht'| ->]; [auto|cbn in Hth |- *].
    assert (t_cb t = CbSpawnLoop) by (apply (proj2 (Hs _ Hh')); auto; congruence). congruence.
  - intros h' Hh'. destruct (Hc' h' Hh') as [Hl Hr]. split; auto.
    intros t' Ht'%in_snoc Hth. destruct Ht' as [Ht'| ->]; [auto|cbn in Hth |- *; auto].
  - intros t' Ht'%in_snoc. destruct Ht' as [Ht'| ->]; [auto|cbn; auto].
  - intros t' Ht'%in_snoc. destruct Ht' as [Ht'| ->]; [auto|cbn]. specialize (Hd t Ht). lia.
Qed.

Lemma to_fire h c : TimersOk c -> TimersOk (cFire h c).
Proof.
  intros H. unfold cFire.
  destruct (find _ (c_timers c)) as [t|] eqn:Ef; [|exact H].
  apply find_handle in Ef as [Ht Hh].
  apply to_runCallback. cbv zeta. apply to_requeue; auto.
Qed.

Lemma to_advance dt c : TimersOk c -> (forall t, In t (c_timers c) -> c_clock c + dt <= t_due t) ->
  TimersOk (set_c_clock (c_clock c + dt) c).
Proof. intros [] Hd; constructor; auto. Qed.



Lemma tfrom_refl c P : tfrom c c P.
Proof. intros t; auto. Qed.

Lemma tfrom_trans c1 c2 c3 P : tfrom c1 c2 P -> tfrom c2 c3 P -> tfrom c1 c3 P.
Proof. intros H1 H2 t Ht. destruct (H2 t Ht); auto. Qed.

Lemma tfrom_weaken c c' (P Q : Callback -> Prop) : (forall cb, P cb -> Q cb) -> tfrom c c' P -> tfrom c c' Q.
Proof. intros HPQ H t Ht. destruct (H t Ht); auto. Qed.

Lemma tfrom_setTimer cb d p c : tfrom c (snd (cSetTimer cb d p c)) (fun x => x = cb).
Proof. intros t Ht%in_snoc. destruct Ht as [Ht| ->]; auto. Qed.

Lemma tfrom_clear h c P : tfrom c (cClear h c) P.
Proof. intros t Ht%in_filter_handle. left; apply Ht. Qed.

Lemma tfrom_cleanup c P : tfrom c (cCleanup c) P.
Proof.
  unfold cCleanup. cbv zeta.
  repeat match goal with |- context [match ?x with Some _ => _ | None => _ end] => destruct x end;
  intros t Ht; cbn in Ht; rewrite ?in_filter_handle in Ht; left; tauto.
Qed.

Lemma tfrom_gameOver c P : tfrom c (cGameOver c) P.
Proof. apply tfrom_cleanup. Qed.

Lemma tfrom_goHome c P : tfrom c (cGoHome c) P.
Proof. apply tfrom_cleanup. Qed.

Lemma tfrom_spawnLoop c : tfrom c (cSpawnLoop c) (fun x => x = CbSpawnLoop).
Proof. apply tfrom_setTimer. Qed.

Lemma tfrom_startSpawning c : tfrom c (cStartSpawning c) (fun x => x = CbSpawnLoop).
Proof.
  unfold cStartSpawning. eapply tfrom_trans; [|apply tfrom_spawnLoop].
  destruct (c_spawnerH c); [apply tfrom_clear|apply tfrom_refl].
Qed.


Lemma tfrom_normalHit ty c : tfrom c (cNormalHit ty c) quiet.
Proof.
  unfold cNormalHit. cbv zeta.
  apply tfrom_trans with (c2 := cTriggerHitStop (match ty with
           | FreezeBanana => cActivateFreeze c
           | FrenzyBanana => cActivateFrenzy c
           | _ => c end)); [|trefl].
  eapply tfrom_trans; [|eapply tfrom_weaken; [|apply tfrom_setTimer]];
    [|intros cb ->; split; discriminate].
  apply tfrom_trans with (c2 := match ty with
           | FreezeBanana => cActivateFreeze c
           | FrenzyBanana => cActivateFrenzy c
           | _ => c end); [|trefl].
  destruct ty; try apply tfrom_refl.
  - eapply tfrom_trans; [|eapply tfrom_weaken; [|apply tfrom_setTimer]];
      [trefl|intros cb ->; split; discriminate].
  - eapply tfrom_trans; [|eapply tfrom_weaken; [|apply tfrom_setTimer]];
      [|intros cb ->; split; discriminate].
    apply tfrom_trans with (c2 := cUpdGame (set_frenzyActive true) c); [trefl|].
    eapply tfrom_weaken; [|apply tfrom_startSpawning]. intros cb ->; split; discriminate.
Qed.

Lemma tfrom_miss id y vy h c P : tfrom c (cMiss id y vy h c) P.
Proof.
  unfold cMiss. destruct (gameStarted (c_game c)); [|apply tfrom_refl]. cbv zeta.
  destruct (_ <=? 0); [|trefl].
  eapply tfrom_trans; [|apply tfrom_gameOver]. trefl.
Qed.


Lemma normalHit_fields ty c :
  let c' := cNormalHit ty c in
  lives (c_game c') = lives (c_game c) /\ loading (c_game c') = loading (c_game c) /\
  gameStarted (c_game c') = gameStarted (c_game c) /\ c_navs c' = c_navs c /\
  c_lifelog c' = c_lifelog c /\ c_clock c' = c_clock c /\
  ((c_ts c' = c_ts c /\ freezeActive (c_game c') = freezeActive (c_game c)) \/
   (c_ts c' = option_map (fun _ => 1#2)%Q (c_ts c) /\ freezeActive (c_game c') = true)) /\
  combo (c_game c') = next_combo c /\ lastSliceTime (c_game c') = c_clock c /\
  score (c_game c') = score (c_game c) + 10 * next_combo c /\
  c_hitlog c' = c_hitlog c ++ [mkHitRec (combo (c_game c)) (lastSliceTime (c_game c)) (c_clock c)
                                 (next_combo c) (10 * next_combo c)].
Proof.
  destruct c as [g ts nv tm nx sp cd clk hl fl ll].
  destruct ty; cbn; unfold next_combo; cbn; try destruct sp; cbn;
  (split; [reflexivity|]); (split; [reflexivity|]); (split; [reflexivity|]);
  (split; [reflexivity|]); (split; [reflexivity|]); (split; [reflexivity|]);
  (split; [first [left; split; reflexivity | right; split; reflexivity]|]);
  repeat split.
Qed.

Lemma hits_from_snoc cb tl l cf tf r :
  hits_from cb tl l cf tf -> hr_combo_before r = cf -> hr_last r = tf -> hit_ok r ->
  hits_from cb tl (l ++ [r]) (hr_combo_after r) (hr_now r).
Proof.
  revert cb tl; induction l as [|a l IH]; intros cb tl H H1 H2 H3; cbn in *.
  - destruct H as [-> ->]. split; [exact H1|split; [exact H2|split; [exact H3|split; reflexivity]]].
  - destruct H as (Ha & Hb & Hc & Hd). split; [exact Ha|split; [exact Hb|split; [exact Hc|apply IH; auto]]].
Qed.

Lemma count_go_go l x : count_go (l ++ [RGameOver x]) = S (count_go l).
Proof. induction l as [|[|] l IH]; cbn; auto. Qed.

Lemma count_go_home l : count_go (l ++ [RHome]) = count_go l.
Proof. induction l as [|[|] l IH]; cbn; auto. Qed.

Lemma next_combo_hit c : hit_ok (mkHitRec (combo (c_game c)) (lastSliceTime (c_game c)) (c_clock c)
                                 (next_combo c) (10 * next_combo c)).
Proof. split; reflexivity. Qed.

Lemma good_normalHit ty c :
  GoodC c -> c_ts c <> None -> gameStarted (c_game c) = true -> GoodC (cNormalHit ty c).
Proof.
  intros G Hts Hg.
  destruct (normalHit_fields ty c) as (Hl & Hlo & Hgs & Hn & Hll & Hclk & Hts' & Hc & Hlt & Hsc & Hh).
  pose proof (tfrom_normalHit ty c) as Tf.
  destruct G as [GT Gl Glc Gll Ge Gd Go Gbu Gbp Gs Gcd Gts Gc Gh].
  assert (NoBomb : forall t, In t (c_timers (cNormalHit ty c)) -> t_cb t <> CbBombGameOver).
  { intros t Ht Hb. destruct (Tf t Ht) as [Ho|[_ Hq]]; [|contradiction].
    destruct (Gbp t Ho Hb) as [Hf _]. congruence. }
  assert (NoCd : forall t, In t (c_timers (cNormalHit ty c)) -> t_cb t <> CbCountdownTick).
  { intros t Ht. destruct (Tf t Ht) as [Ho|[Hq _]]; [|exact Hq].
    apply (proj2 (Gs Hg)), Ho. }
  constructor.
  - apply to_normalHit, GT.
  - rewrite Hl; exact Gl.
  - rewrite Hl, Hll; exact Glc.
  - rewrite Hll; exact Gll.
  - intros _. rewrite Hl, Hn. apply Ge, Hts.
  - rewrite Hl, Hn. exact Gd.
  - rewrite Hn. exact Go.
  - intros t1 t2 H1 _ Hb1 _. exfalso. exact (NoBomb t1 H1 Hb1).
  - intros t H1 Hb1. exfalso. exact (NoBomb t H1 Hb1).
  - intros _. rewrite Hlo. split; [apply (proj1 (Gs Hg))|exact NoCd].
  - intros t H1 Hb1. exfalso. exact (NoCd t H1 Hb1).
  - intros q Hq. destruct Hts' as [[E1 E2]|[E1 E2]]; rewrite E2.
    + rewrite E1 in Hq. apply Gts, Hq.
    + rewrite E1 in Hq. destruct (c_ts c); cbn in Hq; congruence.
  - rewrite Hc. unfold next_combo. destruct (_ <? 500); lia.
  - rewrite Hh, Hc, Hlt.
    exact (hits_from_snoc 0 0 _ _ _ (mkHitRec (combo (c_game c)) (lastSliceTime (c_game c)) (c_clock c)
                                 (next_combo c) (10 * next_combo c)) Gh eq_refl eq_refl (next_combo_hit c)).
Qed.

Lemma cleanup_fields c :
  let c' := cCleanup c in
  c_game c' = c_game c /\ c_ts c' = None /\ c_navs c' = c_navs c /\ c_clock c' = c_clock c /\
  c_hitlog c' = c_hitlog c /\ c_lifelog c' = c_lifelog c /\ c_freezeLog c' = c_freezeLog c /\
  c_countdownH c' = None /\
  (forall t, In t (c_timers c') -> In t (c_timers c) /\ c_countdownH c <> Some (t_handle t)).
Proof.
  destruct c as [g ts nv tm nx sp cd clk hl fl ll].
  destruct sp as [hs|], cd as [hc|]; cbn;
  (do 8 (split; [reflexivity|]));
  intros t Ht; rewrite ?in_filter_handle in Ht; split; try tauto; try discriminate;
  intros [= E]; subst; tauto.
Qed.

Lemma cleanup_no_countdown c :
  (forall t, In t (c_timers c) -> t_cb t = CbCountdownTick -> c_countdownH c = Some (t_handle t)) ->
  forall t, In t (c_timers (cCleanup c)) -> t_cb t <> CbCountdownTick.
Proof.
  intros H t Ht Hcb. destruct (cleanup_fields c) as (_&_&_&_&_&_&_&_&Hin).
  destruct (Hin t Ht) as [Ho Hne]. apply Hne, H; auto.
Qed.

Lemma good_gameOver c :
  TimersOk c -> 0 <= lives (c_game c) ->
  lives (c_game c) = 3 - Z.of_nat (List.length (c_lifelog c)) ->
  Forall missed_ok (c_lifelog c) -> count_go (c_navs c) = O ->
  (forall t, In t (c_timers c) -> t_cb t <> CbBombGameOver) ->
  (gameStarted (c_game c) = true -> loading (c_game c) = false) ->
  (forall t, In t (c_timers c) -> t_cb t = CbCountdownTick -> c_countdownH c = Some (t_handle t)) ->
  0 <= combo (c_game c) ->
  hits_from 0 0 (c_hitlog c) (combo (c_game c)) (lastSliceTime (c_game c)) ->
  GoodC (cGameOver c).
Proof.
  intros GT Gl Glc Gll Gn Gb Gs Gcd Gc Gh.
  destruct (cleanup_fields c) as (Eg & Ets & En & Eclk & Eh & Ell & Efl & Ecd & Hin).
  pose proof (cleanup_no_countdown c Gcd) as NoCd.
  unfold cGameOver. cbv zeta.
  constructor; cbn [c_game c_ts c_navs c_timers c_lifelog c_hitlog set_c_navs c_countdownH];
    rewrite ?Eg, ?Ets, ?En, ?Ell, ?Eh, ?Ecd.
  - apply to_navs, to_cleanup, GT.
  - exact Gl.
  - exact Glc.
  - exact Gll.
  - intros []; reflexivity.
  - intros _. rewrite count_go_go, Gn. reflexivity.
  - rewrite count_go_go, Gn. auto.
  - intros t1 t2 H1 _ Hb. exfalso. apply (Gb t1); [apply Hin, H1|exact Hb].
  - intros t1 H1 Hb. exfalso. apply (Gb t1); [apply Hin, H1|exact Hb].
  - intros Hg. split; [apply Gs, Hg|]. apply NoCd.
  - intros t Ht Hcb. exfalso. exact (NoCd t Ht Hcb).
  - discriminate.
  - exact Gc.
  - exact Gh.
Qed.

Lemma good_goHome c : GoodC c -> GoodC (cGoHome c).
Proof.
  intros G. destruct G as [GT Gl Glc Gll Ge Gd Go Gbu Gbp Gs Gcd Gts Gc Gh].
  destruct (cleanup_fields c) as (Eg & Ets & En & Eclk & Eh & Ell & Efl & Ecd & Hin).
  assert (NoCd := cleanup_no_countdown c (fun t H1 H2 => proj2 (Gcd t H1 H2))).
  unfold cGoHome. cbv zeta.
  constructor; cbn [c_game c_ts c_navs c_timers c_lifelog c_hitlog set_c_navs c_countdownH];
    rewrite ?Eg, ?Ets, ?En, ?Ell, ?Eh, ?Ecd, ?count_go_home.
  - apply to_navs, to_cleanup, GT.
  - exact Gl.
  - exact Glc.
  - exact Gll.
  - intros []; reflexivity.
  - exact Gd.
  - exact Go.
  - intros t1 t2 H1 H2. apply Gbu; apply Hin; auto.
  - intros t H1 Hb. destruct (Gbp t (proj1 (Hin t H1)) Hb) as (A & B & C & _).
    repeat split; auto.
  - intros Hg. split; [apply Gs, Hg|]. apply NoCd.
  - intros t Ht Hcb. exfalso. exact (NoCd t Ht Hcb).
  - discriminate.
  - exact Gc.
  - exact Gh.
Qed.

Lemma good_bombExit c :
  GoodC c -> c_ts c <> None -> gameStarted (c_game c) = true -> GoodC (cBombExit c).
Proof.
  intros G Hts Hg.
  assert (GT' : TimersOk (cBombExit c)) by (apply to_bombExit, gd_timers, G).
  destruct G as [GT Gl Glc Gll Ge Gd Go Gbu Gbp Gs Gcd Gts Gc Gh].
  assert (NoBomb : forall t, In t (c_timers c) -> t_cb t <> CbBombGameOver).
  { intros t Ht Hb. destruct (Gbp t Ht Hb) as [Hf _]. congruence. }
  destruct (Gs Hg) as [Hlo NoCd].
  destruct (Ge Hts) as [Hl1 Hn0].
  unfold cBombExit in *. constructor; cbn [snd cSetTimer c_timers c_game c_ts c_navs c_lifelog c_hitlog
    set_c_next set_c_timers cUpdGame set_c_game c_countdownH c_clock] in *; cbn [gameStarted set_gameStarted lives loading freezeActive combo lastSliceTime] in *.
  - exact GT'.
  - exact Gl.
  - exact Glc.
  - exact Gll.
  - intros _. auto.
  - exact Gd.
  - exact Go.
  - intros t1 t2 H1%in_snoc H2%in_snoc Hb1 Hb2.
    destruct H1 as [H1| ->]; [exfalso; exact (NoBomb t1 H1 Hb1)|].
    destruct H2 as [H2| ->]; [exfalso; exact (NoBomb t2 H2 Hb2)|reflexivity].
  - intros t _ _. repeat split; auto.
    intros t' Ht'%in_snoc. destruct Ht' as [Ht'| ->]; [apply NoCd, Ht'|cbn; discriminate].
  - discriminate.
  - intros t Ht%in_snoc Hcb. destruct Ht as [Ht| ->]; [exfalso; exact (NoCd t Ht Hcb)|discriminate].
  - exact Gts.
  - exact Gc.
  - exact Gh.
Qed.

Lemma good_miss id y vy h c :
  GoodC c -> c_ts c <> None -> Qltb (h + 100) y = true -> Qltb 0 vy = true ->
  GoodC (cMiss id y vy h c).
Proof.
  intros G Hts Hy Hv. unfold cMiss.
  destruct (gameStarted (c_game c)) eqn:Hg; [|exact G].
  destruct G as [GT Gl Glc Gll Ge Gd Go Gbu Gbp Gs Gcd Gts Gc Gh].
  destruct (Ge Hts) as [Hl1 Hn0]. destruct (Gs Hg) as [Hlo NoCd].
  assert (NoBomb : forall t, In t (c_timers c) -> t_cb t <> CbBombGameOver).
  { intros t Ht Hb. destruct (Gbp t Ht Hb) as [Hf _]. congruence. }
  assert (Hr : missed_ok (mkLifeRec id y vy h true)).
  { unfold Qltb in Hy, Hv. apply negb_true_iff in Hy, Hv.
    split; [|split; [|reflexivity]]; cbn; apply Qnot_le_lt; intros Hle;
    [apply Qle_bool_iff in Hle; congruence|apply Qle_bool_iff in Hle; congruence]. }
  cbv zeta. cbn [c_game cUpdGame set_c_game set_c_lifelog c_lifelog lives set_lives gameStarted].
  rewrite Hg.
  destruct (lives (c_game c) - 1 <=? 0) eqn:Hle.
  - apply good_gameOver; cbn [c_game cUpdGame set_c_game set_c_lifelog c_lifelog lives set_lives c_timers c_navs c_hitlog c_countdownH c_ts gameStarted loading combo lastSliceTime freezeActive].
    + apply to_lifelog, to_game, GT.
    + lia.
    + rewrite length_app. cbn [List.length c_lifelog set_c_lifelog c_game cUpdGame set_c_game lives set_lives]. lia.
    + apply Forall_app; split; auto.
    + exact Hn0.
    + exact NoBomb.
    + intros _. exact Hlo.
    + intros t Ht Hcb. apply (Gcd t Ht Hcb).
    + exact Gc.
    + exact Gh.
  - apply Z.leb_gt in Hle.
    constructor; cbn [c_game cUpdGame set_c_game set_c_lifelog c_lifelog lives set_lives c_timers c_navs c_hitlog c_countdownH c_ts gameStarted loading combo lastSliceTime freezeActive].
    + apply to_lifelog, to_game, GT.
    + lia.
    + rewrite length_app. cbn [List.length c_lifelog set_c_lifelog c_game cUpdGame set_c_game lives set_lives]. lia.
    + apply Forall_app; split; auto.
    + intros _. split; [lia|exact Hn0].
    + intros E. lia.
    + exact Go.
    + exact Gbu.
    + intros t Ht Hb. exfalso. exact (NoBomb t Ht Hb).
    + intros _. split; auto.
    + exact Gcd.
    + exact Gts.
    + exact Gc.
    + exact Gh.
Qed.

Lemma good_cmove c c' : GoodC c -> cmove c c' -> GoodC c'.
Proof.
  intros G Hm. destruct Hm.
  - apply good_normalHit; auto.
  - apply good_bombExit; auto.
  - apply good_miss; auto.
Qed.

Lemma good_moves c c' : GoodC c -> clos_refl_trans Ctl cmove c c' -> GoodC c'.
Proof.
  intros G H. induction H; auto. eapply good_cmove; eauto.
Qed.

Lemma good_clear h c : GoodC c -> GoodC (cClear h c).
Proof.
  intros [GT Gl Glc Gll Ge Gd Go Gbu Gbp Gs Gcd Gts Gc Gh].
  constructor; cbn [cClear c_timers set_c_timers c_game c_ts c_navs c_lifelog c_hitlog c_countdownH]; auto.
  - apply to_clear, GT.
  - intros t1 t2 H1%in_filter_handle H2%in_filter_handle. apply Gbu; tauto.
  - intros t H1%in_filter_handle Hb. destruct (Gbp t (proj1 H1) Hb) as (A & B & C & D).
    repeat split; auto. intros t' H'%in_filter_handle. apply D, H'.
  - intros Hg. destruct (Gs Hg) as [A B]. split; auto.
    intros t H'%in_filter_handle. apply B, H'.
  - intros t H1%in_filter_handle. apply Gcd, H1.
Qed.

Lemma good_spawnLoop c : GoodC c -> GoodC (cSpawnLoop c).
Proof.
  intros G. assert (GT' : TimersOk (cSpawnLoop c)) by (apply to_spawnLoop, gd_timers, G).
  destruct G as [GT Gl Glc Gll Ge Gd Go Gbu Gbp Gs Gcd Gts Gc Gh].
  unfold cSpawnLoop in *. cbn [cSetTimer snd] in *.
  constructor; cbn [c_timers set_c_timers set_c_next set_c_spawnerH c_game c_ts c_navs c_lifelog c_hitlog c_countdownH] in *; auto.
  - intros t1 t2 H1%in_snoc H2%in_snoc Hb1 Hb2.
    destruct H1 as [H1| ->]; [|discriminate]. destruct H2 as [H2| ->]; [|discriminate]. auto.
  - intros t H1%in_snoc Hb. destruct H1 as [H1| ->]; [|discriminate].
    destruct (Gbp t H1 Hb) as (A & B & C & D). repeat split; auto.
    intros t' H'%in_snoc. destruct H' as [H'| ->]; [auto|discriminate].
  - intros Hg. destruct (Gs Hg) as [A B]. split; auto.
    intros t' H'%in_snoc. destruct H' as [H'| ->]; [auto|discriminate].
  - intros t H1%in_snoc Hb. destruct H1 as [H1| ->]; [auto|discriminate].
Qed.

Lemma good_startSpawning c : GoodC c -> GoodC (cStartSpawning c).
Proof.
  intros G. unfold cStartSpawning. apply good_spawnLoop.
  destruct (c_spawnerH c); [apply good_clear|]; exact G.
Qed.

Lemma good_hand c ready : GoodC c ->
  GoodC (if loading (c_game c) && ready
         then cStartCountdown (cUpdGame (set_loading false) c) else c).
Proof.
  intros G. destruct (loading (c_game c)) eqn:Hlo; [|exact G]. destruct ready; [|exact G].
  cbn [andb].
  assert (GT' : TimersOk (cStartCountdown (cUpdGame (set_loading false) c)))
    by (apply to_startCountdown, to_game, gd_timers, G).
  destruct G as [GT Gl Glc Gll Ge Gd Go Gbu Gbp Gs Gcd Gts Gc Gh].
  assert (NoCd : forall t, In t (c_timers c) -> t_cb t <> CbCountdownTick).
  { intros t Ht Hcb. destruct (Gcd t Ht Hcb) as [A _]. congruence. }
  assert (NoBomb : forall t, In t (c_timers c) -> t_cb t <> CbBombGameOver).
  { intros t Ht Hb. destruct (Gbp t Ht Hb) as (_ & A & _). congruence. }
  assert (Hg : gameStarted (c_game c) = false).
  { destruct (gameStarted (c_game c)) eqn:E; auto. destruct (Gs eq_refl). congruence. }
  unfold cStartCountdown in *. cbn [cSetTimer snd] in *.
  constructor; cbn [c_timers set_c_timers set_c_next set_c_countdownH c_game c_ts c_navs c_lifelog
                    c_hitlog c_countdownH cUpdGame set_c_game] in *;
    cbn [lives set_loading loading gameStarted freezeActive combo lastSliceTime] in *; auto.
  - intros t1 t2 H1%in_snoc H2%in_snoc Hb1 Hb2.
    destruct H1 as [H1| ->]; [exfalso; exact (NoBomb t1 H1 Hb1)|discriminate].
  - intros t H1%in_snoc Hb. destruct H1 as [H1| ->]; [exfalso; exact (NoBomb t H1 Hb)|discriminate].
  - intros E; congruence.
  - intros t H1%in_snoc Hcb. destruct H1 as [H1| ->]; [exfalso; exact (NoCd t H1 Hcb)|].
    split; reflexivity.
Qed.

Lemma good_advance dt c : GoodC c -> 0 <= dt ->
  (forall t, In t (c_timers c) -> c_clock c + dt <= t_due t) ->
  GoodC (set_c_clock (c_clock c + dt) c).
Proof.
  intros [GT Gl Glc Gll Ge Gd Go Gbu Gbp Gs Gcd Gts Gc Gh] H0 Hd.
  constructor; auto. apply to_advance; auto.
Qed.

Lemma good_setgame g c : GoodC c ->
  lives g = lives (c_game c) -> loading g = loading (c_game c) ->
  gameStarted g = gameStarted (c_game c) -> freezeActive g = freezeActive (c_game c) ->
  combo g = combo (c_game c) -> lastSliceTime g = lastSliceTime (c_game c) ->
  GoodC (set_c_game g c).
Proof.
  intros [GT Gl Glc Gll Ge Gd Go Gbu Gbp Gs Gcd Gts Gc Gh] Hl Hlo Hs Hf Hc Ht.
  constructor; cbn [set_c_game c_game c_ts c_navs c_timers c_lifelog c_hitlog c_countdownH];
    rewrite ?Hl, ?Hlo, ?Hs, ?Hf, ?Hc, ?Ht; auto.
  apply to_setgame, GT.
Qed.

Lemma good_freezeEnd c : GoodC c ->
  GoodC (set_c_ts (option_map (fun _ => 1%Q) (c_ts c)) (cUpdGame (set_freezeActive false) c)).
Proof.
  intros [GT Gl Glc Gll Ge Gd Go Gbu Gbp Gs Gcd Gts Gc Gh].
  constructor; cbn [set_c_ts cUpdGame set_c_game c_game c_ts c_navs c_timers c_lifelog c_hitlog
                    c_countdownH]; cbn [set_freezeActive lives loading gameStarted freezeActive combo
                    lastSliceTime]; auto.
  - apply to_ts, to_game, GT.
  - intros H. apply Ge. destruct (c_ts c); cbn in *; congruence.
  - intros q Hq. destruct (c_ts c); cbn in Hq; congruence.
Qed.

Lemma good_start h c : GoodC c -> c_countdownH c = Some h -> loading (c_game c) = false ->
  (forall t, In t (c_timers c) -> t_cb t <> CbBombGameOver) ->
  GoodC (cUpdGame (set_gameStarted true) (set_c_countdownH None (cClear h c))).
Proof.
  intros [GT Gl Glc Gll Ge Gd Go Gbu Gbp Gs Gcd Gts Gc Gh] Hh Hlo NoBomb.
  assert (NoCd : forall t, In t (c_timers (cClear h c)) -> t_cb t <> CbCountdownTick).
  { intros t Ht%in_filter_handle Hcb. destruct (Gcd t (proj1 Ht) Hcb) as [_ E].
    rewrite Hh in E. injection E as E. apply (proj2 Ht). congruence. }
  constructor; cbn [cUpdGame set_c_game set_c_countdownH cClear set_c_timers c_game c_ts c_navs
                    c_timers c_lifelog c_hitlog c_countdownH] in *;
    cbn [set_gameStarted lives loading gameStarted freezeActive combo lastSliceTime]; auto.
  - apply to_game, to_countdown_none, to_clear, GT.
  - intros t1 t2 H1%in_filter_handle _ Hb. exfalso. exact (NoBomb t1 (proj1 H1) Hb).
  - intros t1 H1%in_filter_handle Hb. exfalso. exact (NoBomb t1 (proj1 H1) Hb).
  - intros t1 H1 Hb. exfalso. exact (NoCd t1 H1 Hb).
Qed.

Lemma good_requeue_cd h t c : GoodC c -> In t (c_timers c) -> t_handle t = h ->
  t_cb t = CbCountdownTick ->
  let c' := set_c_timers
    (match t_period t with
     | Some p => filter (fun t => negb (t_handle t =? h)%nat) (c_timers c) ++
                 [mkTimer h (t_due t + p) (t_cb t) (Some p)]
     | None => filter (fun t => negb (t_handle t =? h)%nat) (c_timers c)
     end) c in
  GoodC c' /\ c_countdownH c' = Some h /\ loading (c_game c') = false /\
  (forall t', In t' (c_timers c') -> t_cb t' <> CbBombGameOver).
Proof.
  intros G Ht Hh Hcb c'.
  assert (GT' : TimersOk c') by (apply to_requeue; auto; apply gd_timers, G).
  destruct G as [GT Gl Glc Gll Ge Gd Go Gbu Gbp Gs Gcd Gts Gc Gh].
  destruct (Gcd t Ht Hcb) as [Hlo Hch]. rewrite Hh in Hch.
  assert (Hg : gameStarted (c_game c) = false).
  { destruct (gameStarted (c_game c)) eqn:E; auto. exfalso. exact (proj2 (Gs eq_refl) t Ht Hcb). }
  assert (Sub : forall t', In t' (c_timers c') -> In t' (c_timers c) \/
                (t_cb t' = CbCountdownTick /\ t_handle t' = h)).
  { intros t' H'. unfold c' in H'. cbn [set_c_timers c_timers] in H'.
    destruct (t_period t); [apply in_snoc in H' as [H'| ->]|].
    - left. apply in_filter_handle in H'. apply H'.
    - right. cbn. auto.
    - left. apply in_filter_handle in H'. apply H'. }
  assert (NoBomb : forall t', In t' (c_timers c') -> t_cb t' <> CbBombGameOver).
  { intros t' H' Hb. destruct (Sub t' H') as [Ho|[E _]]; [|congruence].
    destruct (Gbp t' Ho Hb) as (_ & _ & _ & D). exact (D t Ht Hcb). }
  split; [|split; [exact Hch|split; [exact Hlo|exact NoBomb]]].
  constructor; auto; unfold c'; cbn [set_c_timers c_game c_ts c_navs c_timers c_lifelog c_hitlog
                                     c_countdownH] in *.
  - intros t1 t2 H1 _ Hb. exfalso. exact (NoBomb t1 H1 Hb).
  - intros t1 H1 Hb. exfalso. exact (NoBomb t1 H1 Hb).
  - intros E. congruence.
  - intros t1 H1 Hcb1. split; [exact Hlo|].
    destruct (Sub t1 H1) as [Ho|[_ E]]; [apply (Gcd t1 Ho Hcb1)|]. rewrite E. exact Hch.
Qed.

Lemma good_tick h c : GoodC c -> c_countdownH c = Some h -> loading (c_game c) = false ->
  (forall t, In t (c_timers c) -> t_cb t <> CbBombGameOver) ->
  GoodC (cRunCallback CbCountdownTick c).
Proof.
  intros G Hh Hlo NoBomb. cbn [cRunCallback]. cbv zeta.
  destruct (_ <=? 0).
  - apply good_startSpawning. cbn [cUpdGame set_c_game c_countdownH]. rewrite Hh.
    apply good_start; auto.
    apply good_setgame; auto.
  - apply good_setgame; auto.
Qed.

Lemma good_fire h c : GoodC c -> GoodC (cFire h c).
Proof.
  intros G. unfold cFire. destruct (find _ (c_timers c)) as [t|] eqn:Ef; [|exact G].
  apply find_handle in Ef as [Ht Hh]. cbv zeta.
  pose proof (to_period _ (gd_timers _ G) t Ht) as Hp.
  destruct (t_cb t) eqn:Ecb.
  - destruct Hp as [Ep|[E _]]; [|congruence]. rewrite Ep.
    change (GoodC (cSpawnLoop (cClear h c))). apply good_spawnLoop, good_clear, G.
  - destruct (good_requeue_cd h t c G Ht Hh Ecb) as (G' & Hh' & Hlo' & NoBomb').
    rewrite Ecb in G', Hh', Hlo', NoBomb'. exact (good_tick h _ G' Hh' Hlo' NoBomb').
  - destruct Hp as [Ep|[E _]]; [|congruence]. rewrite Ep.
    change (GoodC (cRunCallback CbFreezeEnd (cClear h c))). exact (good_freezeEnd (cClear h c) (good_clear h c G)).
  - destruct Hp as [Ep|[E _]]; [|congruence]. rewrite Ep.
    change (GoodC (cUpdGame (set_frenzyActive false) (cClear h c))).
    apply good_setgame; auto. apply good_clear, G.
  - destruct Hp as [Ep|[E _]]; [|congruence]. rewrite Ep.
    change (GoodC (cGameOver (cClear h c))).
    pose proof (good_clear h c G) as G'.
    destruct G as [GT Gl Glc Gll Ge Gd Go Gbu Gbp Gs Gcd Gts Gc Gh].
    destruct G' as [GT' _ _ _ _ _ _ _ _ _ Gcd' _ _ _].
    destruct (Gbp t Ht Ecb) as (Hg & Hlo & Hn & _).
    apply good_gameOver; auto.
    + intros t' H' Hb. apply in_filter_handle in H' as [H1 H2].
      apply H2. rewrite (Gbu t' t H1 Ht Hb Ecb). exact Hh.
    + intros t' H' Hcb. apply (Gcd' t' H' Hcb).
  - destruct Hp as [Ep|[E _]]; [|congruence]. rewrite Ep.
    change (GoodC (cUpdGame (set_hitStopActive false) (cClear h c))).
    apply good_setgame; auto. apply good_clear, G.
Qed.

Lemma good_cstep c c' : GoodC c -> cstep c c' -> GoodC c'.
Proof.
  intros G Hs. destruct Hs as [c c' H|c ready|c dt H0 Hd|c h _|c].
  - exact (good_moves c c' G H).
  - exact (good_hand c ready G).
  - exact (good_advance dt c G H0 Hd).
  - exact (good_fire h c G).
  - exact (good_goHome c G).
Qed.

Lemma good_mount cam now w h : Good (mount cam now w h).
Proof.
  unfold Good.
  assert (G0 : GoodC (ctl {| game := mkGame 0 3 0 0 0 true 5 false false false false;
              world := mkWorld (Some (mkEngine 1 [])) [];
              hands := mkHands [None; None] [None; None] [None; None] [[]; []];
              fx := mkFx (repeat inert_particle MAX_PARTICLES) 0 (repeat inert_debris MAX_DEBRIS) [] 0;
              sys := mkSys now [] 1 None None 0 1 w h [];
              ghost := mkGhost [] [] [] [] |})).
  { constructor; cbn; try (intros; contradiction); try (intros; discriminate); auto; try lia.
    - constructor; cbn; try (intros; contradiction); try discriminate; constructor.
    - intros q E. injection E as E. symmetry; exact E. }
  destruct cam; [|exact G0].
  unfold mount. cbv zeta. rewrite startCountdown_ctl.
  exact (good_hand _ true G0).
Qed.

Lemma reachable_good M s : reachable M s -> Good s.
Proof.
  induction 1 as [cam now w h|s ev Hr IH Hen].
  - apply good_mount.
  - exact (good_cstep _ _ IH (step_cstep M s ev Hen)).
Qed.

Lemma reachable_run M s evs : reachable M s -> run_ok M s evs = true -> reachable M (run M s evs).
Proof.
  revert s; induction evs as [|ev evs IH]; intros s Hr Hok; cbn in *; [exact Hr|].
  apply andb_true_iff in Hok as [H1 H2]. apply IH; [apply reach_step|]; auto.
Qed.

Lemma hits_from_forall cb tl l cf tf : hits_from cb tl l cf tf -> Forall hit_ok l.
Proof.
  revert cb tl; induction l as [|r l IH]; intros cb tl H; cbn in H; [constructor|].
  destruct H as (_ & _ & H1 & H2). constructor; [exact H1|]. eapply IH; exact H2.
Qed.


Lemma score_cleanup c : c_game (cCleanup c) = c_game c.
Proof. apply (cleanup_fields c). Qed.

Lemma score_gameOver c : c_game (cGameOver c) = c_game c.
Proof. apply (cleanup_fields c). Qed.

Lemma score_goHome c : c_game (cGoHome c) = c_game c.
Proof. apply (cleanup_fields c). Qed.

Lemma game_startSpawning c : c_game (cStartSpawning c) = c_game c.
Proof. unfold cStartSpawning. destruct (c_spawnerH c); reflexivity. Qed.

Lemma score_fire h c : score (c_game (cFire h c)) = score (c_game c) /\
  combo (c_game (cFire h c)) = combo (c_game c) /\
  lastSliceTime (c_game (cFire h c)) = lastSliceTime (c_game c).
Proof.
  unfold cFire. destruct (find _ _) as [t|]; [|auto].
  destruct (t_cb t); cbn [cRunCallback]; cbv zeta;
    rewrite ?score_gameOver, ?game_startSpawning; cbn; auto.
  all: ctl_cases; cbn; auto.
Qed.

Lemma score_cmove c c' : GoodC c -> cmove c c' -> score (c_game c) <= score (c_game c').
Proof.
  intros G Hm. destruct Hm as [ty c _ _|c _ _|id y vy h c _ _ _].
  - destruct (normalHit_fields ty c) as (_&_&_&_&_&_&_&_&_&Hs&_). rewrite Hs.
    pose proof (gd_combo _ G). unfold next_combo. destruct (_ <? 500); lia.
  - cbn. lia.
  - unfold cMiss. destruct (gameStarted (c_game c)); [|lia]. cbn.
    destruct (_ <=? 0); [rewrite score_gameOver|]; cbn; lia.
Qed.

Lemma score_moves c c' : GoodC c -> clos_refl_trans Ctl cmove c c' ->
  score (c_game c) <= score (c_game c').
Proof.
  intros G H. induction H as [x y Hm|x|x y z H1 IH1 H2 IH2].
  - apply score_cmove; auto.
  - lia.
  - pose proof (IH1 G). pose proof (IH2 (good_moves x y G H1)). lia.
Qed.

Lemma score_cstep c c' : GoodC c -> cstep c c' -> score (c_game c) <= score (c_game c').
Proof.
  intros G Hs. destruct Hs as [c c' H|c ready|c dt _ _|c h _|c].
  - apply score_moves; auto.
  - destruct (loading (c_game c) && ready); cbn; [|lia].
    unfold cStartCountdown; cbn. lia.
  - cbn; lia.
  - rewrite (proj1 (score_fire h c)). lia.
  - rewrite score_goHome. lia.
Qed.

Lemma score_run M s evs : reachable M s -> run_ok M s evs = true ->
  score (game s) <= score (game (run M s evs)).
Proof.
  revert s; induction evs as [|ev evs IH]; intros s Hr Hok; cbn in *; [lia|].
  apply andb_true_iff in Hok as [H1 H2].
  pose proof (score_cstep _ _ (reachable_good M s Hr) (step_cstep M s ev H1)) as Hs.
  pose proof (IH (step M s ev) (reach_step M s ev Hr H1) H2). cbn in Hs. lia.
Qed.

Lemma normal_hit_score M sdx sdy fr s :
  score (game (normal_hit M sdx sdy fr s)) = score (game s) + 10 * combo (game (normal_hit M sdx sdy fr s)).
Proof.
  change (score (c_game (ctl (normal_hit M sdx sdy fr s))) =
          score (c_game (ctl s)) + 10 * combo (c_game (ctl (normal_hit M sdx sdy fr s)))).
  rewrite normal_hit_ctl.
  destruct (normalHit_fields (fr_type fr) (ctl s)) as (_&_&_&_&_&_&_&Hc&_&Hs&_).
  rewrite Hs, Hc. reflexivity.
Qed.

Lemma hits_from_shape cb tl l cf tf : hits_from cb tl l cf tf ->
  (l = [] /\ cf = cb /\ tf = tl) \/
  (exists l' r, l = l' ++ [r] /\ cf = hr_combo_after r /\ tf = hr_now r).
Proof.
  revert cb tl; induction l as [|r l IH]; intros cb tl H; cbn in H.
  - left. destruct H; auto.
  - right. destruct H as (_ & _ & _ & H). destruct (IH _ _ H) as [(-> & -> & ->)|(l' & r' & -> & -> & ->)].
    + exists [], r. auto.
    + exists (r :: l'), r'. auto.
Qed.

Lemma hits_from_pos cb tl l cf tf : 0 <= cb -> hits_from cb tl l cf tf ->
  Forall (fun r => 1 <= hr_combo_after r) l.
Proof.
  revert cb tl; induction l as [|r l IH]; intros cb tl Hc H; cbn in H; [constructor|].
  destruct H as (E1 & _ & [Ha _] & H).
  assert (1 <= hr_combo_after r) by (rewrite Ha; destruct (_ <? 500); lia).
  constructor; [exact H0|]. eapply IH; [|exact H]. lia.
Qed.

Lemma grows_refl s : grows s s.
Proof.
  split; [exists []; rewrite app_nil_r; reflexivity|].
  intros e E. exists e, []. rewrite app_nil_r. auto.
Qed.

Lemma grows_trans s1 s2 s3 : grows s1 s2 -> grows s2 s3 -> grows s1 s3.
Proof.
  intros [[x1 F1] W1] [[x2 F2] W2]. split.
  - exists (x1 ++ x2). rewrite F2, F1, app_assoc. reflexivity.
  - intros e E. destruct (W1 e E) as (e1 & y1 & E1 & B1).
    destruct (W2 e1 E1) as (e2 & y2 & E2 & B2).
    exists e2, (y1 ++ y2). rewrite B2, B1, app_assoc. auto.
Qed.

Lemma grows_world s s' : world s' = world s -> grows s s'.
Proof. intros E. unfold grows. rewrite E. apply grows_refl. Qed.

Lemma spawnFruit_aux M s :
  grows s (spawnFruit M s) /\ ghost (spawnFruit M s) = ghost s /\ fx (spawnFruit M s) = fx s.
Proof.
  unfold spawnFruit. destruct (engine (world s)) eqn:E; [|split; [apply grows_refl|auto]].
  destruct (15 <=? _)%nat; [split; [apply grows_refl|auto]|].
  dstate s; cbn in E; subst eng. cbn.
  destruct (Qltb _ (15#100)); cbn; [|destruct (Qltb (95#100) _); cbn];
  (split; [split; [eexists; reflexivity|intros e' [= <-]; do 2 eexists; split; reflexivity]|auto]).
Qed.

Lemma spawnLoop_aux M s :
  grows s (spawnLoop M s) /\ ghost (spawnLoop M s) = ghost s /\ fx (spawnLoop M s) = fx s.
Proof.
  unfold spawnLoop. destruct (spawnFruit_aux M s) as (G & Gh & Fx).
  generalize dependent (spawnFruit M s); intros s1 G Gh Fx.
  split; [|split; auto]. eapply grows_trans; [exact G|]. apply grows_world. reflexivity.
Qed.

Lemma startSpawning_aux M s :
  grows s (startSpawning M s) /\ ghost (startSpawning M s) = ghost s /\ fx (startSpawning M s) = fx s.
Proof.
  unfold startSpawning. destruct (spawnerH (sys s)) as [h|].
  - destruct (spawnLoop_aux M (clearTimer h s)) as (G & Gh & Fx). rewrite Gh, Fx.
    split; [|split; reflexivity]. eapply grows_trans; [|exact G]. apply grows_world; reflexivity.
  - apply spawnLoop_aux.
Qed.

Lemma activateFreeze_aux s :
  grows s (activateFreeze s) /\ tested (ghost (activateFreeze s)) = tested (ghost s) /\
  fx (activateFreeze s) = fx s.
Proof.
  unfold activateFreeze. dstate s. destruct eng as [e|]; cbn.
  - split; auto. split; [exists []; rewrite app_nil_r; reflexivity|].
    intros e' [= <-]. exists (set_timeScale (1#2) e), []. rewrite app_nil_r. auto.
  - split; [apply grows_world; reflexivity|auto].
Qed.

Lemma activateFrenzy_aux M s :
  grows s (activateFrenzy M s) /\ ghost (activateFrenzy M s) = ghost s /\ fx (activateFrenzy M s) = fx s.
Proof.
  unfold activateFrenzy.
  destruct (startSpawning_aux M (upd_game (set_frenzyActive true) s)) as (G & Gh & Fx).
  generalize dependent (startSpawning M (upd_game (set_frenzyActive true) s)); intros s1 G Gh Fx.
  cbn. split; auto.
Qed.

Lemma createDebris_popups M x y ty r vx vy f d : popups (fst (createDebris M x y ty r vx vy f d)) = popups f.
Proof. unfold createDebris. destruct (claim _ _ _ _ _ _) as [[? ?] ?]. reflexivity. Qed.

Lemma createParticles_popups M x y c e f d : popups (fst (createParticles M x y c e f d)) = popups f.
Proof.
  unfold createParticles. destruct (100 <? _); [reflexivity|].
  destruct (claim _ _ _ _ _ _) as [[p1 k1] d1]. destruct e; [reflexivity|].
  destruct (claim _ _ _ _ _ _) as [[? ?] ?]. reflexivity.
Qed.

Lemma fx_draw_popups f s : (forall x d, popups (fst (f x d)) = popups x) ->
  popups (fx (fx_draw f s)) = popups (fx s).
Proof. intros H. unfold fx_draw. specialize (H (fx s) (draws (sys s))). destruct (f _ _); exact H. Qed.

Lemma normal_hit_aux M sdx sdy fr s :
  grows s (normal_hit M sdx sdy fr s) /\
  tested (ghost (normal_hit M sdx sdy fr s)) = tested (ghost s) /\
  List.length (popups (fx (normal_hit M sdx sdy fr s))) = S (List.length (popups (fx s))).
Proof.
  unfold normal_hit.
  set (s1 := match fr_type fr with
             | FreezeBanana => activateFreeze s
             | FrenzyBanana => activateFrenzy M s
             | _ => s end).
  assert (E1 : grows s s1 /\ tested (ghost s1) = tested (ghost s) /\ fx s1 = fx s).
  { subst s1; destruct (fr_type fr); try (split; [apply grows_refl|auto]; fail).
    - apply activateFreeze_aux.
    - destruct (activateFrenzy_aux M s) as (A & B & C). rewrite B. auto. }
  clearbody s1. destruct E1 as (G1 & T1 & F1).
  set (s2 := fx_draw _ s1).
  assert (E2 : world s2 = world s1 /\ ghost s2 = ghost s1 /\ popups (fx s2) = popups (fx s1)).
  { subst s2. rewrite fx_draw_world, fx_draw_ghost. split; auto. split; auto.
    apply fx_draw_popups. intros; apply createDebris_popups. }
  clearbody s2. destruct E2 as (W2 & Gh2 & P2).
  set (s3 := triggerHitStop s2).
  assert (E3 : world s3 = world s2 /\ ghost s3 = ghost s2 /\ fx s3 = fx s2) by (split; auto).
  clearbody s3. destruct E3 as (W3 & Gh3 & F3).
  cbv zeta.
  match goal with |- context [fx_draw ?P ?X] =>
    pose proof (fx_draw_world P X) as W4; pose proof (fx_draw_ghost P X) as Gh4;
    pose proof (fx_draw_popups P X (fun x d => createParticles_popups M _ _ _ _ x d)) as P4;
    generalize dependent (fx_draw P X) end.
  intros s4 W4 Gh4 P4. cbn in W4, Gh4. cbn [upd_fx set_fx fx popups set_popupIdCounter set_popups] in P4.
  split; [|split].
  - eapply grows_trans; [exact G1|]. apply grows_world.
    transitivity (world s4); [reflexivity|]. rewrite W4, W3, W2. reflexivity.
  - transitivity (tested (ghost s4)); [reflexivity|]. rewrite Gh4, Gh3, Gh2, T1. reflexivity.
  - transitivity (List.length (popups (fx s4))); [reflexivity|].
    rewrite P4, length_app. cbn [upd_fx set_fx set_game fx popups set_popups set_popupIdCounter List.length]. rewrite F3, P2, F1. lia.
Qed.

Lemma normal_hit_log M sdx sdy fr s : exists r,
  hitlog (ghost (normal_hit M sdx sdy fr s)) = hitlog (ghost s) ++ [r] /\
  score (game (normal_hit M sdx sdy fr s)) = score (game s) + hr_points r.
Proof.
  pose proof (normal_hit_ctl M sdx sdy fr s) as E.
  destruct (normalHit_fields (fr_type fr) (ctl s)) as (_&_&_&_&_&_&_&_&_&Hs&Hh).
  rewrite <- E in Hs, Hh. eexists. split; [exact Hh|exact Hs].
Qed.

Lemma hand_pass_aux M fuel k cx cy sdx sdy rem s s' rem' hb :
  hand_pass M fuel k cx cy sdx sdy rem s = (s', rem', hb) ->
  grows s s' /\
  (exists l, tested (ghost s') = tested (ghost s) ++ l /\
     (hb = true -> exists l0 id fr, l = l0 ++ [(id, true)] /\
                    In (id, fr) (fruits (world s')) /\ fr_type fr = Bomb)) /\
  (exists hs, hitlog (ghost s') = hitlog (ghost s) ++ hs /\
     score (game s') = score (game s) + fold_right Z.add 0 (map hr_points hs) /\
     List.length (popups (fx s')) = (List.length (popups (fx s)) + List.length hs)%nat).
Proof.
  revert k rem s. induction fuel as [|fuel IH]; intros k rem s Hp; cbn in Hp.
  - injection Hp as <- <- <-. split; [apply grows_refl|]. split.
    + exists []. rewrite app_nil_r. split; [reflexivity|discriminate].
    + exists []. rewrite app_nil_r. cbn. split; [reflexivity|split; lia].
  - destruct (nth_error (fruits (world s)) k) as [[id fr]|] eqn:Hn.
    2:{ injection Hp as <- <- <-. split; [apply grows_refl|]. split.
        + exists []. rewrite app_nil_r. split; [reflexivity|discriminate].
        + exists []. rewrite app_nil_r. cbn. split; [reflexivity|split; lia]. }
    set (s0 := upd_ghost _ s) in Hp.
    assert (W0 : world s0 = world s) by reflexivity.
    assert (T0 : tested (ghost s0) = tested (ghost s) ++ [(id, in_reach cx cy (fr_body fr))]) by reflexivity.
    assert (H0 : hitlog (ghost s0) = hitlog (ghost s)) by reflexivity.
    assert (S0 : game s0 = game s /\ fx s0 = fx s) by (split; reflexivity).
    clearbody s0. destruct S0 as [S0 F0].
    destruct (in_reach cx cy (fr_body fr)) eqn:Hr.
    + destruct (fr_type fr) eqn:Ety;
      [ | | | | | | | ].
      8:{ injection Hp as <- <- <-.
          split; [apply grows_world; rewrite fx_draw_world; exact W0|].
          split.
          - exists [(id, true)]. rewrite fx_draw_ghost. split; [exact T0|].
            intros _. exists [], id, fr. split; [reflexivity|].
            split; [rewrite fx_draw_world, W0; eapply nth_error_In; exact Hn|exact Ety].
          - exists []. rewrite fx_draw_ghost, fx_draw_game, app_nil_r.
            rewrite (fx_draw_popups _ _ (fun x d => createParticles_popups M _ _ _ _ x d)).
            cbn. split; [exact H0|split; [rewrite S0; lia|rewrite F0; lia]]. }
      all: destruct (IH _ _ _ Hp) as (G & (l & Tl & Hb) & (hs & Hh & Hs & Hpop));
           destruct (normal_hit_aux M sdx sdy fr s0) as (G1 & T1 & P1);
           destruct (normal_hit_log M sdx sdy fr s0) as (r & Hr1 & Hs1);
           (split; [eapply grows_trans; [apply grows_world; exact W0|];
                    eapply grows_trans; [exact G1|exact G]|]);
           split;
           [ exists ((id, true) :: l); rewrite Tl, T1, T0, <- app_assoc; split; [reflexivity|];
             intros Hbt; destruct (Hb Hbt) as (l0 & id' & fr' & -> & Hi & Hb');
             exists ((id, true) :: l0), id', fr'; auto
           | exists (r :: hs); rewrite Hh, Hr1, H0, <- app_assoc; split; [reflexivity|];
             rewrite Hs, Hs1, S0, Hpop, P1, F0; cbn; split; lia ].
    + destruct (IH _ _ _ Hp) as (G & (l & Tl & Hb) & (hs & Hh & Hs & Hpop)).
      split; [eapply grows_trans; [apply grows_world; exact W0|exact G]|].
      split.
      * exists ((id, false) :: l). rewrite Tl, T0, <- app_assoc. split; [reflexivity|].
        intros Hbt; destruct (Hb Hbt) as (l0 & id' & fr' & -> & Hi & Hb').
        exists ((id, false) :: l0), id', fr'. auto.
      * exists hs. rewrite Hh, H0, Hs, S0, Hpop, F0. auto.
Qed.

Lemma bomb_exit_same s :
  world (bomb_exit s) = world s /\ ghost (bomb_exit s) = ghost s /\ fx (bomb_exit s) = fx s /\
  score (game (bomb_exit s)) = score (game s) /\ combo (game (bomb_exit s)) = combo (game s).
Proof. repeat split. Qed.

Lemma slice_hand_bomb_pass M i s s1 :
  slice_hand M i s = (s1, true) ->
  exists fuel cx cy sdx sdy s0 rem,
    hand_pass M fuel 0 cx cy sdx sdy [] s = (s0, rem, true) /\ s1 = bomb_exit s0.
Proof.
  unfold slice_hand.
  destruct (nth i (handPos (hands s)) None) as [p|]; [|discriminate].
  destruct (nth i (lastHandPos (hands s)) None) as [q|]; [|discriminate].
  cbv zeta. destruct (Qltb _ 25); [discriminate|].
  match goal with |- context [hand_pass M ?f 0 ?a ?b ?c ?d [] s] =>
    destruct (hand_pass M f 0 a b c d [] s) as [[s0 rem] hb] eqn:Hp end.
  destruct hb; [|discriminate].
  intros E. injection E as <-. do 7 eexists. split; [exact Hp|reflexivity].
Qed.

Lemma hits_from_app cb tl l1 cm tm l2 cf tf :
  hits_from cb tl l1 cm tm -> hits_from cm tm l2 cf tf -> hits_from cb tl (l1 ++ l2) cf tf.
Proof.
  revert cb tl; induction l1 as [|r l1 IH]; intros cb tl H1 H2; cbn in *.
  - destruct H1 as [-> ->]. exact H2.
  - destruct H1 as (E1 & E2 & Ok & H1). split; [exact E1|split; [exact E2|split; [exact Ok|]]].
    exact (IH _ _ H1 H2).
Qed.

Lemma normal_hit_chain M sdx sdy fr s : exists r,
  hitlog (ghost (normal_hit M sdx sdy fr s)) = hitlog (ghost s) ++ [r] /\
  hits_from (combo (game s)) (lastSliceTime (game s)) [r]
    (combo (game (normal_hit M sdx sdy fr s))) (lastSliceTime (game (normal_hit M sdx sdy fr s))).
Proof.
  pose proof (normal_hit_ctl M sdx sdy fr s) as E.
  destruct (normalHit_fields (fr_type fr) (ctl s)) as (_&_&_&_&_&_&_&Ec&El&_&Hh).
  rewrite <- E in Ec, El, Hh. eexists. split; [exact Hh|].
  cbn [hits_from]. split; [reflexivity|split; [reflexivity|split; [apply next_combo_hit|]]].
  split; [exact (eq_sym Ec)|exact (eq_sym El)].
Qed.

Lemma hand_pass_chain M fuel k cx cy sdx sdy rem s s' rem' hb :
  hand_pass M fuel k cx cy sdx sdy rem s = (s', rem', hb) ->
  exists hs, hitlog (ghost s') = hitlog (ghost s) ++ hs /\
    hits_from (combo (game s)) (lastSliceTime (game s)) hs (combo (game s')) (lastSliceTime (game s')).
Proof.
  revert k rem s. induction fuel as [|fuel IH]; intros k rem s Hp; cbn in Hp.
  - injection Hp as <- <- <-. exists []. rewrite app_nil_r. cbn [hits_from]. auto.
  - destruct (nth_error (fruits (world s)) k) as [[id fr]|] eqn:Hn.
    2:{ injection Hp as <- <- <-. exists []. rewrite app_nil_r. cbn [hits_from]. auto. }
    set (s0 := upd_ghost _ s) in Hp.
    assert (H0 : hitlog (ghost s0) = hitlog (ghost s)) by reflexivity.
    assert (S0 : game s0 = game s) by reflexivity.
    clearbody s0.
    destruct (in_reach cx cy (fr_body fr)) eqn:Hr.
    + destruct (fr_type fr) eqn:Ety;
      [ | | | | | | | ].
      8:{ injection Hp as <- <- <-. exists []. rewrite fx_draw_ghost, fx_draw_game, app_nil_r, S0.
          cbn [hits_from]. auto. }
      all: destruct (IH _ _ _ Hp) as (hs & Hh & Hc);
           destruct (normal_hit_chain M sdx sdy fr s0) as (r & Hr1 & Hc1);
           exists (r :: hs); rewrite Hh, Hr1, H0, <- app_assoc; split; [reflexivity|];
           rewrite <- S0; exact (hits_from_app _ _ [r] _ _ hs _ _ Hc1 Hc).
    + destruct (IH _ _ _ Hp) as (hs & Hh & Hc). exists hs. rewrite Hh, H0, <- S0. auto.
Qed.


Lemma slice_hand_tested M i s s1 b :
  slice_hand M i s = (s1, b) -> exists l, tested (ghost s1) = tested (ghost s) ++ l.
Proof.
  assert (R : forall l s, ghost (fold_left (fun s id => remove_body id s) l s) = ghost s).
  { induction l as [|id l IH]; intros s0; cbn; [reflexivity|]. rewrite IH.
    unfold remove_body. destruct (find _ _); [|reflexivity]. destruct (engine _); reflexivity. }
  unfold slice_hand.
  destruct (nth i (handPos (hands s)) None) as [p|];
    [|intros E; injection E as <- _; exists []; rewrite app_nil_r; reflexivity].
  destruct (nth i (lastHandPos (hands s)) None) as [q|];
    [|intros E; injection E as <- _; exists []; rewrite app_nil_r; reflexivity].
  cbv zeta. destruct (Qltb _ 25);
    [intros E; injection E as <- _; exists []; rewrite app_nil_r; reflexivity|].
  match goal with |- context [hand_pass M ?f 0 ?a ?b ?c ?d [] s] =>
    destruct (hand_pass M f 0 a b c d [] s) as [[s0 rem] hb] eqn:Hp end.
  destruct (hand_pass_aux M _ _ _ _ _ _ _ _ _ _ _ Hp) as (_ & (l & Tl & _) & _).
  intros E. exists l. destruct hb; injection E as <- _; [exact Tl|]. rewrite R. exact Tl.
Qed.

Lemma slice_hand_bomb M i s s1 :
  slice_hand M i s = (s1, true) -> c_ts (ctl s) <> None -> gameStarted (game s) = true ->
  exists s0 l id fr, s1 = bomb_exit s0 /\ clos_refl_trans Ctl cmove (ctl s) (ctl s0) /\
    tested (ghost s0) = tested (ghost s) ++ l ++ [(id, true)] /\ fr_type fr = Bomb /\
    In (id, fr) (fruits (world s0)).
Proof.
  intros Hs Hts Hg.
  destruct (slice_hand_bomb_pass M i s s1 Hs) as (fuel & cx & cy & sdx & sdy & s0 & rem & Hp & ->).
  destruct (hand_pass_aux M _ _ _ _ _ _ _ _ _ _ _ Hp) as (_ & (l & Tl & Hb) & _).
  destruct (Hb eq_refl) as (l0 & id & fr & -> & Hin & Hty).
  destruct (hand_pass_moves M _ _ _ _ _ _ _ _ _ _ _ Hp Hts Hg) as (Hm & _).
  exists s0, l0, id, fr. auto.
Qed.

Lemma check_slicing_bomb M s s1 :
  check_slicing M s = (s1, true) -> gameStarted (game s) = true ->
  exists s0 l id fr, s1 = bomb_exit s0 /\ clos_refl_trans Ctl cmove (ctl s) (ctl s0) /\
    tested (ghost s0) = tested (ghost s) ++ l ++ [(id, true)] /\ fr_type fr = Bomb /\
    In (id, fr) (fruits (world s0)).
Proof.
  intros Hc Hg. unfold check_slicing in Hc.
  destruct (engine (world s)) as [e|] eqn:He; [|discriminate].
  assert (Hts : c_ts (ctl s) <> None) by (cbn; rewrite He; discriminate).
  destruct (slice_hand M 0 s) as [s2 stop] eqn:H0.
  destruct stop.
  - injection Hc as <-. exact (slice_hand_bomb M 0 s s2 H0 Hts Hg).
  - destruct (slice_hand_moves M 0 s s2 false H0 Hts Hg) as [Hm2 Hf].
    destruct (Hf eq_refl) as [Hts2 Hg2].
    destruct (slice_hand_tested M 0 s s2 false H0) as [l2 T2].
    destruct (slice_hand_bomb M 1 s2 s1 Hc Hts2 Hg2) as (s0 & l & id & fr & E & Hm & T & Hty & Hin).
    exists s0, (l2 ++ l), id, fr. split; [exact E|]. split; [eapply rt_trans; eauto|].
    split; [rewrite T, T2, <- !app_assoc; reflexivity|]. auto.
Qed.

Lemma cmove_clock c c' : cmove c c' -> c_clock c' = c_clock c.
Proof.
  intros H. destruct H as [ty c _ _|c _ _|id y vy h c _ _ _].
  - apply (normalHit_fields ty c).
  - reflexivity.
  - unfold cMiss. destruct (gameStarted (c_game c)); [|reflexivity].
    destruct (_ <=? 0); [|reflexivity]. unfold cGameOver. cbn [c_clock set_c_navs].
    match goal with |- c_clock (cCleanup ?x) = _ => destruct (cleanup_fields x) as (_&_&_&Hc&_); rewrite Hc; reflexivity end.
Qed.

Lemma moves_clock c c' : clos_refl_trans Ctl cmove c c' -> c_clock c' = c_clock c.
Proof.
  induction 1 as [x y Hm|x|x y z _ IH1 _ IH2]; [apply cmove_clock, Hm|reflexivity|congruence].
Qed.

Lemma moves_stopped c c' : clos_refl_trans Ctl cmove c c' -> gameStarted (c_game c) = false -> c' = c.
Proof.
  intros H. apply clos_rt_rt1n in H. induction H as [x|x y z Hm _ IH]; intros Hg; [reflexivity|].
  destruct Hm as [ty c _ Hs|c _ Hs|id y0 vy h c _ _ _]; try congruence.
  unfold cMiss in IH. rewrite Hg in IH. auto.
Qed.

Lemma cleanup_tested s : tested (ghost (cleanup s)) = tested (ghost s).
Proof.
  unfold cleanup. destruct (engine (world s)); cbn;
  repeat match goal with |- context [match ?x with Some _ => _ | None => _ end] => destruct x end;
  reflexivity.
Qed.

Lemma render_fruits_tested l s : tested (ghost (fst (render_fruits l s))) = tested (ghost s).
Proof.
  revert s; induction l as [|[id fr] l IH]; intros s; cbn; [reflexivity|].
  destruct (_ && _); [|apply IH].
  destruct (engine (world s)); [|reflexivity].
  rewrite IH. cbn. destruct (gameStarted (game s)); [|reflexivity].
  cbn. destruct (_ <=? 0); [|reflexivity]. unfold gameOver. cbn. rewrite cleanup_tested. reflexivity.
Qed.

Lemma renderGame_tested s : tested (ghost (renderGame s)) = tested (ghost s).
Proof.
  unfold renderGame. cbv zeta.
  match goal with |- context [render_fruits ?l ?s1] =>
    pose proof (render_fruits_tested l s1) as T; destruct (render_fruits l s1) as [s2 cr] end.
  cbn in T. destruct cr; exact T.
Qed.

Lemma pre_slice_engine M sb s : engine (world s) = None -> engine (world (pre_slice M sb s)) = None.
Proof.
  intros He. pose proof (f_equal c_ts (pre_slice_ctl M sb s)) as E. cbn in E. rewrite He in E.
  destruct (engine (world (pre_slice M sb s))); [discriminate|reflexivity].
Qed.

(** After a bomb hit: the score and the combo are frozen, the game is not
    started and cannot restart, and the game-over timer is pending or has fired. *)

Lemma cleanup_keeps c t : TimersOk c -> In t (c_timers c) -> t_cb t <> CbSpawnLoop ->
  t_cb t <> CbCountdownTick -> In t (c_timers (cCleanup c)).
Proof.
  intros [_ _ Hs Hc _ _] Ht H1 H2.
  destruct c as [g ts nv tm nx sp cd clk hl fl ll]; cbn in *.
  destruct sp as [hs|], cd as [hc|]; cbn; rewrite ?in_filter_handle; repeat split; auto.
  all: intros E; first [apply H1; exact (proj2 (Hs _ eq_refl) t Ht E)
                       | apply H2; exact (proj2 (Hc _ eq_refl) t Ht E)].
Qed.

Lemma nodup_same_handle l t1 t2 : NoDup (map t_handle l) -> In t1 l -> In t2 l ->
  t_handle t1 = t_handle t2 -> t1 = t2.
Proof.
  induction l as [|a l IH]; intros Hn H1 H2 He; [destruct H1|].
  inversion Hn as [|x y Hx Hn']; subst.
  destruct H1 as [<-|H1], H2 as [<-|H2]; auto.
  - exfalso. apply Hx. rewrite He. apply in_map, H2.
  - exfalso. apply Hx. rewrite <- He. apply in_map, H1.
Qed.

Lemma after_bomb_cstep sc cb hb due c c' :
  GoodC c -> after_bomb sc cb hb due c -> cstep c c' -> after_bomb sc cb hb due c'.
Proof.
  intros G A Hs. destruct A as (Hsc & Hcb & Hst & Hlo & Hnc & Hor).
  destruct Hs as [c c' Hm|c ready|c dt _ _|c h _|c].
  - rewrite (moves_stopped _ _ Hm Hst). repeat split; auto.
  - rewrite Hlo. cbn [andb]. repeat split; auto.
  - repeat split; auto.
  - unfold cFire. destruct (find _ (c_timers c)) as [t|] eqn:Ef; [|repeat split; auto].
    apply find_handle in Ef as [Ht Hh].
    destruct (to_period _ (gd_timers _ G) t Ht) as [Ep|[Ec _]]; [|exfalso; exact (Hnc t Ht Ec)].
    rewrite Ep.
    set (rest := filter (fun t0 => negb (t_handle t0 =? h)%nat) (c_timers c)).
    assert (Hsub : forall x, In x rest -> In x (c_timers c)) by (intros x Hx; apply in_filter_handle in Hx; tauto).
    assert (Hkeep : t_cb t <> CbBombGameOver -> In (mkTimer hb due CbBombGameOver None) (c_timers c) ->
                    In (mkTimer hb due CbBombGameOver None) rest).
    { intros Hnb Hb. apply in_filter_handle. split; [exact Hb|]. cbn. intros E. apply Hnb.
      assert (t = mkTimer hb due CbBombGameOver None) as ->; [|reflexivity].
      apply (nodup_same_handle (c_timers c)); auto; [apply (to_nodup _ (gd_timers _ G))|cbn; congruence]. }
    destruct (t_cb t) eqn:Ecb; cbn [cRunCallback].
    + unfold after_bomb; cbn. repeat split; auto.
      * intros x Hx%in_snoc. destruct Hx as [Hx| ->]; [auto|discriminate].
      * destruct Hor as [Hb|Hn]; [left; apply in_snoc; left; apply Hkeep; [discriminate|exact Hb]|right; exact Hn].
    + exfalso. exact (Hnc t Ht Ecb).
    + unfold after_bomb; cbn. repeat split; auto.
      destruct Hor as [Hb|Hn]; [left; apply Hkeep; [discriminate|exact Hb]|right; exact Hn].
    + unfold after_bomb; cbn. repeat split; auto.
      destruct Hor as [Hb|Hn]; [left; apply Hkeep; [discriminate|exact Hb]|right; exact Hn].
    + set (c1 := set_c_timers rest c).
      destruct (cleanup_fields c1) as (Hg & _ & Hv & _ & _ & _ & _ & _ & Hin).
      assert (Tg : c_timers (cGameOver c1) = c_timers (cCleanup c1)) by reflexivity.
      assert (Ng : c_navs (cGameOver c1) = c_navs c1 ++ [RGameOver (score (c_game c1))])
        by (unfold cGameOver; cbn [c_navs set_c_navs]; rewrite Hv, Hg; reflexivity).
      unfold after_bomb. rewrite Tg, Ng, score_gameOver.
      repeat split; auto.
      * intros x Hx. destruct (Hin x Hx) as [Hx' _]. apply Hnc, Hsub, Hx'.
      * right. apply in_snoc. right. cbn. rewrite Hsc. reflexivity.
    + unfold after_bomb; cbn. repeat split; auto.
      destruct Hor as [Hb|Hn]; [left; apply Hkeep; [discriminate|exact Hb]|right; exact Hn].
  - destruct (cleanup_fields c) as (Hg & _ & _ & _ & _ & _ & _ & _ & Hin).
    assert (Tg : c_timers (cGoHome c) = c_timers (cCleanup c)) by reflexivity.
    assert (Ng : c_navs (cGoHome c) = c_navs (cCleanup c) ++ [RHome]) by reflexivity.
    unfold after_bomb. rewrite Tg, Ng, score_goHome.
    repeat split; auto.
    + intros x Hx. destruct (Hin x Hx) as [Hx' _]. apply Hnc, Hx'.
    + destruct Hor as [Hb|Hn].
      * left. apply cleanup_keeps; [apply (gd_timers _ G)|exact Hb|discriminate|discriminate].
      * right. apply in_snoc. left. destruct (cleanup_fields c) as (_ & _ & Hv & _). rewrite Hv. exact Hn.
Qed.

Lemma after_bomb_run M s evs sc cb hb due :
  reachable M s -> run_ok M s evs = true -> after_bomb sc cb hb due (ctl s) ->
  after_bomb sc cb hb due (ctl (run M s evs)).
Proof.
  revert s; induction evs as [|ev evs IH]; intros s Hr Hok A; cbn in *; [exact A|].
  apply andb_true_iff in Hok as [Hen Hok].
  apply IH; [apply reach_step; auto|exact Hok|].
  apply (after_bomb_cstep _ _ _ _ (ctl s)); [apply (reachable_good M s Hr)|exact A|].
  apply step_cstep, Hen.
Qed.



(** The spawn delay of [spawnLoop] in closed form. *)
Lemma spawn_delay_closed g :
  spawn_delay g =
  (if frenzyActive g then 300 else Z.max 600 (2000 - score g / 50 * 100)) *
  (if freezeActive g then 2 else 1).
Proof. unfold spawn_delay. destruct (frenzyActive g), (freezeActive g); lia. Qed.

Lemma spawnLoop_timer M s :
  c_timers (ctl (spawnLoop M s)) =
    timers (sys s) ++ [mkTimer (nextHandle (sys s)) (clock (sys s) + spawn_delay (game s)) CbSpawnLoop None] /\
  spawnerH (sys (spawnLoop M s)) = Some (nextHandle (sys s)).
Proof.
  pose proof (f_equal c_timers (spawnLoop_ctl M s)) as E.
  pose proof (f_equal c_spawnerH (spawnLoop_ctl M s)) as E2.
  split; [exact E|exact E2].
Qed.

(** The gain of the hand smoothing, [0.2 + min(d * 8, 0.6)], is the clamp of [0.2 + d * 8] to [0.2, 0.8]. *)
Lemma gain_clamp (d : Q) : (0 <= d)%Q ->
  ((2#10) + Qmin (d * 8) (6#10) == Qmax (2#10) (Qmin ((2#10) + d * 8) (8#10)))%Q.
Proof.
  intros Hd.
  destruct (Q.min_spec (d * 8) (6#10)) as [[H1 E1]|[H1 E1]];
  destruct (Q.min_spec ((2#10) + d * 8) (8#10)) as [[H2 E2]|[H2 E2]];
  rewrite E1; rewrite E2;
  [ destruct (Q.max_spec (2#10) ((2#10) + d * 8)) as [[H3 E3]|[H3 E3]]
  | destruct (Q.max_spec (2#10) (8#10)) as [[H3 E3]|[H3 E3]]
  | destruct (Q.max_spec (2#10) ((2#10) + d * 8)) as [[H3 E3]|[H3 E3]]
  | destruct (Q.max_spec (2#10) (8#10)) as [[H3 E3]|[H3 E3]] ];
  rewrite E3; lra.
Qed.

Lemma nth_replace_nth {A} i (x d : A) l : (i < List.length l)%nat -> nth i (replace_nth i x l) d = x.
Proof.
  revert i; induction l as [|a l IH]; intros i Hi; cbn in Hi; [lia|].
  destruct i; cbn; [reflexivity|]. apply IH. lia.
Qed.




Lemma claim_keeps {A} (ia : A -> bool) init sp need pool d pool' k d' :
  claim ia init sp need pool d = (pool', k, d') ->
  List.length pool' = List.length pool /\
  (forall j a, nth_error pool j = Some a -> ia a = true -> nth_error pool' j = Some a).
Proof.
  revert sp d pool' k d'; induction pool as [|a0 rest IH]; intros sp d pool' k d' H; cbn in H.
  - injection H as <- _ _. split; [reflexivity|]. intros j a Hj. destruct j; discriminate.
  - destruct (need <=? sp)%nat.
    + injection H as <- _ _. auto.
    + destruct (ia a0) eqn:Ea.
      * destruct (claim ia init sp need rest d) as [[r' k1] d1] eqn:Hc.
        injection H as <- _ _. destruct (IH _ _ _ _ _ Hc) as [Hl Hk].
        split; [cbn; rewrite Hl; reflexivity|].
        intros [|j] a Hj Ha; cbn in Hj |- *; [exact Hj|]. apply Hk; auto.
      * destruct (init sp d) as [a' d1].
        destruct (claim ia init (S sp) need rest d1) as [[r' k1] d2] eqn:Hc.
        injection H as <- _ _. destruct (IH _ _ _ _ _ Hc) as [Hl Hk].
        split; [cbn; rewrite Hl; reflexivity|].
        intros [|j] a Hj Ha; cbn in Hj |- *; [injection Hj as ->; congruence|]. apply Hk; auto.
Qed.

Lemma claim_first_free {A} (ia : A -> bool) init sp need pool d pool' k d' j a :
  claim ia init sp need pool d = (pool', k, d') ->
  nth_error pool j = Some a -> ia a = false ->
  (forall j' b, (j' < j)%nat -> nth_error pool j' = Some b -> ia b = true) ->
  (sp < need)%nat ->
  nth_error pool' j = Some (fst (init sp d)).
Proof.
  revert j sp d pool' k d'; induction pool as [|a0 rest IH]; intros j sp d pool' k d' H Hj Ha Hb Hs;
    [destruct j; discriminate|].
  cbn in H. destruct (need <=? sp)%nat eqn:En; [apply Nat.leb_le in En; lia|].
  destruct (ia a0) eqn:Ea.
  - destruct (claim ia init sp need rest d) as [[r' k1] d1] eqn:Hc.
    injection H as <- _ _. destruct j as [|j]; cbn in Hj; [injection Hj as ->; congruence|].
    cbn. apply (IH j sp d r' k1 d1 Hc Hj Ha); [|exact Hs].
    intros j' b Hj' Hb'. apply (Hb (S j')); [lia|exact Hb'].
  - destruct j as [|j].
    + cbn in Hj. injection Hj as <-. destruct (init sp d) as [a' d1].
      destruct (claim ia init (S sp) need rest d1) as [[r' k1] d2].
      injection H as <- _ _. reflexivity.
    + exfalso. assert (ia a0 = true) by (apply (Hb O); [lia|reflexivity]). congruence.
Qed.

Lemma render_particles_length h pool cnt :
  List.length (fst (render_particles h pool cnt)) = List.length pool.
Proof.
  revert cnt; induction pool as [|p rest IH]; intros cnt; cbn; [reflexivity|].
  destruct (p_active p); [destruct (step_particle h p) as [p' off]|];
  match goal with |- context [render_particles h rest ?c0] =>
    specialize (IH c0); destruct (render_particles h rest c0) as [r c] end;
  cbn in *; congruence.
Qed.

Lemma createParticles_keeps M x y c e f d :
  let f' := fst (createParticles M x y c e f d) in
  List.length (particlePool f') = List.length (particlePool f) /\ debrisPool f' = debrisPool f /\
  (forall j a, nth_error (particlePool f) j = Some a -> p_active a = true ->
     nth_error (particlePool f') j = Some a).
Proof.
  unfold createParticles. destruct (100 <? activeParticleCount f); [cbn; auto|].
  cbv zeta.
  match goal with |- context [claim p_active ?i 0 ?n (particlePool f) d] =>
    destruct (claim p_active i 0 n (particlePool f) d) as [[p1 k1] d1] eqn:C1 end.
  destruct (claim_keeps _ _ _ _ _ _ _ _ _ C1) as [L1 K1].
  destruct e; [cbn; auto|].
  match goal with |- context [claim p_active ?i 0 8 p1 d1] =>
    destruct (claim p_active i 0 8 p1 d1) as [[p2 k2] d2] eqn:C2 end.
  destruct (claim_keeps _ _ _ _ _ _ _ _ _ C2) as [L2 K2].
  cbn. split; [congruence|split; [reflexivity|]]. auto.
Qed.

Lemma createDebris_keeps M x y ty r vx vy f d :
  let f' := fst (createDebris M x y ty r vx vy f d) in
  List.length (debrisPool f') = List.length (debrisPool f) /\ particlePool f' = particlePool f /\
  (forall j a, nth_error (debrisPool f) j = Some a -> d_active a = true ->
     nth_error (debrisPool f') j = Some a).
Proof.
  unfold createDebris.
  match goal with |- context [claim d_active ?i 0 2 (debrisPool f) d] =>
    destruct (claim d_active i 0 2 (debrisPool f) d) as [[p1 k1] d1] eqn:C1 end.
  destruct (claim_keeps _ _ _ _ _ _ _ _ _ C1) as [L1 K1].
  cbn. auto.
Qed.

Lemma apply_op_length M fd op :
  List.length (particlePool (fst (apply_op M fd op))) = List.length (particlePool (fst fd)) /\
  List.length (debrisPool (fst (apply_op M fd op))) = List.length (debrisPool (fst fd)).
Proof.
  destruct fd as [f d]. destruct op as [x y c e|x y ty r vx vy|h]; cbn [apply_op fst].
  - destruct (createParticles_keeps M x y c e f d) as (L & D & _). rewrite D. auto.
  - destruct (createDebris_keeps M x y ty r vx vy f d) as (L & D & _). rewrite D. auto.
  - unfold renderDebris, renderParticles. cbn. rewrite length_map.
    destruct (0 <? activeParticleCount f); [|auto].
    pose proof (render_particles_length h (particlePool f) (activeParticleCount f)) as R.
    destruct (render_particles _ _ _) as [pool cnt]. cbn in *. auto.
Qed.

Lemma apply_ops_length M ops fd :
  List.length (particlePool (fst (apply_ops M ops fd))) = List.length (particlePool (fst fd)) /\
  List.length (debrisPool (fst (apply_ops M ops fd))) = List.length (debrisPool (fst fd)).
Proof.
  unfold apply_ops. revert fd; induction ops as [|op ops IH]; intros fd; cbn; [auto|].
  destruct (IH (apply_op M fd op)) as [A B]. destruct (apply_op_length M fd op) as [C D].
  split; congruence.
Qed.

Lemma burst_active M x y c e sm k d : p_active (fst (burst_particle M x y c e sm k d)) = true.
Proof. unfold burst_particle. destruct e; reflexivity. Qed.

Lemma debris_piece_active M x y ty r vx vy k d : d_active (fst (debris_piece M x y ty r vx vy k d)) = true.
Proof. reflexivity. Qed.



(** Steps that leave the freeze state alone: same log and flag, clock not
    going back, same [FreezeEnd] timers. *)

Lemma fz_refl c : fz_same c c.
Proof. repeat split; auto; lia. Qed.

Lemma fz_trans c1 c2 c3 : fz_same c1 c2 -> fz_same c2 c3 -> fz_same c1 c3.
Proof.
  intros (A1 & B1 & C1 & D1 & E1) (A2 & B2 & C2 & D2 & E2).
  repeat split; [congruence|congruence|lia|auto|auto].
Qed.

Lemma fz_setTimer cb d p c : cb <> CbFreezeEnd -> fz_same c (snd (cSetTimer cb d p c)).
Proof.
  intros Hcb. repeat split; cbn; auto; try lia.
  - intros x Hx%in_snoc Hx'. destruct Hx as [Hx| ->]; [exact Hx|cbn in Hx'; congruence].
  - intros x Hx _. apply in_snoc. auto.
Qed.

Lemma fz_clear h c : (forall x, In x (c_timers c) -> t_handle x = h -> t_cb x <> CbFreezeEnd) ->
  fz_same c (cClear h c).
Proof.
  intros H. repeat split; cbn; auto; try lia.
  - intros x Hx _. apply in_filter_handle in Hx. tauto.
  - intros x Hx Hx'. apply in_filter_handle. split; [exact Hx|]. intros E. exact (H x Hx E Hx').
Qed.

Lemma fz_setgame g c : freezeActive g = freezeActive (c_game c) -> fz_same c (set_c_game g c).
Proof. intros H. repeat split; cbn; auto; lia. Qed.

Lemma fz_game f c : freezeActive (f (c_game c)) = freezeActive (c_game c) -> fz_same c (cUpdGame f c).
Proof. apply fz_setgame. Qed.

Lemma fz_ts x c : fz_same c (set_c_ts x c).
Proof. repeat split; cbn; auto; lia. Qed.
Lemma fz_navs x c : fz_same c (set_c_navs x c).
Proof. repeat split; cbn; auto; lia. Qed.
Lemma fz_hitlog x c : fz_same c (set_c_hitlog x c).
Proof. repeat split; cbn; auto; lia. Qed.
Lemma fz_lifelog x c : fz_same c (set_c_lifelog x c).
Proof. repeat split; cbn; auto; lia. Qed.
Lemma fz_spawnerH x c : fz_same c (set_c_spawnerH x c).
Proof. repeat split; cbn; auto; lia. Qed.
Lemma fz_countdownH x c : fz_same c (set_c_countdownH x c).
Proof. repeat split; cbn; auto; lia. Qed.

Lemma fz_cleanup c : TimersOk c -> fz_same c (cCleanup c).
Proof.
  intros HT. destruct (cleanup_fields c) as (Hg & _ & _ & Hk & _ & _ & Hf & _ & Hin).
  repeat split.
  - exact Hf.
  - rewrite Hg. reflexivity.
  - rewrite Hk. lia.
  - intros x Hx _. apply (Hin x Hx).
  - intros x Hx Hx'. apply cleanup_keeps; auto; congruence.
Qed.

Lemma fz_gameOver c : TimersOk c -> fz_same c (cGameOver c).
Proof. intros HT. eapply fz_trans; [apply fz_cleanup, HT|apply fz_navs]. Qed.

Lemma fz_goHome c : TimersOk c -> fz_same c (cGoHome c).
Proof. intros HT. eapply fz_trans; [apply fz_cleanup, HT|apply fz_navs]. Qed.

Lemma fz_spawnLoop c : fz_same c (cSpawnLoop c).
Proof.
  unfold cSpawnLoop. eapply fz_trans; [apply (fz_setTimer CbSpawnLoop); discriminate|apply fz_spawnerH].
Qed.

Lemma fz_startSpawning c : TimersOk c -> fz_same c (cStartSpawning c).
Proof.
  intros HT. unfold cStartSpawning. destruct (c_spawnerH c) as [h|] eqn:Hs; [|apply fz_spawnLoop].
  eapply fz_trans; [|apply fz_spawnLoop]. apply fz_clear.
  intros x Hx Hh. rewrite (proj2 (to_spawnerH _ HT h Hs) x Hx Hh). discriminate.
Qed.

Lemma fz_startCountdown c : fz_same c (cStartCountdown c).
Proof.
  unfold cStartCountdown.
  eapply fz_trans; [apply (fz_setTimer CbCountdownTick); discriminate|apply fz_countdownH].
Qed.

Lemma fz_activateFrenzy c : TimersOk c -> fz_same c (cActivateFrenzy c).
Proof.
  intros HT. unfold cActivateFrenzy.
  eapply fz_trans; [apply (fz_game (set_frenzyActive true)); reflexivity|].
  eapply fz_trans; [apply fz_startSpawning, to_game, HT|].
  apply fz_setTimer. discriminate.
Qed.

Lemma fz_triggerHitStop c : fz_same c (cTriggerHitStop c).
Proof.
  unfold cTriggerHitStop. eapply fz_trans; [apply (fz_game (set_hitStopActive true)); reflexivity|].
  apply fz_setTimer. discriminate.
Qed.


Lemma normalHit_tail ty c :
  cNormalHit ty c = hit_tail (match ty with
                              | FreezeBanana => cActivateFreeze c
                              | FrenzyBanana => cActivateFrenzy c
                              | _ => c
                              end).
Proof. destruct ty; reflexivity. Qed.

Lemma fz_hit_tail c : fz_same c (hit_tail c).
Proof.
  unfold hit_tail. eapply fz_trans; [apply fz_triggerHitStop|].
  generalize (cTriggerHitStop c) as c1. intros c1. cbv zeta.
  eapply fz_trans; [|apply fz_hitlog]. apply fz_setgame. reflexivity.
Qed.

Lemma fz_normalHit ty c : ty <> FreezeBanana -> TimersOk c -> fz_same c (cNormalHit ty c).
Proof.
  intros Hty HT. rewrite normalHit_tail.
  destruct ty; try (apply fz_hit_tail); [congruence|].
  eapply fz_trans; [apply fz_activateFrenzy, HT|apply fz_hit_tail].
Qed.

Lemma fz_bombExit c : fz_same c (cBombExit c).
Proof.
  unfold cBombExit. eapply fz_trans; [apply (fz_game (set_gameStarted false)); reflexivity|]. apply fz_setTimer. discriminate.
Qed.

Lemma fz_miss id y vy h c : TimersOk c -> fz_same c (cMiss id y vy h c).
Proof.
  intros HT. unfold cMiss. destruct (gameStarted (c_game c)); [|apply fz_refl].
  cbv zeta.
  assert (F1 : fz_same c (set_c_lifelog (c_lifelog (cUpdGame (fun g => set_lives (lives g - 1) g) c) ++
                  [mkLifeRec id y vy h (gameStarted (c_game (cUpdGame (fun g => set_lives (lives g - 1) g) c)))])
                  (cUpdGame (fun g => set_lives (lives g - 1) g) c)))
    by (eapply fz_trans; [apply (fz_game (fun g => set_lives (lives g - 1) g)); reflexivity|apply fz_lifelog]).
  destruct (_ <=? 0); [|exact F1].
  eapply fz_trans; [exact F1|]. apply fz_gameOver, to_lifelog, to_game, HT.
Qed.

Lemma fz_runCallback cb c : cb <> CbFreezeEnd -> TimersOk c -> fz_same c (cRunCallback cb c).
Proof.
  intros Hcb HT. destruct cb; cbn [cRunCallback]; [apply fz_spawnLoop| |congruence| | |].
  - cbv zeta.
    set (c1 := cUpdGame (fun g => set_countdown (countdown g - 1) g) c).
    assert (F1 : fz_same c c1) by (apply (fz_game (fun g => set_countdown (countdown g - 1) g)); reflexivity).
    assert (T1 : TimersOk c1) by (apply to_game, HT).
    destruct (countdown (c_game c1) <=? 0); [|exact F1].
    eapply fz_trans; [exact F1|].
    set (c2 := match c_countdownH c1 with Some h => cClear h c1 | None => c1 end).
    assert (F2 : fz_same c1 c2 /\ TimersOk c2).
    { unfold c2. destruct (c_countdownH c1) as [h|] eqn:Hc; [|split; [apply fz_refl|exact T1]].
      split; [|apply to_clear, T1]. apply fz_clear.
      intros x Hx Hh. rewrite (proj2 (to_countdownH _ T1 h Hc) x Hx Hh). discriminate. }
    destruct F2 as [F2 T2].
    eapply fz_trans; [exact F2|].
    eapply fz_trans; [apply fz_countdownH|].
    eapply fz_trans; [apply (fz_game (set_gameStarted true)); reflexivity|].
    apply fz_startSpawning, to_game, to_countdown_none, T2.
  - apply (fz_game (set_frenzyActive false)); reflexivity.
  - apply fz_gameOver, HT.
  - apply (fz_game (set_hitStopActive false)); reflexivity.
Qed.

Lemma fz_fire_other h c tm : TimersOk c ->
  find (fun t => (t_handle t =? h)%nat) (c_timers c) = Some tm -> t_cb tm <> CbFreezeEnd ->
  fz_same c (cFire h c).
Proof.
  intros HT Ef Hcb. unfold cFire. rewrite Ef.
  pose proof Ef as Ef'. apply find_handle in Ef' as [Ht Hh].
  cbv zeta. eapply fz_trans; [|apply fz_runCallback; [exact Hcb|apply to_requeue; auto]].
  assert (Hr : forall x, In x (c_timers c) -> t_handle x = h -> t_cb x <> CbFreezeEnd).
  { intros x Hx Hxh. assert (x = tm) as -> by (apply (nodup_same_handle (c_timers c)); auto;
      [apply (to_nodup _ HT)|congruence]). exact Hcb. }
  destruct (t_period tm) as [p|].
  - repeat split; cbn; auto; try lia.
    + intros x Hx%in_snoc Hx'. destruct Hx as [Hx| ->]; [apply in_filter_handle in Hx; tauto|cbn in Hx'; congruence].
    + intros x Hx Hx'. apply in_snoc. left. apply in_filter_handle. split; [exact Hx|].
      intros E. exact (Hr x Hx E Hx').
  - apply (fz_clear h c Hr).
Qed.

(** The freeze state after the activations logged since [log0]: none yet and
    no [FreezeEnd] pending; or a first activation at [t], whose [FreezeEnd]
    (the earliest one) is pending, or which has ended. *)

Lemma fi_same log0 c c' : freeze_inv log0 c -> fz_same c c' -> freeze_inv log0 c'.
Proof.
  intros K (A & B & C & D & E).
  destruct K as [[K1 K2]|(t & L & K1 & K2 & K3)].
  - left. split; [congruence|]. intros x Hx Hx'. exact (K2 x (D x Hx Hx') Hx').
  - right. exists t, L. split; [congruence|]. split; [lia|].
    destruct K3 as [(hf & H1 & H2 & H3)|(H1 & H2)].
    + left. exists hf. split; [apply E; auto|]. split; [rewrite B; destruct H2; [left|right; lia]; auto|].
      intros x Hx Hx'. apply H3; auto.
    + right. split; [lia|]. rewrite B. exact H2.
Qed.

Lemma fi_activate log0 c : freeze_inv log0 c -> freeze_inv log0 (cActivateFreeze c).
Proof.
  intros K. unfold cActivateFreeze. cbn.
  destruct K as [[K1 K2]|(t & L & K1 & K2 & K3)].
  - right. exists (c_clock c), []. cbn. split; [rewrite K1; reflexivity|]. split; [lia|].
    left. exists (c_next c). split; [apply in_snoc; right; reflexivity|]. split; [left; reflexivity|].
    intros x Hx%in_snoc Hx'. destruct Hx as [Hx| ->]; [exfalso; exact (K2 x Hx Hx')|cbn; lia].
  - right. exists t, (L ++ [c_clock c]). split; [rewrite K1, <- app_assoc; reflexivity|].
    split; [exact K2|].
    destruct K3 as [(hf & H1 & H2 & H3)|(H1 & H2)].
    + left. exists hf. split; [apply in_snoc; left; exact H1|]. split; [left; reflexivity|].
      intros x Hx%in_snoc Hx'. destruct Hx as [Hx| ->]; [apply H3; auto|cbn; lia].
    + right. split; [exact H1|]. intros E. destruct L; discriminate.
Qed.

Lemma fi_normalHit log0 ty c : TimersOk c -> freeze_inv log0 c -> freeze_inv log0 (cNormalHit ty c).
Proof.
  intros HT K.
  destruct ty; try (eapply fi_same; [exact K|apply fz_normalHit; [discriminate|exact HT]]).
  rewrite normalHit_tail. eapply fi_same; [apply fi_activate, K|apply fz_hit_tail].
Qed.

Lemma Callback_eq (t : Timer) : {t_cb t = CbFreezeEnd} + {t_cb t <> CbFreezeEnd}.
Proof. destruct (t_cb t); [right|right|left|right|right|right]; congruence. Qed.

Lemma fi_fire log0 h c : TimersOk c -> freeze_inv log0 c ->
  (exists t, In t (c_timers c) /\ t_handle t = h /\ t_due t <= c_clock c) ->
  freeze_inv log0 (cFire h c).
Proof.
  intros HT K (t0 & Ht0 & Hh0 & Hd0).
  destruct (find (fun t => (t_handle t =? h)%nat) (c_timers c)) as [tm|] eqn:Ef;
    [|unfold cFire; rewrite Ef; exact K].
  pose proof Ef as Ef'. apply find_handle in Ef' as [Ht Hh].
  assert (t0 = tm) as -> by (apply (nodup_same_handle (c_timers c)); auto;
    [apply (to_nodup _ HT)|congruence]).
  destruct (Callback_eq tm) as [Ecb|Ecb]; [|eapply fi_same; [exact K|apply (fz_fire_other h c tm HT Ef Ecb)]].
  destruct (to_period _ HT tm Ht) as [Ep|[Ec _]]; [|congruence].
  assert (E : cFire h c = set_c_ts (option_map (fun _ => 1%Q) (c_ts c))
                 (cUpdGame (set_freezeActive false)
                   (set_c_timers (filter (fun t => negb (t_handle t =? h)%nat) (c_timers c)) c)))
    by (unfold cFire; rewrite Ef, Ecb, Ep; reflexivity).
  rewrite E. clear E.
  destruct K as [[K1 K2]|(t & L & K1 & K2 & K3)]; [exfalso; exact (K2 tm Ht Ecb)|].
  right. exists t, L. cbn. split; [exact K1|]. split; [exact K2|]. right.
  split; [|reflexivity].
  destruct K3 as [(hf & H1 & H2 & H3)|(H1 & H2)]; [|exact H1].
  specialize (H3 tm Ht Ecb). lia.
Qed.

Lemma fi_cmove log0 c c' : GoodC c -> freeze_inv log0 c -> cmove c c' -> freeze_inv log0 c'.
Proof.
  intros G K Hm. destruct Hm as [ty c _ _|c _ _|id y vy h c _ _ _].
  - apply fi_normalHit; [apply (gd_timers _ G)|exact K].
  - eapply fi_same; [exact K|apply fz_bombExit].
  - eapply fi_same; [exact K|apply fz_miss, (gd_timers _ G)].
Qed.

Lemma fi_moves log0 c c' : GoodC c -> freeze_inv log0 c -> clos_refl_trans Ctl cmove c c' -> freeze_inv log0 c'.
Proof.
  intros G K H. apply clos_rt_rt1n in H. revert G K.
  induction H as [x|x y z Hm _ IH]; intros G K; [exact K|].
  apply IH; [exact (good_cmove _ _ G Hm)|exact (fi_cmove _ _ _ G K Hm)].
Qed.

Lemma fi_cstep log0 c c' : GoodC c -> freeze_inv log0 c -> cstep c c' -> freeze_inv log0 c'.
Proof.
  intros G K Hs. destruct Hs as [c c' Hm|c ready|c dt Hdt _|c h Hex|c].
  - exact (fi_moves _ _ _ G K Hm).
  - destruct (loading (c_game c) && ready); [|exact K].
    eapply fi_same; [exact K|]. eapply fz_trans; [apply (fz_game (set_loading false)); reflexivity|].
    apply fz_startCountdown.
  - eapply fi_same; [exact K|]. repeat split; cbn; auto; lia.
  - exact (fi_fire _ _ _ (gd_timers _ G) K Hex).
  - eapply fi_same; [exact K|apply fz_goHome, (gd_timers _ G)].
Qed.

Lemma fi_run M s evs log0 : reachable M s -> run_ok M s evs = true ->
  freeze_inv log0 (ctl s) -> freeze_inv log0 (ctl (run M s evs)).
Proof.
  revert s; induction evs as [|ev evs IH]; intros s Hr Hok K; cbn in *; [exact K|].
  apply andb_true_iff in Hok as [Hen Hok].
  apply IH; [apply reach_step; auto|exact Hok|].
  apply (fi_cstep _ (ctl s)); [apply (reachable_good M s Hr)|exact K|apply step_cstep, Hen].
Qed.

Lemma freeze_restored M s evs t L :
  reachable M s -> (forall x, In x (timers (sys s)) -> t_cb x <> CbFreezeEnd) ->
  run_ok M s evs = true ->
  freezeLog (ghost (run M s evs)) = freezeLog (ghost s) ++ t :: L ->
  (clock (sys (run M s evs)) < t + 5000 -> freezeActive (game (run M s evs)) = true) /\
  (t + 5000 < clock (sys (run M s evs)) -> L = [] ->
     freezeActive (game (run M s evs)) = false /\
     (option_map timeScale (engine (world (run M s evs))) = None \/
      option_map timeScale (engine (world (run M s evs))) = Some 1%Q)).
Proof.
  intros Hr Hno Hok Hlog.
  assert (K0 : freeze_inv (freezeLog (ghost s)) (ctl s)) by (left; split; [reflexivity|exact Hno]).
  pose proof (fi_run M s evs _ Hr Hok K0) as K.
  pose proof (reachable_good M _ (reachable_run M s evs Hr Hok)) as G.
  destruct K as [[K1 _]|(t' & L' & K1 & K2 & K3)].
  - exfalso. change (c_freezeLog (ctl (run M s evs))) with (freezeLog (ghost (run M s evs))) in K1.
    rewrite Hlog in K1. apply (f_equal (@List.length Z)) in K1. rewrite length_app in K1. cbn in K1. lia.
  - change (c_freezeLog (ctl (run M s evs))) with (freezeLog (ghost (run M s evs))) in K1.
    rewrite Hlog in K1. apply app_inv_head in K1. injection K1 as <- <-.
    change (c_clock (ctl (run M s evs))) with (clock (sys (run M s evs))) in *.
    change (c_game (ctl (run M s evs))) with (game (run M s evs)) in *.
    destruct K3 as [(hf & H1 & H2 & H3)|(H1 & H2)].
    + split; [intros Hlt; destruct H2 as [H2|H2]; [exact H2|lia]|].
      intros Hlt. exfalso. pose proof (to_due _ (gd_timers _ G) _ H1) as Hd. cbn in Hd. lia.
    + split; [intros Hlt; lia|]. intros _ HL. specialize (H2 HL). split; [exact H2|].
      destruct (option_map timeScale (engine (world (run M s evs)))) as [q|] eqn:Eq; [right|left; reflexivity].
      rewrite (gd_timescale _ G q Eq). change (c_game (ctl (run M s evs))) with (game (run M s evs)).
      rewrite H2. reflexivity.
Qed.

Lemma fa_same log0 c c' : freeze_all log0 c -> fz_same c c' -> freeze_all log0 c'.
Proof.
  intros (A & K1 & K2 & K3 & K4 & K5) (B & Fa & Cl & D & E).
  assert (P : forall v, fe_pending v c -> fe_pending v c').
  { intros v (x & Hx & Hc & Hd). exists x. split; [apply E; auto|auto]. }
  exists A. split; [congruence|]. split; [intros u Hu; specialize (K2 u Hu); lia|].
  split; [exact K3|]. split.
  - intros v Hv. destruct (K4 v Hv) as [H|H]; [left; lia|right; apply P, H].
  - rewrite Fa. intros Hf. destruct (K5 Hf) as [H0|(u & Hu & Hall)]; [left; exact H0|right].
    exists u. split; [exact Hu|].
    intros v Hv. destruct (Hall v Hv) as [H|H]; [left; exact H|right; apply P, H].
Qed.

Lemma fa_activate log0 c : freeze_all log0 c -> freeze_all log0 (cActivateFreeze c).
Proof.
  intros (A & K1 & K2 & K3 & K4 & K5). unfold freeze_all, fe_pending in *. unfold cActivateFreeze. cbn.
  assert (P : forall v, v + 5000 <= c_clock c \/
             (exists x, In x (c_timers c) /\ t_cb x = CbFreezeEnd /\ t_due x = v + 5000) ->
             v + 5000 <= c_clock c \/
             (exists x, In x (c_timers c ++ [mkTimer (c_next c) (c_clock c + 5000) CbFreezeEnd None]) /\
                t_cb x = CbFreezeEnd /\ t_due x = v + 5000)).
  { intros v [H|(x & Hx & Hc & Hd)]; [left; exact H|right; exists x; split; [apply in_snoc; left; exact Hx|auto]]. }
  assert (Q : forall v, In v (A ++ [c_clock c]) -> v + 5000 <= c_clock c \/
             (exists x, In x (c_timers c ++ [mkTimer (c_next c) (c_clock c + 5000) CbFreezeEnd None]) /\
                t_cb x = CbFreezeEnd /\ t_due x = v + 5000)).
  { intros v Hv%in_snoc. destruct Hv as [Hv| ->]; [apply P, K4, Hv|].
    right. eexists. split; [apply in_snoc; right; reflexivity|]. split; reflexivity. }
  exists (A ++ [c_clock c]).
  split; [rewrite K1, <- app_assoc; reflexivity|].
  split; [intros u Hu%in_snoc; destruct Hu as [Hu| ->]; [apply K2, Hu|lia]|].
  split; [intros pre u E v Hv; apply app_inj_tail in E as [<- <-]; apply K2, Hv|].
  split; [exact Q|].
  intros _. right. exists (c_clock c). split; [apply in_snoc; right; reflexivity|].
  intros v Hv. destruct (Q v Hv) as [H|H]; [left; exact H|right; exact H].
Qed.

Lemma fa_normalHit log0 ty c : TimersOk c -> freeze_all log0 c -> freeze_all log0 (cNormalHit ty c).
Proof.
  intros HT K.
  destruct ty; try (eapply fa_same; [exact K|apply fz_normalHit; [discriminate|exact HT]]).
  rewrite normalHit_tail. eapply fa_same; [apply fa_activate, K|apply fz_hit_tail].
Qed.

Lemma fa_fire log0 h c : TimersOk c -> freeze_all log0 c ->
  (exists t, In t (c_timers c) /\ t_handle t = h /\ t_due t <= c_clock c) ->
  freeze_all log0 (cFire h c).
Proof.
  intros HT K (t0 & Ht0 & Hh0 & Hd0).
  destruct (find (fun t => (t_handle t =? h)%nat) (c_timers c)) as [tm|] eqn:Ef;
    [|unfold cFire; rewrite Ef; exact K].
  pose proof Ef as Ef'. apply find_handle in Ef' as [Ht Hh].
  assert (t0 = tm) as -> by (apply (nodup_same_handle (c_timers c)); auto;
    [apply (to_nodup _ HT)|congruence]).
  destruct (Callback_eq tm) as [Ecb|Ecb]; [|eapply fa_same; [exact K|apply (fz_fire_other h c tm HT Ef Ecb)]].
  destruct (to_period _ HT tm Ht) as [Ep|[Ec _]]; [|congruence].
  assert (E : cFire h c = set_c_ts (option_map (fun _ => 1%Q) (c_ts c))
                 (cUpdGame (set_freezeActive false)
                   (set_c_timers (filter (fun t => negb (t_handle t =? h)%nat) (c_timers c)) c)))
    by (unfold cFire; rewrite Ef, Ecb, Ep; reflexivity).
  rewrite E. clear E.
  destruct K as (A & K1 & K2 & K3 & K4 & K5). unfold fe_pending in *.
  exists A. cbn. split; [exact K1|]. split; [exact K2|]. split; [exact K3|].
  split; [|discriminate].
  intros v Hv. destruct (K4 v Hv) as [H|(x & Hx & Hc & Hd)]; [left; exact H|].
  destruct (Nat.eq_dec (t_handle x) h) as [Exh|Nxh].
  - left. assert (x = tm) as -> by (apply (nodup_same_handle (c_timers c)); auto;
      [apply (to_nodup _ HT)|congruence]). lia.
  - right. exists x. split; [apply in_filter_handle; auto|auto].
Qed.

Lemma fa_cmove log0 c c' : GoodC c -> freeze_all log0 c -> cmove c c' -> freeze_all log0 c'.
Proof.
  intros G K Hm. destruct Hm as [ty c _ _|c _ _|id y vy h c _ _ _].
  - apply fa_normalHit; [apply (gd_timers _ G)|exact K].
  - eapply fa_same; [exact K|apply fz_bombExit].
  - eapply fa_same; [exact K|apply fz_miss, (gd_timers _ G)].
Qed.

Lemma fa_moves log0 c c' : GoodC c -> freeze_all log0 c -> clos_refl_trans Ctl cmove c c' -> freeze_all log0 c'.
Proof.
  intros G K H. apply clos_rt_rt1n in H. revert G K.
  induction H as [x|x y z Hm _ IH]; intros G K; [exact K|].
  apply IH; [exact (good_cmove _ _ G Hm)|exact (fa_cmove _ _ _ G K Hm)].
Qed.

Lemma fa_cstep log0 c c' : GoodC c -> freeze_all log0 c -> cstep c c' -> freeze_all log0 c'.
Proof.
  intros G K Hs. destruct Hs as [c c' Hm|c ready|c dt Hdt _|c h Hex|c].
  - exact (fa_moves _ _ _ G K Hm).
  - destruct (loading (c_game c) && ready); [|exact K].
    eapply fa_same; [exact K|]. eapply fz_trans; [apply (fz_game (set_loading false)); reflexivity|].
    apply fz_startCountdown.
  - eapply fa_same; [exact K|]. repeat split; cbn; auto; lia.
  - exact (fa_fire _ _ _ (gd_timers _ G) K Hex).
  - eapply fa_same; [exact K|apply fz_goHome, (gd_timers _ G)].
Qed.

Lemma fa_run M s evs log0 : reachable M s -> run_ok M s evs = true ->
  freeze_all log0 (ctl s) -> freeze_all log0 (ctl (run M s evs)).
Proof.
  revert s; induction evs as [|ev evs IH]; intros s Hr Hok K; cbn in *; [exact K|].
  apply andb_true_iff in Hok as [Hen Hok].
  apply IH; [apply reach_step; auto|exact Hok|].
  apply (fa_cstep _ (ctl s)); [apply (reachable_good M s Hr)|exact K|apply step_cstep, Hen].
Qed.

Lemma freeze_all_run M s evs A :
  reachable M s -> run_ok M s evs = true ->
  freezeLog (ghost (run M s evs)) = freezeLog (ghost s) ++ A ->
  (forall pre u, A = pre ++ [u] -> forall v, In v pre -> v <= u) /\
  (forall v, In v A -> v + 5000 < clock (sys (run M s evs)) -> (forall u, In u A -> u < v + 5000) ->
     freezeActive (game (run M s evs)) = false).
Proof.
  intros Hr Hok Hlog.
  assert (K0 : freeze_all (freezeLog (ghost s)) (ctl s)).
  { exists []. rewrite app_nil_r. split; [reflexivity|]. split; [intros u []|].
    split; [intros pre u E; destruct pre; discriminate|]. split; [intros v []|].
    intros _. left. reflexivity. }
  pose proof (fa_run M s evs _ Hr Hok K0) as (A' & K1 & K2 & K3 & K4 & K5).
  pose proof (reachable_good M _ (reachable_run M s evs Hr Hok)) as G.
  change (c_freezeLog (ctl (run M s evs))) with (freezeLog (ghost (run M s evs))) in K1.
  change (c_clock (ctl (run M s evs))) with (clock (sys (run M s evs))) in *.
  change (c_game (ctl (run M s evs))) with (game (run M s evs)) in *.
  rewrite Hlog in K1. apply app_inv_head in K1. subst A'.
  split; [exact K3|].
  intros v Hv Hlt Hall. destruct (freezeActive (game (run M s evs))) eqn:Ef; [exfalso|reflexivity].
  destruct (K5 eq_refl) as [E|(u & Hu & Hu')]; [subst A; destruct Hv|].
  destruct (Hu' v Hv) as [H|(x & Hx & _ & Hd)]; [specialize (Hall u Hu); lia|].
  pose proof (to_due _ (gd_timers _ G) _ Hx) as Hd'.
  change (c_clock (ctl (run M s evs))) with (clock (sys (run M s evs))) in Hd'. lia.
Qed.


Lemma reach_M0 evs : run_ok M0 s_mount evs = true -> reachable M0 (run M0 s_mount evs).
Proof. intros H. apply reachable_run; [apply reach_mount|exact H]. Qed.

(** The immediate effect of hitting a Freeze banana. *)
Lemma freeze_hit_effect M sdx sdy fr s : fr_type fr = FreezeBanana ->
  let s' := normal_hit M sdx sdy fr s in
  freezeActive (game s') = true /\
  option_map timeScale (engine (world s')) =
    match engine (world s) with Some _ => Some (1#2) | None => None end /\
  freezeLog (ghost s') = freezeLog (ghost s) ++ [clock (sys s)] /\
  In (mkTimer (nextHandle (sys s)) (clock (sys s) + 5000) CbFreezeEnd None) (timers (sys s')) /\
  spawn_delay (game s') =
    (if frenzyActive (game s') then 300 else Z.max 600 (2000 - score (game s') / 50 * 100)) * 2.
Proof.
  intros Hty s'.
  assert (E : ctl s' = cNormalHit FreezeBanana (ctl s)) by (rewrite <- Hty; apply normal_hit_ctl).
  rewrite spawn_delay_closed.
  change (game s') with (c_game (ctl s')).
  change (option_map timeScale (engine (world s'))) with (c_ts (ctl s')).
  replace (match engine (world s) with Some _ => Some (1#2) | None => None end)
    with (option_map (fun _ => 1#2) (c_ts (ctl s))) by (cbn; destruct (engine (world s)); reflexivity).
  change (freezeLog (ghost s')) with (c_freezeLog (ctl s')).
  change (freezeLog (ghost s)) with (c_freezeLog (ctl s)).
  change (timers (sys s')) with (c_timers (ctl s')).
  change (clock (sys s)) with (c_clock (ctl s)).
  change (nextHandle (sys s)) with (c_next (ctl s)).
  rewrite E. generalize (ctl s) as c. intros c.
  destruct c as [g ts ? tm ? ? ? ? ? ? ?]. cbn.
  split; [reflexivity|]. split; [destruct ts; reflexivity|]. split; [reflexivity|].
  split; [apply in_or_app; left; apply in_or_app; right; left; reflexivity|reflexivity].
Qed.

(** C1: in every reachable state, the hits resolved so far (the ghost hit log,
    in order) form a chain from combo 0 and slice time 0: each hit reads the
    combo and [lastSliceTime] left by the previous hit, sets the combo to the
    previous combo plus 1 when less than 500 ms passed since that time and to 1
    otherwise, and the last hit leaves the current [combo] and [lastSliceTime].
    This covers several hits resolved in the same frame. *)
Lemma combo_rule M s : reachable M s ->
  hits_from 0 0 (hitlog (ghost s)) (combo (game s)) (lastSliceTime (game s)) /\
  Forall hit_ok (hitlog (ghost s)).
Proof.
  intros Hr. pose proof (gd_hits _ (reachable_good M s Hr)) as H.
  split; [exact H|exact (hits_from_forall _ _ _ _ _ H)].
Qed.

Lemma combo_rule_witness : reachable M0 s_hit1 /\
  hits_from 0 0 (hitlog (ghost s_hit1)) (combo (game s_hit1)) (lastSliceTime (game s_hit1)) /\
  Forall hit_ok (hitlog (ghost s_hit1)).
Proof.
  assert (H : reachable M0 s_hit1) by (apply reach_M0; vm_compute; reflexivity).
  split; [exact H|exact (combo_rule M0 s_hit1 H)].
Defined.

(** C2: lives start at 3; in every reachable state lives are non-negative and
    equal 3 minus the number of lives lost, every life lost is for a body below
    the canvas height plus 100, moving down, while the game is started; the
    game-over screen is navigated to at most once, and exactly once when lives
    reach 0. *)
Lemma lives_invariant M s : reachable M s ->
  (forall cam now w h, lives (game (mount cam now w h)) = 3) /\
  0 <= lives (game s) /\
  lives (game s) = 3 - Z.of_nat (List.length (lifelog (ghost s))) /\
  Forall missed_ok (lifelog (ghost s)) /\
  (count_go (navs (sys s)) <= 1)%nat /\
  (lives (game s) = 0 -> count_go (navs (sys s)) = 1%nat).
Proof.
  intros Hr. pose proof (reachable_good M s Hr) as G.
  split; [intros [|] now w h; reflexivity|].
  split; [exact (gd_lives _ G)|]. split; [exact (gd_lifecount _ G)|].
  split; [exact (gd_lifelog _ G)|]. split; [exact (gd_go_once _ G)|exact (gd_dead _ G)].
Qed.

Lemma lives_invariant_witness : reachable M0 s_hit2 /\
  (forall cam now w h, lives (game (mount cam now w h)) = 3) /\
  0 <= lives (game s_hit2) /\
  lives (game s_hit2) = 3 - Z.of_nat (List.length (lifelog (ghost s_hit2))) /\
  Forall missed_ok (lifelog (ghost s_hit2)) /\
  (count_go (navs (sys s_hit2)) <= 1)%nat /\
  (lives (game s_hit2) = 0 -> count_go (navs (sys s_hit2)) = 1%nat).
Proof.
  assert (H : reachable M0 s_hit2) by (apply reach_M0; vm_compute; reflexivity).
  split; [exact H|exact (lives_invariant M0 s_hit2 H)].
Defined.

(** C3: when the slicing pass of a frame of a started game hits a bomb, the
    bomb is the last body tested in that frame, the game stops, a game-over
    timer is due 100 ms later, and from then on score and combo never change
    and, once the timer is due, the game-over screen has been navigated to. *)
Lemma bomb_hit_ends_session M sb s :
  reachable M s -> gameStarted (game s) = true -> snd (check_slicing M (pre_slice M sb s)) = true ->
  let s1 := step M s (EvFrame sb) in
  (exists l id fr, tested (ghost s1) = tested (ghost s) ++ l ++ [(id, true)] /\ fr_type fr = Bomb /\
     In (id, fr) (fruits (world (checkSlicing M (pre_slice M sb s))))) /\
  gameStarted (game s1) = false /\
  (exists hb, In (mkTimer hb (clock (sys s) + 100) CbBombGameOver None) (timers (sys s1))) /\
  (forall evs, run_ok M s1 evs = true ->
     score (game (run M s1 evs)) = score (game s1) /\
     combo (game (run M s1 evs)) = combo (game s1) /\
     (clock (sys s) + 100 < clock (sys (run M s1 evs)) ->
      In (RGameOver (score (game s1))) (navs (sys (run M s1 evs))))).
Proof.
  intros Hr Hg Hc s1.
  destruct (check_slicing M (pre_slice M sb s)) as [s2 b] eqn:Ec. cbn in Hc. subst b.
  destruct (pre_slice_game M sb s) as (Pg & Ps & Pgh).
  assert (He : engine (world s) <> None).
  { intros He. apply (pre_slice_engine M sb) in He. unfold check_slicing in Ec. rewrite He in Ec. discriminate. }
  destruct (check_slicing_bomb M _ _ Ec) as (s0 & l & id & fr & -> & Hm & T & Hty & Hin);
    [rewrite Pg; exact Hg|].
  assert (E1 : s1 = renderGame (swoosh (bomb_exit s0))).
  { unfold s1. cbn [step]. unfold frame. destruct (engine (world s)); [|contradiction].
    cbv zeta. rewrite Pg, Hg. unfold checkSlicing. rewrite Ec. reflexivity. }
  assert (C1 : ctl s1 = cBombExit (ctl s0)).
  { rewrite E1. symmetry. rewrite <- bomb_exit_ctl, <- (swoosh_ctl (bomb_exit s0)).
    symmetry. apply moves_stopped; [apply renderGame_moves|reflexivity]. }
  assert (Ck : c_clock (ctl s0) = clock (sys s)).
  { rewrite (moves_clock _ _ Hm), pre_slice_ctl. reflexivity. }
  assert (Hb : In (mkTimer (c_next (ctl s0)) (clock (sys s) + 100) CbBombGameOver None) (timers (sys s1))).
  { change (timers (sys s1)) with (c_timers (ctl s1)). rewrite C1, <- Ck.
    apply in_or_app. right. left. reflexivity. }
  assert (Hr1 : reachable M s1) by (apply reach_step; [exact Hr|reflexivity]).
  pose proof (reachable_good M s1 Hr1) as G1.
  assert (Gs : gameStarted (game s1) = false).
  { change (game s1) with (c_game (ctl s1)). rewrite C1. reflexivity. }
  split; [|split; [exact Gs|split; [exists (c_next (ctl s0)); exact Hb|]]].
  - exists l, id, fr. split; [|split; [exact Hty|unfold checkSlicing; rewrite Ec; exact Hin]].
    rewrite E1, renderGame_tested. cbn. rewrite T, Pgh. reflexivity.
  - intros evs Hok.
    destruct (gd_bomb_pending _ G1 _ Hb eq_refl) as (_ & Hlo & _ & Hnc).
    assert (A : after_bomb (score (game s1)) (combo (game s1)) (c_next (ctl s0)) (clock (sys s) + 100) (ctl s1)).
    { repeat split; auto. }
    destruct (after_bomb_run M s1 evs _ _ _ _ Hr1 Hok A) as (Hsc & Hcb & _ & _ & _ & Hor).
    split; [exact Hsc|split; [exact Hcb|]].
    intros Hlt. destruct Hor as [Ht|Hn]; [|exact Hn].
    pose proof (to_due _ (gd_timers _ (reachable_good M _ (reachable_run M s1 evs Hr1 Hok))) _ Ht) as Hd.
    change (clock (sys (run M s1 evs)) <= clock (sys s) + 100) in Hd. lia.
Qed.

Lemma bomb_hit_ends_session_witness :
  reachable M1 s_bomb /\ gameStarted (game s_bomb) = true /\
  snd (check_slicing M1 (pre_slice M1 sb0 s_bomb)) = true /\
  let s1 := step M1 s_bomb (EvFrame sb0) in
  (exists l id fr, tested (ghost s1) = tested (ghost s_bomb) ++ l ++ [(id, true)] /\ fr_type fr = Bomb /\
     In (id, fr) (fruits (world (checkSlicing M1 (pre_slice M1 sb0 s_bomb))))) /\
  gameStarted (game s1) = false /\
  (exists hb, In (mkTimer hb (clock (sys s_bomb) + 100) CbBombGameOver None) (timers (sys s1))) /\
  (forall evs, run_ok M1 s1 evs = true ->
     score (game (run M1 s1 evs)) = score (game s1) /\
     combo (game (run M1 s1 evs)) = combo (game s1) /\
     (clock (sys s_bomb) + 100 < clock (sys (run M1 s1 evs)) ->
      In (RGameOver (score (game s1))) (navs (sys (run M1 s1 evs))))).
Proof.
  assert (H1 : reachable M1 s_bomb)
    by (apply reachable_run; [apply reach_mount|vm_compute; reflexivity]).
  assert (H2 : gameStarted (game s_bomb) = true) by (vm_compute; reflexivity).
  assert (H3 : snd (check_slicing M1 (pre_slice M1 sb0 s_bomb)) = true) by (vm_compute; reflexivity).
  split; [exact H1|]. split; [exact H2|]. split; [exact H3|].
  exact (bomb_hit_ends_session M1 sb0 s_bomb H1 H2 H3).
Defined.

(** C4: the spawn delay is [max(600, 2000 - floor(score/50)*100)], replaced by
    300 when Frenzy is active, and the result is doubled when Freeze is active
    (so it is 600 when both are active); [spawnLoop] schedules its next run
    with that delay. *)
Lemma spawn_delay_spec M s :
  (forall g, spawn_delay g =
     (if frenzyActive g then 300 else Z.max 600 (2000 - score g / 50 * 100)) *
     (if freezeActive g then 2 else 1)) /\
  timers (sys (spawnLoop M s)) =
    timers (sys s) ++ [mkTimer (nextHandle (sys s)) (clock (sys s) + spawn_delay (game s)) CbSpawnLoop None].
Proof.
  split; [apply spawn_delay_closed|]. apply (spawnLoop_timer M s).
Qed.

(** With Frenzy and Freeze both active the spawn delay is 600, not 300:
    Freeze doubles the Frenzy delay. *)
Lemma spawn_delay_both_active :
  frenzyActive g_both = true /\ freezeActive g_both = true /\ spawn_delay g_both = 600.
Proof. vm_compute. repeat split. Qed.


(** C5: a normal hit adds 10 times the new combo to the score, and no run of
    events from a reachable state decreases the score. *)
Lemma score_rule M :
  (forall sdx sdy fr s, score (game (normal_hit M sdx sdy fr s)) =
     score (game s) + 10 * combo (game (normal_hit M sdx sdy fr s))) /\
  (forall s evs, reachable M s -> run_ok M s evs = true ->
     score (game s) <= score (game (run M s evs))).
Proof. split; [apply normal_hit_score|apply score_run]. Qed.

Lemma score_rule_witness : reachable M0 s_started /\ run_ok M0 s_started ev_hit1 = true /\
  score (game s_started) <= score (game (run M0 s_started ev_hit1)).
Proof.
  assert (H1 : reachable M0 s_started) by (apply reach_M0; vm_compute; reflexivity).
  assert (H2 : run_ok M0 s_started ev_hit1 = true) by (vm_compute; reflexivity).
  split; [exact H1|]. split; [exact H2|]. exact (proj2 (score_rule M0) s_started ev_hit1 H1 H2).
Defined.

(** C6: in every reachable state the combo and [lastSliceTime] are those set
    by the last hit (0 and 0 before any hit), whatever time has passed since:
    the combo is not reset by silence.  Every recorded hit followed the combo
    rule, chained from 0 (the hit log is a [hits_from] chain), and the next
    hit sets the combo to combo + 1 if it comes less than 500 ms after
    [lastSliceTime], to 1 otherwise, and [lastSliceTime] to the current time;
    every hit sets the combo to at least 1. *)
Lemma combo_last_hit M s : reachable M s ->
  ((hitlog (ghost s) = [] /\ combo (game s) = 0 /\ lastSliceTime (game s) = 0) \/
   (exists l r, hitlog (ghost s) = l ++ [r] /\ combo (game s) = hr_combo_after r /\
                lastSliceTime (game s) = hr_now r)) /\
  Forall (fun r => 1 <= hr_combo_after r) (hitlog (ghost s)) /\
  hits_from 0 0 (hitlog (ghost s)) (combo (game s)) (lastSliceTime (game s)) /\
  Forall hit_ok (hitlog (ghost s)) /\
  (forall sdx sdy fr, let s' := normal_hit M sdx sdy fr s in
     combo (game s') =
       (if clock (sys s) - lastSliceTime (game s) <? 500 then combo (game s) + 1 else 1) /\
     lastSliceTime (game s') = clock (sys s) /\ 1 <= combo (game s')).
Proof.
  intros Hr. pose proof (reachable_good M s Hr) as G. pose proof (gd_hits _ G) as H.
  split; [|split; [|split; [exact H|split]]].
  - destruct (hits_from_shape _ _ _ _ _ H) as [(E & E1 & E2)|(l & r & E & E1 & E2)].
    + left. auto.
    + right. exists l, r. auto.
  - eapply (hits_from_pos 0 0); [lia|exact H].
  - exact (hits_from_forall _ _ _ _ _ H).
  - intros sdx sdy fr s'. subst s'.
    change (combo (game (normal_hit M sdx sdy fr s))) with (combo (c_game (ctl (normal_hit M sdx sdy fr s)))).
    change (lastSliceTime (game (normal_hit M sdx sdy fr s)))
      with (lastSliceTime (c_game (ctl (normal_hit M sdx sdy fr s)))).
    rewrite normal_hit_ctl.
    destruct (normalHit_fields (fr_type fr) (ctl s)) as (_ & _ & _ & _ & _ & _ & _ & Ec & El & _).
    rewrite Ec, El. pose proof (gd_combo _ G) as Hc. unfold next_combo. cbn.
    split; [reflexivity|]. split; [reflexivity|].
    destruct (clock (sys s) - lastSliceTime (game s) <? 500); cbn in Hc; lia.
Qed.

Lemma combo_last_hit_witness : reachable M0 s_hit1 /\
  ((hitlog (ghost s_hit1) = [] /\ combo (game s_hit1) = 0 /\ lastSliceTime (game s_hit1) = 0) \/
   (exists l r, hitlog (ghost s_hit1) = l ++ [r] /\ combo (game s_hit1) = hr_combo_after r /\
                lastSliceTime (game s_hit1) = hr_now r)) /\
  Forall (fun r => 1 <= hr_combo_after r) (hitlog (ghost s_hit1)) /\
  hits_from 0 0 (hitlog (ghost s_hit1)) (combo (game s_hit1)) (lastSliceTime (game s_hit1)) /\
  Forall hit_ok (hitlog (ghost s_hit1)) /\
  (forall sdx sdy fr, let s' := normal_hit M0 sdx sdy fr s_hit1 in
     combo (game s') =
       (if clock (sys s_hit1) - lastSliceTime (game s_hit1) <? 500 then combo (game s_hit1) + 1 else 1) /\
     lastSliceTime (game s') = clock (sys s_hit1) /\ 1 <= combo (game s')).
Proof.
  assert (H : reachable M0 s_hit1) by (apply reach_M0; vm_compute; reflexivity).
  split; [exact H|exact (combo_last_hit M0 s_hit1 H)].
Defined.

(** After 2000 ms without a hit the combo is still 1, not 0. *)
Lemma combo_stale_after_silence :
  run_ok M0 s_mount (ev_countdown ++ ev_hit1) = true /\
  clock (sys s_hit1) - lastSliceTime (game s_hit1) = 2000 /\ combo (game s_hit1) = 1.
Proof. vm_compute. repeat split. Qed.


(** C7: a Freeze hit sets [freezeActive], the engine time scale to 0.5 and
    doubles the spawn delay at once, and schedules a FreezeEnd timer 5000 ms
    later.  Over any run from a reachable state with activations [A] logged
    during the run: from a state with no pending FreezeEnd timer, Freeze stays
    active until 5000 ms after the first activation; once more than 5000 ms
    have passed since the last activation, Freeze is off, the time scale is
    back to 1 and the spawn delay is the baseline; and more generally Freeze
    is already off once more than 5000 ms have passed since any activation
    [v] with no activation at or after [v + 5000]: a later activation does
    not cancel [v]'s timer, which ends Freeze early. *)
Lemma freeze_timeline M :
  (forall sdx sdy fr s, fr_type fr = FreezeBanana ->
     let s' := normal_hit M sdx sdy fr s in
     freezeActive (game s') = true /\
     option_map timeScale (engine (world s')) =
       match engine (world s) with Some _ => Some (1#2) | None => None end /\
     freezeLog (ghost s') = freezeLog (ghost s) ++ [clock (sys s)] /\
     In (mkTimer (nextHandle (sys s)) (clock (sys s) + 5000) CbFreezeEnd None) (timers (sys s')) /\
     spawn_delay (game s') =
       (if frenzyActive (game s') then 300 else Z.max 600 (2000 - score (game s') / 50 * 100)) * 2) /\
  (forall s evs A,
     reachable M s -> run_ok M s evs = true ->
     freezeLog (ghost (run M s evs)) = freezeLog (ghost s) ++ A ->
     let s' := run M s evs in
     ((forall x, In x (timers (sys s)) -> t_cb x <> CbFreezeEnd) ->
        forall t L, A = t :: L -> clock (sys s') < t + 5000 -> freezeActive (game s') = true) /\
     (forall v, In v A -> v + 5000 < clock (sys s') -> (forall u, In u A -> u < v + 5000) ->
        freezeActive (game s') = false /\
        (option_map timeScale (engine (world s')) = None \/
         option_map timeScale (engine (world s')) = Some 1%Q) /\
        spawn_delay (game s') =
          if frenzyActive (game s') then 300 else Z.max 600 (2000 - score (game s') / 50 * 100)) /\
     (forall pre t, A = pre ++ [t] -> t + 5000 < clock (sys s') ->
        freezeActive (game s') = false /\
        (option_map timeScale (engine (world s')) = None \/
         option_map timeScale (engine (world s')) = Some 1%Q) /\
        spawn_delay (game s') =
          if frenzyActive (game s') then 300 else Z.max 600 (2000 - score (game s') / 50 * 100))).
Proof.
  split; [apply freeze_hit_effect|].
  intros s evs A Hr Hok Hlog s'.
  destruct (freeze_all_run M s evs A Hr Hok Hlog) as [Hord Hoff].
  pose proof (reachable_good M _ (reachable_run M s evs Hr Hok)) as G.
  assert (Off : forall v, In v A -> v + 5000 < clock (sys s') -> (forall u, In u A -> u < v + 5000) ->
        freezeActive (game s') = false /\
        (option_map timeScale (engine (world s')) = None \/
         option_map timeScale (engine (world s')) = Some 1%Q) /\
        spawn_delay (game s') =
          if frenzyActive (game s') then 300 else Z.max 600 (2000 - score (game s') / 50 * 100)).
  { intros v Hv Hlt Hall. pose proof (Hoff v Hv Hlt Hall) as Hf. subst s'.
    split; [exact Hf|]. split.
    - destruct (option_map timeScale (engine (world (run M s evs)))) as [q|] eqn:Eq; [right|left; reflexivity].
      rewrite (gd_timescale _ G q Eq). change (c_game (ctl (run M s evs))) with (game (run M s evs)).
      rewrite Hf. reflexivity.
    - rewrite spawn_delay_closed, Hf. lia. }
  split; [|split; [exact Off|]].
  - intros Hno t L E Hlt. subst A.
    exact (proj1 (freeze_restored M s evs t L Hr Hno Hok Hlog) Hlt).
  - intros pre t E Hlt. apply (Off t); [rewrite E; apply in_snoc; right; reflexivity|exact Hlt|].
    intros u Hu. rewrite E in Hu. apply in_snoc in Hu as [Hu| ->]; [|lia].
    specialize (Hord pre t E u Hu). lia.
Qed.

Lemma freeze_timeline_witness :
  reachable M0 s_started /\
  run_ok M0 s_started (ev_hit1 ++ ev_hit2 ++ [EvAdvance 1]) = true /\
  freezeLog (ghost (run M0 s_started (ev_hit1 ++ ev_hit2 ++ [EvAdvance 1]))) =
    freezeLog (ghost s_started) ++ [5000; 7000] /\
  clock (sys (run M0 s_started (ev_hit1 ++ ev_hit2 ++ [EvAdvance 1]))) = 10001 /\
  freezeActive (game (run M0 s_started (ev_hit1 ++ ev_hit2 ++ [EvAdvance 1]))) = false.
Proof.
  assert (H1 : reachable M0 s_started) by (apply reach_M0; vm_compute; reflexivity).
  assert (H2 : run_ok M0 s_started (ev_hit1 ++ ev_hit2 ++ [EvAdvance 1]) = true) by (vm_compute; reflexivity).
  assert (H3 : freezeLog (ghost (run M0 s_started (ev_hit1 ++ ev_hit2 ++ [EvAdvance 1]))) =
    freezeLog (ghost s_started) ++ [5000; 7000]) by (vm_compute; reflexivity).
  assert (H4 : clock (sys (run M0 s_started (ev_hit1 ++ ev_hit2 ++ [EvAdvance 1]))) = 10001)
    by (vm_compute; reflexivity).
  split; [exact H1|]. split; [exact H2|]. split; [exact H3|]. split; [exact H4|].
  refine (proj1 (proj1 (proj2 (proj2 (freeze_timeline M0) s_started _ [5000; 7000] H1 H2 H3)) 5000 _ _ _)).
  - left. reflexivity.
  - rewrite H4. lia.
  - intros u [<-|[<-|[]]]; lia.
Defined.

(** Two Freeze hits 2000 ms apart: 3000 ms after the second one the time
    scale is already back to 1, since the first activation's timer ends Freeze. *)
Lemma freeze_second_activation_cut_short :
  run_ok M0 s_mount (ev_countdown ++ ev_hit1 ++ ev_hit2) = true /\
  freezeLog (ghost s_hit2) = [5000; 7000] /\ clock (sys s_hit2) = 10000 /\
  freezeActive (game s_hit2) = false /\
  option_map timeScale (engine (world s_hit2)) = Some 1%Q.
Proof. vm_compute. repeat split. Qed.


(** C8: one smoothing update of a hand slot with a raw target [t] and a
    smoothed position [p] stores [smooth t p] and remembers [p]; each
    coordinate of [smooth t p] is [p + (t - p) * clamp(0.2 + distance * 8,
    0.2, 0.8)], where distance is the [Math.sqrt] of the squared displacement. *)
Lemma smooth_step M i s t p :
  nth i (rawHand (hands s)) None = Some t -> nth i (handPos (hands s)) None = Some p ->
  (i < List.length (handPos (hands s)))%nat -> (i < List.length (lastHandPos (hands s)))%nat ->
  (0 <= m_sqrt M ((px t - px p) * (px t - px p) + (py t - py p) * (py t - py p)))%Q ->
  nth i (handPos (hands (update_hand_slot M i s))) None = Some (smooth M t p) /\
  nth i (lastHandPos (hands (update_hand_slot M i s))) None = Some p /\
  (px (smooth M t p) == px p + (px t - px p) *
     Qmax (2#10) (Qmin ((2#10) + m_sqrt M ((px t - px p) * (px t - px p) + (py t - py p) * (py t - py p)) * 8) (8#10)))%Q /\
  (py (smooth M t p) == py p + (py t - py p) *
     Qmax (2#10) (Qmin ((2#10) + m_sqrt M ((px t - px p) * (px t - px p) + (py t - py p) * (py t - py p)) * 8) (8#10)))%Q.
Proof.
  intros Ht Hp Hl1 Hl2 Hd.
  split; [|split; [|split]].
  - unfold update_hand_slot. rewrite Ht, Hp. cbn [update_slot hands handPos].
    apply nth_replace_nth. exact Hl1.
  - unfold update_hand_slot. rewrite Ht, Hp. cbn [update_slot hands lastHandPos].
    apply nth_replace_nth. exact Hl2.
  - unfold smooth. cbn [px]. rewrite (gain_clamp _ Hd). reflexivity.
  - unfold smooth. cbn [py]. rewrite (gain_clamp _ Hd). reflexivity.
Qed.

Lemma smooth_step_witness :
  let t := mkPt (53#100) (1#2) in let p := mkPt (1#2) (1#2) in
  nth 0 (rawHand (hands s_smooth)) None = Some t /\ nth 0 (handPos (hands s_smooth)) None = Some p /\
  (px (smooth M0 t p) == px p + (px t - px p) *
     Qmax (2#10) (Qmin ((2#10) + m_sqrt M0 ((px t - px p) * (px t - px p) + (py t - py p) * (py t - py p)) * 8) (8#10)))%Q.
Proof.
  intros t p.
  assert (H1 : nth 0 (rawHand (hands s_smooth)) None = Some t) by reflexivity.
  assert (H2 : nth 0 (handPos (hands s_smooth)) None = Some p) by reflexivity.
  assert (H3 : (0 < List.length (handPos (hands s_smooth)))%nat) by (vm_compute; lia).
  assert (H4 : (0 < List.length (lastHandPos (hands s_smooth)))%nat) by (vm_compute; lia).
  assert (H5 : (0 <= m_sqrt M0 ((px t - px p) * (px t - px p) + (py t - py p) * (py t - py p)))%Q)
    by (apply Qle_bool_imp_le; vm_compute; reflexivity).
  split; [exact H1|]. split; [exact H2|].
  exact (proj1 (proj2 (proj2 (smooth_step M0 0 s_smooth t p H1 H2 H3 H4 H5)))).
Defined.

(** C9: along any sequence of particle, debris and render operations on pools
    of the initial sizes, the pools keep their sizes, the active slots never
    exceed 200 particles and 30 debris pieces, producers never overwrite an
    active slot, and the first inactive slot is the one the next producer
    claims. *)
Lemma pool_invariants M ops f d :
  List.length (particlePool f) = MAX_PARTICLES -> List.length (debrisPool f) = MAX_DEBRIS ->
  let f' := fst (apply_ops M ops (f, d)) in
  let d' := snd (apply_ops M ops (f, d)) in
  List.length (particlePool f') = MAX_PARTICLES /\ List.length (debrisPool f') = MAX_DEBRIS /\
  (List.length (filter p_active (particlePool f')) <= MAX_PARTICLES)%nat /\
  (List.length (filter d_active (debrisPool f')) <= MAX_DEBRIS)%nat /\
  (forall op j a, is_producer op = true ->
     nth_error (particlePool f') j = Some a -> p_active a = true ->
     nth_error (particlePool (fst (apply_op M (f', d') op))) j = Some a) /\
  (forall op j a, is_producer op = true ->
     nth_error (debrisPool f') j = Some a -> d_active a = true ->
     nth_error (debrisPool (fst (apply_op M (f', d') op))) j = Some a) /\
  (forall x y c e j a, activeParticleCount f' <= 100 ->
     nth_error (particlePool f') j = Some a -> p_active a = false ->
     (forall j' b, (j' < j)%nat -> nth_error (particlePool f') j' = Some b -> p_active b = true) ->
     nth_error (particlePool (fst (createParticles M x y c e f' d'))) j =
       Some (fst (burst_particle M x y c e (if e then 2 else 1)%Q 0 d'))) /\
  (forall x y ty r vx vy j a,
     nth_error (debrisPool f') j = Some a -> d_active a = false ->
     (forall j' b, (j' < j)%nat -> nth_error (debrisPool f') j' = Some b -> d_active b = true) ->
     nth_error (debrisPool (fst (createDebris M x y ty r vx vy f' d'))) j =
       Some (fst (debris_piece M x y ty r vx vy 0 d'))).
Proof.
  intros Hp Hd f' d'.
  destruct (apply_ops_length M ops (f, d)) as [Lp Ld]. cbn [fst] in Lp, Ld.
  fold f' in Lp, Ld.
  split; [congruence|]. split; [congruence|].
  split; [rewrite <- Hp, <- Lp; apply filter_length_le|].
  split; [rewrite <- Hd, <- Ld; apply filter_length_le|].
  split; [|split; [|split]].
  - intros op j a Hop Hj Ha. destruct op as [x y c e|x y ty r vx vy|h]; [| |discriminate].
    + destruct (createParticles_keeps M x y c e f' d') as (_ & _ & K). exact (K j a Hj Ha).
    + destruct (createDebris_keeps M x y ty r vx vy f' d') as (_ & D & _).
      cbn [apply_op]. rewrite D. exact Hj.
  - intros op j a Hop Hj Ha. destruct op as [x y c e|x y ty r vx vy|h]; [| |discriminate].
    + destruct (createParticles_keeps M x y c e f' d') as (_ & D & _).
      cbn [apply_op]. rewrite D. exact Hj.
    + destruct (createDebris_keeps M x y ty r vx vy f' d') as (_ & _ & K). exact (K j a Hj Ha).
  - intros x y c e j a Hc Hj Ha Hb. unfold createParticles.
    replace (100 <? activeParticleCount f') with false by (symmetry; apply Z.ltb_ge; exact Hc).
    cbv zeta.
    match goal with |- context [claim p_active ?i 0 ?n (particlePool f') d'] =>
      destruct (claim p_active i 0 n (particlePool f') d') as [[p1 k1] d1] eqn:C1 end.
    pose proof (claim_first_free _ _ _ _ _ _ _ _ _ j a C1 Hj Ha Hb) as F.
    assert (F' : nth_error p1 j = Some (fst (burst_particle M x y c e (if e then 2 else 1)%Q 0 d')))
      by (apply F; destruct e; lia).
    destruct e; [exact F'|].
    match goal with |- context [claim p_active ?i 0 8 p1 d1] =>
      destruct (claim p_active i 0 8 p1 d1) as [[p2 k2] d2] eqn:C2 end.
    cbn. apply (proj2 (claim_keeps _ _ _ _ _ _ _ _ _ C2) j _ F'). apply burst_active.
  - intros x y ty r vx vy j a Hj Ha Hb. unfold createDebris.
    match goal with |- context [claim d_active ?i 0 2 (debrisPool f') d'] =>
      destruct (claim d_active i 0 2 (debrisPool f') d') as [[p1 k1] d1] eqn:C1 end.
    cbn. apply (claim_first_free _ _ _ _ _ _ _ _ _ j a C1 Hj Ha Hb). lia.
Qed.

Lemma pool_invariants_witness :
  List.length (particlePool (fx s_mount)) = MAX_PARTICLES /\
  List.length (debrisPool (fx s_mount)) = MAX_DEBRIS /\
  (List.length (filter p_active (particlePool (fst (apply_ops M0 ops0 (fx s_mount, 0%nat))))) <= MAX_PARTICLES)%nat.
Proof.
  assert (H1 : List.length (particlePool (fx s_mount)) = MAX_PARTICLES) by (vm_compute; reflexivity).
  assert (H2 : List.length (debrisPool (fx s_mount)) = MAX_DEBRIS) by (vm_compute; reflexivity).
  split; [exact H1|]. split; [exact H2|].
  destruct (pool_invariants M0 ops0 (fx s_mount) 0%nat H1 H2) as (_ & _ & H & _). exact H.
Defined.

(** C10: when a hand's slicing pass ends on a bomb, no fruit or engine body is
    removed in that pass (the fruit map and the engine bodies only grow), while
    the hits of that pass before the bomb are scored, get popups and drive the
    combo: they follow the combo rule one after the other from the combo and
    [lastSliceTime] before the pass, and the combo and [lastSliceTime] after
    the pass are those of the last of them (unchanged if there is none). *)
Lemma bomb_pass_keeps_bodies M i s s1 :
  slice_hand M i s = (s1, true) ->
  (exists ex, fruits (world s1) = fruits (world s) ++ ex) /\
  (forall e, engine (world s) = Some e ->
     exists e' ex, engine (world s1) = Some e' /\ worldBodies e' = worldBodies e ++ ex) /\
  (exists hs, hitlog (ghost s1) = hitlog (ghost s) ++ hs /\
     score (game s1) = score (game s) + fold_right Z.add 0 (map hr_points hs) /\
     List.length (popups (fx s1)) = (List.length (popups (fx s)) + List.length hs)%nat /\
     hits_from (combo (game s)) (lastSliceTime (game s)) hs (combo (game s1)) (lastSliceTime (game s1)) /\
     Forall hit_ok hs).
Proof.
  intros Hs.
  destruct (slice_hand_bomb_pass M i s s1 Hs) as (fuel & cx & cy & sdx & sdy & s0 & rem & Hp & ->).
  destruct (hand_pass_aux M _ _ _ _ _ _ _ _ _ _ _ Hp) as ([Gf Ge] & _ & (hs & Hh & Hsc & Hpop)).
  destruct (hand_pass_chain M _ _ _ _ _ _ _ _ _ _ _ Hp) as (hs' & Hh' & Hc).
  rewrite Hh in Hh'. apply app_inv_head in Hh'. subst hs'.
  split; [exact Gf|split; [exact Ge|]].
  exists hs. split; [exact Hh|split; [exact Hsc|split; [exact Hpop|]]].
  split; [exact Hc|exact (hits_from_forall _ _ _ _ _ Hc)].
Qed.

Lemma bomb_pass_keeps_bodies_witness :
  slice_hand M1 0 s_pass = (fst (slice_hand M1 0 s_pass), true) /\
  (exists ex, fruits (world (fst (slice_hand M1 0 s_pass))) = fruits (world s_pass) ++ ex).
Proof.
  assert (H : slice_hand M1 0 s_pass = (fst (slice_hand M1 0 s_pass), true)) by (vm_compute; reflexivity).
  split; [exact H|]. exact (proj1 (bomb_pass_keeps_bodies M1 0 s_pass _ H)).
Defined.

(** * Further properties of the view *)


(** The timed effects of the view and their end callbacks. *)

Lemma Callback_dec (a b : Callback) : {a = b} + {a <> b}.
Proof. decide equality. Defined.

Lemma ctl_reach_ind (I : Ctl -> Prop) :
  (forall now w h, I (ctl (mount false now w h))) ->
  (forall c c', GoodC c -> I c -> cstep c c' -> I c') ->
  forall M s, reachable M s -> I (ctl s).
Proof.
  intros Hb Hs M s Hr. induction Hr as [cam now w h|s ev Hr IH Hen].
  - destruct cam; [|apply Hb].
    apply (Hs (ctl (mount false now w h))); [apply good_mount|apply Hb|].
    unfold mount. cbv zeta. rewrite startCountdown_ctl. exact (cs_hand _ true).
  - apply (Hs (ctl s)); [apply (reachable_good M s Hr)|exact IH|apply step_cstep, Hen].
Qed.

Lemma ctl_moves_ind (I : Ctl -> Prop) :
  (forall c c', GoodC c -> I c -> cmove c c' -> I c') ->
  forall c c', GoodC c -> I c -> clos_refl_trans Ctl cmove c c' -> I c'.
Proof.
  intros Hm c c' G K H. apply clos_rt_rt1n in H. revert G K.
  induction H as [x|x y z H1 _ IH]; intros G K; [exact K|].
  apply IH; [exact (good_cmove _ _ G H1)|exact (Hm _ _ G K H1)].
Qed.

Lemma fk_refl fl c : fl_keeps fl c c.
Proof. repeat split; auto; lia. Qed.

Lemma fk_trans fl c1 c2 c3 : fl_keeps fl c1 c2 -> fl_keeps fl c2 c3 -> fl_keeps fl c1 c3.
Proof. intros (A1 & B1 & C1) (A2 & B2 & C2). repeat split; auto; lia. Qed.

Lemma exp_keeps fl c c' : expiring fl c -> fl_keeps fl c c' -> expiring fl c'.
Proof.
  intros E (A & B & C) H. destruct (E (A H)) as (t & Ht & Hc & Hd).
  exists t. repeat split; auto; lia.
Qed.

Lemma fk_setTimer fl cb d p c : fl_keeps fl c (snd (cSetTimer cb d p c)).
Proof. repeat split; cbn; auto; try lia. intros t Ht _. apply in_snoc. auto. Qed.

Lemma exp_setTimer fl c : expiring fl (snd (cSetTimer (flag_cb fl) (flag_len fl) None c)).
Proof.
  intros _. exists (mkTimer (c_next c) (c_clock c + flag_len fl) (flag_cb fl) None).
  cbn. split; [apply in_snoc; right; reflexivity|]. split; [reflexivity|lia].
Qed.

Lemma fk_clear fl h c : (forall x, In x (c_timers c) -> t_handle x = h -> t_cb x <> flag_cb fl) ->
  fl_keeps fl c (cClear h c).
Proof.
  intros H. repeat split; cbn; auto; try lia.
  intros x Hx Hx'. apply in_filter_handle. split; [exact Hx|]. intros E. exact (H x Hx E Hx').
Qed.

Lemma fk_setgame fl g c : (flag_on fl g = true -> flag_on fl (c_game c) = true) ->
  fl_keeps fl c (set_c_game g c).
Proof. intros H. repeat split; cbn; auto; lia. Qed.

Ltac fk_other := repeat split;
  cbn [c_game c_timers c_clock set_c_navs set_c_ts set_c_spawnerH set_c_countdownH set_c_hitlog
       set_c_lifelog set_c_freezeLog set_c_next set_c_timers set_c_game cSetTimer cUpdGame fst snd]; auto; lia.

Lemma fk_cleanup fl c : TimersOk c -> fl_keeps fl c (cCleanup c).
Proof.
  intros HT. destruct (cleanup_fields c) as (Hg & _ & _ & Hk & _).
  repeat split.
  - rewrite Hg. auto.
  - intros x Hx Hx'. apply cleanup_keeps; auto; rewrite Hx'; destruct fl; discriminate.
  - rewrite Hk. lia.
Qed.

Lemma fk_gameOver fl c : TimersOk c -> fl_keeps fl c (cGameOver c).
Proof. intros HT. unfold cGameOver, cGoHome. cbv zeta. eapply fk_trans; [apply fk_cleanup, HT|fk_other]. Qed.

Lemma fk_goHome fl c : TimersOk c -> fl_keeps fl c (cGoHome c).
Proof. intros HT. unfold cGameOver, cGoHome. cbv zeta. eapply fk_trans; [apply fk_cleanup, HT|fk_other]. Qed.

Lemma fk_spawnLoop fl c : fl_keeps fl c (cSpawnLoop c).
Proof. unfold cSpawnLoop. eapply fk_trans; [apply (fk_setTimer fl CbSpawnLoop (spawn_delay (c_game c)) None)|fk_other]. Qed.

Lemma fk_startSpawning fl c : TimersOk c -> fl_keeps fl c (cStartSpawning c).
Proof.
  intros HT. unfold cStartSpawning. destruct (c_spawnerH c) as [h|] eqn:Hs; [|apply fk_spawnLoop].
  eapply fk_trans; [|apply fk_spawnLoop]. apply fk_clear.
  intros x Hx Hh. rewrite (proj2 (to_spawnerH _ HT h Hs) x Hx Hh). destruct fl; discriminate.
Qed.

Lemma fk_startCountdown fl c : fl_keeps fl c (cStartCountdown c).
Proof.
  unfold cStartCountdown. eapply fk_trans; [apply (fk_setTimer fl CbCountdownTick 1000 (Some 1000))|fk_other].
Qed.

Lemma exp_activateFreeze fl c : TimersOk c -> expiring fl c -> expiring fl (cActivateFreeze c).
Proof.
  intros HT E. unfold cActivateFreeze. destruct fl; [| |apply (exp_setTimer FFreeze)].
  all: eapply exp_keeps; [exact E|].
  all: repeat split; cbn; auto; try lia; intros t Ht _; apply in_snoc; auto.
Qed.

Lemma exp_activateFrenzy fl c : TimersOk c -> expiring fl c -> expiring fl (cActivateFrenzy c).
Proof.
  intros HT E. unfold cActivateFrenzy. destruct fl; [| apply (exp_setTimer FFrenzy)|].
  all: eapply exp_keeps; [exact E|].
  all: apply (fk_trans _ _ (cUpdGame (set_frenzyActive true) c)); [apply fk_setgame; cbn; auto|].
  all: eapply fk_trans; [apply fk_startSpawning, to_game, HT|apply fk_setTimer].
Qed.

Lemma exp_triggerHitStop fl c : expiring fl c -> expiring fl (cTriggerHitStop c).
Proof.
  intros E. unfold cTriggerHitStop. destruct fl; [apply (exp_setTimer FHitStop)| |].
  all: eapply exp_keeps; [exact E|].
  all: repeat split; cbn; auto; try lia; intros t Ht _; apply in_snoc; auto.
Qed.

Lemma exp_hit_tail fl c : expiring fl c -> expiring fl (hit_tail c).
Proof.
  intros E. unfold hit_tail. pose proof (exp_triggerHitStop fl c E) as E1.
  revert E1. generalize (cTriggerHitStop c) as c1. intros c1 E1. cbv zeta.
  eapply exp_keeps; [exact E1|].
  destruct fl; repeat split; cbn; auto; lia.
Qed.

Lemma exp_normalHit fl ty c : TimersOk c -> expiring fl c -> expiring fl (cNormalHit ty c).
Proof.
  intros HT E. rewrite normalHit_tail. apply exp_hit_tail.
  destruct ty; auto; [apply exp_activateFreeze|apply exp_activateFrenzy]; auto.
Qed.

Lemma fk_bombExit fl c : fl_keeps fl c (cBombExit c).
Proof.
  unfold cBombExit. destruct fl; repeat split; cbn; auto; try lia; intros t Ht _; apply in_snoc; auto.
Qed.

Lemma fk_miss fl id y vy h c : TimersOk c -> fl_keeps fl c (cMiss id y vy h c).
Proof.
  intros HT. unfold cMiss. destruct (gameStarted (c_game c)); [|apply fk_refl].
  cbv zeta.
  assert (F1 : fl_keeps fl c (set_c_lifelog (c_lifelog (cUpdGame (fun g => set_lives (lives g - 1) g) c) ++
                  [mkLifeRec id y vy h (gameStarted (c_game (cUpdGame (fun g => set_lives (lives g - 1) g) c)))])
                  (cUpdGame (fun g => set_lives (lives g - 1) g) c)))
    by (destruct fl; repeat split; cbn; auto; lia).
  destruct (_ <=? 0); [|exact F1].
  eapply fk_trans; [exact F1|]. apply fk_gameOver, to_lifelog, to_game, HT.
Qed.

Lemma flag_off_after_end fl c : flag_on fl (c_game (cRunCallback (flag_cb fl) c)) = false.
Proof. destruct fl; reflexivity. Qed.

Lemma fk_runCallback fl cb c : cb <> flag_cb fl -> TimersOk c -> fl_keeps fl c (cRunCallback cb c).
Proof.
  intros Hcb HT. destruct cb; cbn [cRunCallback].
  - apply fk_spawnLoop.
  - cbv zeta.
    set (c1 := cUpdGame (fun g => set_countdown (countdown g - 1) g) c).
    assert (F1 : fl_keeps fl c c1) by (apply fk_setgame; destruct fl; cbn; auto).
    assert (T1 : TimersOk c1) by (apply to_game, HT).
    destruct (countdown (c_game c1) <=? 0); [|exact F1].
    eapply fk_trans; [exact F1|].
    set (c2 := match c_countdownH c1 with Some h => cClear h c1 | None => c1 end).
    assert (F2 : fl_keeps fl c1 c2 /\ TimersOk c2).
    { unfold c2. destruct (c_countdownH c1) as [h|] eqn:Hc; [|split; [apply fk_refl|exact T1]].
      split; [|apply to_clear, T1]. apply fk_clear.
      intros x Hx Hh. rewrite (proj2 (to_countdownH _ T1 h Hc) x Hx Hh). destruct fl; discriminate. }
    destruct F2 as [F2 T2].
    eapply fk_trans; [exact F2|].
    apply (fk_trans _ _ (cUpdGame (set_gameStarted true) (set_c_countdownH None c2)));
      [destruct fl; repeat split; cbn; auto; lia|].
    apply fk_startSpawning, to_game, to_countdown_none, T2.
  - destruct fl; cbn in Hcb; try congruence.
    all: repeat split; cbn; auto; lia.
  - destruct fl; cbn in Hcb; try congruence.
    all: apply fk_setgame; cbn; auto.
  - apply fk_gameOver, HT.
  - destruct fl; cbn in Hcb; try congruence.
    all: apply fk_setgame; cbn; auto.
Qed.

Lemma exp_fire fl h c : TimersOk c -> expiring fl c -> expiring fl (cFire h c).
Proof.
  intros HT E. unfold cFire.
  destruct (find (fun t => (t_handle t =? h)%nat) (c_timers c)) as [tm|] eqn:Ef; [|exact E].
  pose proof Ef as Ef'. apply find_handle in Ef' as [Ht Hh]. cbv zeta.
  destruct (Callback_dec (t_cb tm) (flag_cb fl)) as [Ecb|Ecb].
  - rewrite Ecb. intros Hon. rewrite flag_off_after_end in Hon. discriminate.
  - eapply exp_keeps; [|apply fk_runCallback; [exact Ecb|apply to_requeue; auto]].
    eapply exp_keeps; [exact E|].
    assert (Hr : forall x, In x (c_timers c) -> t_handle x = h -> t_cb x <> flag_cb fl).
    { intros x Hx Hxh. assert (x = tm) as -> by (apply (nodup_same_handle (c_timers c)); auto;
        [apply (to_nodup _ HT)|congruence]). exact Ecb. }
    destruct (t_period tm) as [p|].
    + repeat split; cbn; auto; try lia.
      intros x Hx Hx'. apply in_snoc. left. apply in_filter_handle. split; [exact Hx|].
      intros E'. exact (Hr x Hx E' Hx').
    + apply (fk_clear fl h c Hr).
Qed.

Lemma exp_cstep fl c c' : GoodC c -> expiring fl c -> cstep c c' -> expiring fl c'.
Proof.
  intros G K Hs. destruct Hs as [c c' Hm|c ready|c dt Hdt Hd|c h Hex|c].
  - revert G K Hm. apply ctl_moves_ind. clear c c'.
    intros c c' G K Hm. destruct Hm as [ty c _ _|c _ _|id y vy h c _ _ _].
    + apply exp_normalHit; [apply (gd_timers _ G)|exact K].
    + eapply exp_keeps; [exact K|apply fk_bombExit].
    + eapply exp_keeps; [exact K|apply fk_miss, (gd_timers _ G)].
  - destruct (loading (c_game c) && ready); [|exact K].
    eapply exp_keeps; [exact K|].
    apply (fk_trans _ _ (cUpdGame (set_loading false) c)); [|apply fk_startCountdown].
    destruct fl; repeat split; cbn; auto; lia.
  - intros Hon. destruct (K Hon) as (t & Ht & Hc & Hdue).
    exists t. cbn. repeat split; auto. lia.
  - exact (exp_fire _ _ _ (gd_timers _ G) K).
  - eapply exp_keeps; [exact K|apply fk_goHome, (gd_timers _ G)].
Qed.

Lemma exp_mount fl now w h : expiring fl (ctl (mount false now w h)).
Proof. intros H. destruct fl; discriminate H. Qed.

Lemma exp_reachable fl M s : reachable M s -> expiring fl (ctl s).
Proof.
  apply (ctl_reach_ind (expiring fl)); [apply exp_mount|].
  intros c c' G K H. exact (exp_cstep fl c c' G K H).
Qed.

(** X1: While a timed effect is on (hit-stop, frenzy, freeze), its end timer is
    pending and due within the effect's length (50 ms, 5 s, 5 s) of the
    current time, so the effect always ends. *)
Theorem effects_expire M s : reachable M s ->
  (hitStopActive (game s) = true -> exists t, In t (timers (sys s)) /\
     t_cb t = CbHitStopEnd /\ t_due t <= clock (sys s) + 50) /\
  (frenzyActive (game s) = true -> exists t, In t (timers (sys s)) /\
     t_cb t = CbFrenzyEnd /\ t_due t <= clock (sys s) + 5000) /\
  (freezeActive (game s) = true -> exists t, In t (timers (sys s)) /\
     t_cb t = CbFreezeEnd /\ t_due t <= clock (sys s) + 5000).
Proof.
  intros Hr. split; [|split]; [exact (exp_reachable FHitStop M s Hr)
    |exact (exp_reachable FFrenzy M s Hr)|exact (exp_reachable FFreeze M s Hr)].
Qed.

Lemma effects_expire_witness : reachable M0 s_fx /\
  hitStopActive (game s_fx) = true /\ freezeActive (game s_fx) = true /\
  (exists t, In t (timers (sys s_fx)) /\ t_cb t = CbHitStopEnd /\ t_due t <= clock (sys s_fx) + 50).
Proof.
  assert (H : reachable M0 s_fx) by (apply reachable_run; [apply reach_mount|vm_compute; reflexivity]).
  split; [exact H|]. split; [vm_compute; reflexivity|]. split; [vm_compute; reflexivity|].
  apply (effects_expire M0 s_fx H). vm_compute. reflexivity.
Defined.


(** Every pending spawn timer is the one [fruitSpawnerInterval] names. *)

Lemma sp_keeps_ok c c' : spawn_ok c -> sp_keeps c c' -> spawn_ok c'.
Proof. intros K [A B] t Ht Hc. rewrite A. auto. Qed.

Lemma sk_refl c : sp_keeps c c.
Proof. split; auto. Qed.

Lemma sk_trans c1 c2 c3 : sp_keeps c1 c2 -> sp_keeps c2 c3 -> sp_keeps c1 c3.
Proof. intros [A1 B1] [A2 B2]. split; [congruence|auto]. Qed.

Lemma no_spawn_ok c : no_spawn c -> spawn_ok c.
Proof. intros N t Ht Hc. exfalso. exact (N t Ht Hc). Qed.

Lemma sk_setTimer cb d p c : cb <> CbSpawnLoop -> sp_keeps c (snd (cSetTimer cb d p c)).
Proof.
  intros Hcb. split; [reflexivity|]. cbn. intros t Ht%in_snoc Hc.
  destruct Ht as [Ht| ->]; [exact Ht|cbn in Hc; congruence].
Qed.

Lemma sk_clear h c : sp_keeps c (cClear h c).
Proof. split; [reflexivity|]. cbn. intros t Ht%in_filter_handle _. tauto. Qed.

Lemma sk_setgame g c : sp_keeps c (set_c_game g c).
Proof. split; auto. Qed.

Ltac sk_tac := split; [reflexivity|cbn; intros ? Ht%in_snoc Hc; destruct Ht as [Ht| ->]; [exact Ht|cbn in Hc; discriminate]].

Lemma sp_spawnLoop c : no_spawn c -> spawn_ok (cSpawnLoop c).
Proof.
  intros N t Ht%in_snoc Hc. cbn in *. destruct Ht as [Ht| ->]; [exfalso; exact (N t Ht Hc)|reflexivity].
Qed.

Lemma ns_clear c h : spawn_ok c -> c_spawnerH c = Some h -> no_spawn (cClear h c).
Proof.
  intros K Hs t Ht%in_filter_handle Hc. destruct Ht as [Ht Hne].
  apply Hne. rewrite (K t Ht Hc) in Hs. congruence.
Qed.

Lemma ns_keep c c' : no_spawn c -> sp_keeps c c' -> no_spawn c'.
Proof. intros N [_ B] t Ht Hc. exact (N t (B t Ht Hc) Hc). Qed.

Lemma sp_startSpawning c : spawn_ok c -> spawn_ok (cStartSpawning c).
Proof.
  intros K. unfold cStartSpawning. apply sp_spawnLoop.
  destruct (c_spawnerH c) as [h|] eqn:Hs; [exact (ns_clear c h K Hs)|].
  intros t Ht Hc. rewrite (K t Ht Hc) in Hs. discriminate.
Qed.

Lemma ns_cleanup c : spawn_ok c -> no_spawn (cCleanup c).
Proof.
  intros K. unfold cCleanup. cbv zeta.
  assert (N : no_spawn (match c_spawnerH (set_c_ts None c) with
                        | Some h => set_c_spawnerH None (cClear h (set_c_ts None c))
                        | None => set_c_ts None c end)).
  { cbn [c_spawnerH set_c_ts]. destruct (c_spawnerH c) as [h|] eqn:Hs.
    - intros t Ht Hc. exact (ns_clear c h K Hs t Ht Hc).
    - intros t Ht Hc. rewrite (K t Ht Hc) in Hs. discriminate. }
  revert N. generalize (match c_spawnerH (set_c_ts None c) with
                        | Some h => set_c_spawnerH None (cClear h (set_c_ts None c))
                        | None => set_c_ts None c end) as c2. intros c2 N.
  destruct (c_countdownH c2) as [h|]; [|exact N].
  intros t Ht Hc. cbn in Ht. apply in_filter_handle in Ht as [Ht _]. exact (N t Ht Hc).
Qed.

Lemma sp_gameOver c : spawn_ok c -> spawn_ok (cGameOver c).
Proof. intros K. apply no_spawn_ok. exact (ns_cleanup c K). Qed.

Lemma sp_goHome c : spawn_ok c -> spawn_ok (cGoHome c).
Proof. intros K. apply no_spawn_ok. exact (ns_cleanup c K). Qed.

Lemma sp_startCountdown c : spawn_ok c -> spawn_ok (cStartCountdown c).
Proof. intros K. eapply sp_keeps_ok; [exact K|]. sk_tac. Qed.

Lemma sp_activateFreeze c : spawn_ok c -> spawn_ok (cActivateFreeze c).
Proof. intros K. eapply sp_keeps_ok; [exact K|]. sk_tac. Qed.

Lemma sp_activateFrenzy c : spawn_ok c -> spawn_ok (cActivateFrenzy c).
Proof.
  intros K. unfold cActivateFrenzy. eapply sp_keeps_ok; [|apply sk_setTimer; discriminate].
  apply sp_startSpawning. eapply sp_keeps_ok; [exact K|apply sk_setgame].
Qed.

Lemma sp_hit_tail c : spawn_ok c -> spawn_ok (hit_tail c).
Proof.
  intros K. unfold hit_tail.
  assert (K1 : spawn_ok (cTriggerHitStop c)) by (eapply sp_keeps_ok; [exact K|]; sk_tac).
  revert K1. generalize (cTriggerHitStop c) as c1. intros c1 K1. cbv zeta.
  eapply sp_keeps_ok; [exact K1|]. split; auto.
Qed.

Lemma sp_normalHit ty c : spawn_ok c -> spawn_ok (cNormalHit ty c).
Proof.
  intros K. rewrite normalHit_tail. apply sp_hit_tail.
  destruct ty; auto; [apply sp_activateFreeze|apply sp_activateFrenzy]; exact K.
Qed.

Lemma sp_bombExit c : spawn_ok c -> spawn_ok (cBombExit c).
Proof. intros K. eapply sp_keeps_ok; [exact K|]. sk_tac. Qed.

Lemma sp_miss id y vy h c : spawn_ok c -> spawn_ok (cMiss id y vy h c).
Proof.
  intros K. unfold cMiss. destruct (gameStarted (c_game c)); [|exact K].
  cbv zeta. destruct (_ <=? 0); [apply sp_gameOver|]; (eapply sp_keeps_ok; [exact K|split; auto]).
Qed.

Lemma sp_runCallback cb c : cb <> CbSpawnLoop -> TimersOk c -> spawn_ok c -> spawn_ok (cRunCallback cb c).
Proof.
  intros Hcb HT K. destruct cb; cbn [cRunCallback]; [congruence| | | | |].
  - cbv zeta.
    set (c1 := cUpdGame (fun g => set_countdown (countdown g - 1) g) c).
    assert (K1 : spawn_ok c1) by (eapply sp_keeps_ok; [exact K|apply sk_setgame]).
    destruct (countdown (c_game c1) <=? 0); [|exact K1].
    apply sp_startSpawning. eapply sp_keeps_ok; [exact K1|].
    destruct (c_countdownH c1) as [h|]; split; auto; cbn; auto.
    intros t Ht%in_filter_handle _. tauto.
  - eapply sp_keeps_ok; [exact K|split; auto].
  - eapply sp_keeps_ok; [exact K|split; auto].
  - apply sp_gameOver, K.
  - eapply sp_keeps_ok; [exact K|split; auto].
Qed.

Lemma sp_fire h c : TimersOk c -> spawn_ok c -> spawn_ok (cFire h c).
Proof.
  intros HT K. unfold cFire.
  destruct (find (fun t => (t_handle t =? h)%nat) (c_timers c)) as [tm|] eqn:Ef; [|exact K].
  pose proof Ef as Ef'. apply find_handle in Ef' as [Ht Hh]. cbv zeta.
  destruct (Callback_dec (t_cb tm) CbSpawnLoop) as [Ecb|Ecb].
  - destruct (to_period _ HT tm Ht) as [Ep|[Ec _]]; [|congruence].
    rewrite Ecb, Ep. cbn [cRunCallback]. apply sp_spawnLoop.
    pose proof (K tm Ht Ecb) as Hs. rewrite Hh in Hs.
    exact (ns_clear c h K Hs).
  - apply sp_runCallback; [exact Ecb|apply to_requeue; auto|].
    eapply sp_keeps_ok; [exact K|]. split; [reflexivity|].
    destruct (t_period tm) as [p|]; cbn.
    + intros t Ht'%in_snoc Hc. destruct Ht' as [Ht'| ->]; [|cbn in Hc; congruence].
      apply in_filter_handle in Ht'. tauto.
    + intros t Ht'%in_filter_handle _. tauto.
Qed.

Lemma sp_cstep c c' : GoodC c -> spawn_ok c -> cstep c c' -> spawn_ok c'.
Proof.
  intros G K Hs. destruct Hs as [c c' Hm|c ready|c dt Hdt Hd|c h Hex|c].
  - revert G K Hm. apply ctl_moves_ind. clear c c'.
    intros c c' G K Hm. destruct Hm as [ty c _ _|c _ _|id y vy h c _ _ _].
    + apply sp_normalHit, K.
    + apply sp_bombExit, K.
    + apply sp_miss, K.
  - destruct (loading (c_game c) && ready); [|exact K].
    apply sp_startCountdown. eapply sp_keeps_ok; [exact K|apply sk_setgame].
  - eapply sp_keeps_ok; [exact K|split; auto].
  - exact (sp_fire h c (gd_timers _ G) K).
  - apply sp_goHome, K.
Qed.

Lemma sp_reachable M s : reachable M s -> spawn_ok (ctl s).
Proof.
  apply ctl_reach_ind; [|exact sp_cstep].
  intros now w h t Ht. destruct Ht.
Qed.

(** X2: At most one spawn loop is scheduled: a pending spawn timer is the one
    whose handle [fruitSpawnerInterval] holds, and it is the only pending
    spawn timer. *)
Theorem single_spawn_loop M s t : reachable M s -> In t (timers (sys s)) -> t_cb t = CbSpawnLoop ->
  spawnerH (sys s) = Some (t_handle t) /\
  (forall t', In t' (timers (sys s)) -> t_cb t' = CbSpawnLoop -> t' = t).
Proof.
  intros Hr Ht Hc. pose proof (sp_reachable M s Hr) as K.
  split; [exact (K t Ht Hc)|].
  intros t' Ht' Hc'. pose proof (to_nodup _ (gd_timers _ (reachable_good M s Hr))) as Hn.
  apply (nodup_same_handle (timers (sys s))); auto.
  pose proof (K t Ht Hc) as E1. pose proof (K t' Ht' Hc') as E2. cbn in E1, E2. congruence.
Qed.

Lemma single_spawn_loop_witness : reachable M0 s_fx /\ In t_spawn_fx (timers (sys s_fx)) /\
  spawnerH (sys s_fx) = Some 2%nat /\
  (forall t', In t' (timers (sys s_fx)) -> t_cb t' = CbSpawnLoop -> t' = t_spawn_fx).
Proof.
  assert (H : reachable M0 s_fx) by (apply reachable_run; [apply reach_mount|vm_compute; reflexivity]).
  assert (Hi : In t_spawn_fx (timers (sys s_fx))) by (vm_compute; auto).
  split; [exact H|]. split; [exact Hi|].
  apply (single_spawn_loop M0 s_fx t_spawn_fx H Hi). reflexivity.
Defined.


(** The countdown: between 0 and 5, 5 while loading, at least 1 while a tick
    is pending, 0 once the game has started. *)

Lemma cd_same c c' : cd_ok c ->
  countdown (c_game c') = countdown (c_game c) ->
  (loading (c_game c') = true -> loading (c_game c) = true) ->
  (gameStarted (c_game c') = true -> gameStarted (c_game c) = true) ->
  tfrom c c' not_tick -> cd_ok c'.
Proof.
  intros (A & B & C & D) E1 E2 E3 T. unfold cd_ok. rewrite E1. repeat split; try lia.
  - intros H. apply B, E2, H.
  - intros t Ht Hc. destruct (T t Ht) as [Ho|Hn]; [exact (C t Ho Hc)|contradiction].
  - intros H. apply D, E3, H.
Qed.

Lemma cd_game c c' : cd_ok c -> c_game c' = c_game c -> tfrom c c' not_tick -> cd_ok c'.
Proof. intros K E T. apply (cd_same c c' K); rewrite ?E; auto. Qed.

Lemma tfrom_same_timers c c' P : c_timers c' = c_timers c -> tfrom c c' P.
Proof. intros E t Ht. left. rewrite <- E. exact Ht. Qed.

Lemma tick_weaken c c' P : (forall cb, P cb -> not_tick cb) -> tfrom c c' P -> tfrom c c' not_tick.
Proof. intros H. apply tfrom_weaken, H. Qed.

Lemma gameOver_game c : c_game (cGameOver c) = c_game c.
Proof. exact (proj1 (cleanup_fields c)). Qed.

Lemma goHome_game c : c_game (cGoHome c) = c_game c.
Proof. exact (proj1 (cleanup_fields c)). Qed.

Lemma startSpawning_game c : c_game (cStartSpawning c) = c_game c.
Proof. unfold cStartSpawning. destruct (c_spawnerH c); reflexivity. Qed.

Lemma normalHit_countdown ty c : countdown (c_game (cNormalHit ty c)) = countdown (c_game c).
Proof.
  destruct c as [g ts nv tm nx sp cd clk hl fl ll].
  destruct ty; cbn; try destruct sp; reflexivity.
Qed.

Lemma cd_normalHit ty c : cd_ok c -> cd_ok (cNormalHit ty c).
Proof.
  intros K. destruct (normalHit_fields ty c) as (_ & Hl & Hg & _).
  apply (cd_same c _ K); [apply normalHit_countdown|rewrite Hl; auto|rewrite Hg; auto|].
  eapply tick_weaken; [|apply tfrom_normalHit]. intros cb [H _]. exact H.
Qed.

Lemma cd_bombExit c : cd_ok c -> cd_ok (cBombExit c).
Proof.
  intros K. unfold cBombExit. apply (cd_same c _ K); [reflexivity|cbn; auto|cbn; intros H; discriminate H|].
  apply (tfrom_trans _ (cUpdGame (set_gameStarted false) c)); [apply tfrom_same_timers; reflexivity|].
  eapply tick_weaken; [|apply tfrom_setTimer]. intros cb ->. discriminate.
Qed.

Lemma cd_miss id y vy h c : cd_ok c -> cd_ok (cMiss id y vy h c).
Proof.
  intros K. pose proof (tfrom_miss id y vy h c not_tick) as T.
  unfold cMiss in *. destruct (gameStarted (c_game c)) eqn:Eg; [|exact K].
  cbv zeta in *. destruct (_ <=? 0).
  all: apply (cd_same c _ K); [| | |exact T]; rewrite ?gameOver_game; cbn; auto.
Qed.

Lemma cd_runCallback cb c : cb <> CbCountdownTick -> cd_ok c -> cd_ok (cRunCallback cb c).
Proof.
  intros Hcb K. destruct cb; cbn [cRunCallback]; [| congruence | | | |].
  - apply (cd_game c _ K); [reflexivity|]. eapply tick_weaken; [|apply tfrom_spawnLoop].
    intros cb ->. discriminate.
  - apply (cd_same c _ K); cbn; auto. apply tfrom_same_timers. reflexivity.
  - apply (cd_same c _ K); cbn; auto. apply tfrom_same_timers. reflexivity.
  - apply (cd_game c _ K); [apply gameOver_game|apply tfrom_gameOver].
  - apply (cd_same c _ K); cbn; auto. apply tfrom_same_timers. reflexivity.
Qed.

Lemma cd_tick h c : GoodC c -> c_countdownH c = Some h -> loading (c_game c) = false ->
  gameStarted (c_game c) = false -> 1 <= countdown (c_game c) -> cd_ok c ->
  cd_ok (cRunCallback CbCountdownTick c).
Proof.
  intros G Hh Hlo Hg H1 (A & B & C & D). cbn [cRunCallback]. cbv zeta.
  cbn [cUpdGame set_c_game c_game c_countdownH countdown set_countdown]. rewrite Hh.
  destruct (countdown (c_game c) - 1 <=? 0) eqn:E.
  - apply Z.leb_le in E. unfold cd_ok. rewrite startSpawning_game. cbn.
    split; [lia|]. split; [rewrite Hlo; discriminate|]. split; [|intros _; lia].
    intros t Ht Hc. destruct (tfrom_startSpawning _ t Ht) as [Ho|Hs]; [|rewrite Hs in Hc; discriminate].
    cbn in Ho. apply in_filter_handle in Ho as [Ho Hne].
    destruct (gd_countdown _ G t Ho Hc) as [_ E2]. rewrite Hh in E2. congruence.
  - apply Z.leb_gt in E. unfold cd_ok. cbn.
    split; [lia|]. split; [rewrite Hlo; discriminate|]. split; [intros; lia|].
    rewrite Hg. discriminate.
Qed.

Lemma cd_fire h c : GoodC c -> cd_ok c -> cd_ok (cFire h c).
Proof.
  intros G K. unfold cFire.
  destruct (find (fun t => (t_handle t =? h)%nat) (c_timers c)) as [tm|] eqn:Ef; [|exact K].
  pose proof Ef as Ef'. apply find_handle in Ef' as [Ht Hh]. cbv zeta.
  destruct (Callback_dec (t_cb tm) CbCountdownTick) as [Ecb|Ecb].
  - destruct (good_requeue_cd h tm c G Ht Hh Ecb) as (G' & Hh' & Hlo' & _).
    assert (Erc : forall X, cRunCallback (t_cb tm) X = cRunCallback CbCountdownTick X)
      by (intros; rewrite Ecb; reflexivity).
    rewrite Erc. apply (cd_tick h); auto.
    + cbn. destruct (gameStarted (c_game c)) eqn:E; auto.
      exfalso. exact (proj2 (gd_started _ G E) tm Ht Ecb).
    + cbn. destruct K as (_ & _ & C & _). exact (C tm Ht Ecb).
    + destruct K as (A & B & C & D). unfold cd_ok. cbn. repeat split; auto; try lia.
      intros. exact (C tm Ht Ecb).
  - apply cd_runCallback; [exact Ecb|]. apply (cd_game c _ K); [reflexivity|].
    destruct (to_period _ (gd_timers _ G) tm Ht) as [Ep|[Ec _]]; [|congruence].
    rewrite Ep. apply tfrom_clear.
Qed.

Lemma cd_cstep c c' : GoodC c -> cd_ok c -> cstep c c' -> cd_ok c'.
Proof.
  intros G K Hs. destruct Hs as [c c' Hm|c ready|c dt Hdt Hd|c h Hex|c].
  - revert G K Hm. apply ctl_moves_ind. clear c c'.
    intros c c' G K Hm. destruct Hm as [ty c _ _|c _ _|id y vy h c _ _ _].
    + apply cd_normalHit, K.
    + apply cd_bombExit, K.
    + apply cd_miss, K.
  - destruct (loading (c_game c) && ready) eqn:E; [|exact K].
    apply andb_true_iff in E as [E _].
    destruct K as (A & B & C & D). specialize (B E).
    unfold cd_ok. cbn. rewrite B. split; [lia|]. split; [discriminate|]. split.
    + intros t Ht%in_snoc Hc. lia.
    + intros Hg. destruct (gd_started _ G Hg) as [Hl _]. congruence.
  - apply (cd_game c _ K); [reflexivity|]. apply tfrom_same_timers. reflexivity.
  - exact (cd_fire h c G K).
  - apply (cd_game c _ K); [apply goHome_game|apply tfrom_goHome].
Qed.

Lemma cd_reachable M s : reachable M s -> cd_ok (ctl s).
Proof.
  apply ctl_reach_ind; [|exact cd_cstep].
  intros now w h. unfold cd_ok. cbn. repeat split; try lia; try discriminate; intros t [].
Qed.

(** X3: The countdown stays between 0 and 5; it is 5 while the tracker loads,
    at least 1 while a countdown tick is pending, and 0 once the game has
    started. *)
Theorem countdown_range M s : reachable M s ->
  0 <= countdown (game s) <= 5 /\
  (loading (game s) = true -> countdown (game s) = 5) /\
  (forall t, In t (timers (sys s)) -> t_cb t = CbCountdownTick -> 1 <= countdown (game s)) /\
  (gameStarted (game s) = true -> countdown (game s) = 0).
Proof. intros Hr. exact (cd_reachable M s Hr). Qed.

Lemma countdown_range_witness : reachable M0 s_cd /\ countdown (game s_cd) = 3 /\
  In (mkTimer 1 3000 CbCountdownTick (Some 1000)) (timers (sys s_cd)) /\
  (0 <= countdown (game s_cd) <= 5).
Proof.
  assert (H : reachable M0 s_cd) by (apply reachable_run; [apply reach_mount|vm_compute; reflexivity]).
  split; [exact H|]. split; [vm_compute; reflexivity|]. split; [vm_compute; auto|].
  exact (proj1 (countdown_range M0 s_cd H)).
Defined.


(** The points of the hits of a session, and the largest combo they reached. *)

Lemma sc_keeps_ok c c' : sc_ok c -> sc_keeps c c' -> sc_ok c'.
Proof. intros [A B] (E1 & E2 & E3). split; congruence. Qed.

Lemma sck_refl c : sc_keeps c c.
Proof. repeat split. Qed.

Lemma sck_trans c1 c2 c3 : sc_keeps c1 c2 -> sc_keeps c2 c3 -> sc_keeps c1 c3.
Proof. intros (A1 & B1 & C1) (A2 & B2 & C2). repeat split; congruence. Qed.

Lemma sum_points_snoc l r : sum_points (l ++ [r]) = sum_points l + hr_points r.
Proof. unfold sum_points, max_combo. induction l as [|a l IH]; cbn in *; lia. Qed.

Lemma max_combo_snoc l r : max_combo (l ++ [r]) = Z.max (max_combo l) (hr_combo_after r).
Proof. unfold sum_points, max_combo. induction l as [|a l IH]; cbn in *; lia. Qed.

Lemma max_combo_ge l x : In x (map hr_combo_after l) -> x <= max_combo l.
Proof. unfold max_combo. induction l as [|a l IH]; cbn; [tauto|]. intros [<-|H]; [lia|]. specialize (IH H). lia. Qed.

Lemma max_combo_nonneg l : 0 <= max_combo l.
Proof. unfold max_combo. induction l as [|a l IH]; cbn; lia. Qed.

Lemma hits_from_last cb tl l cf tf : hits_from cb tl l cf tf -> cf = cb \/ In cf (map hr_combo_after l).
Proof.
  revert cb tl; induction l as [|a l IH]; intros cb tl H; cbn in *.
  - left. symmetry. apply H.
  - destruct H as (_ & _ & _ & H). destruct (IH _ _ H) as [->|H']; auto.
Qed.

Lemma sc_cleanup c : sc_keeps c (cCleanup c).
Proof. destruct (cleanup_fields c) as (Hg & _ & _ & _ & Hh & _). repeat split; rewrite ?Hg, ?Hh; reflexivity. Qed.

Lemma sc_gameOver c : sc_keeps c (cGameOver c).
Proof. apply (sck_trans _ (cCleanup c)); [apply sc_cleanup|repeat split]. Qed.

Lemma sc_goHome c : sc_keeps c (cGoHome c).
Proof. apply (sck_trans _ (cCleanup c)); [apply sc_cleanup|repeat split]. Qed.

Lemma sc_startSpawning c : sc_keeps c (cStartSpawning c).
Proof. unfold cStartSpawning. destruct (c_spawnerH c); repeat split. Qed.

Lemma sc_runCallback cb c : sc_keeps c (cRunCallback cb c).
Proof.
  destruct cb; cbn [cRunCallback]; try (repeat split; fail); [|apply sc_gameOver].
  cbv zeta. destruct (_ <=? 0); [|repeat split].
  eapply sck_trans; [|apply sc_startSpawning].
  destruct (c_countdownH _); repeat split.
Qed.

Lemma sc_fire h c : sc_keeps c (cFire h c).
Proof.
  unfold cFire. destruct (find _ _) as [tm|]; [|apply sck_refl]. cbv zeta.
  eapply sck_trans; [|apply sc_runCallback]. repeat split.
Qed.

Lemma sc_miss id y vy h c : sc_keeps c (cMiss id y vy h c).
Proof.
  unfold cMiss. destruct (gameStarted (c_game c)); [|apply sck_refl]. cbv zeta.
  destruct (_ <=? 0); [|repeat split].
  eapply sck_trans; [|apply sc_gameOver]. repeat split.
Qed.

Lemma normalHit_maxCombo ty c :
  maxCombo (c_game (cNormalHit ty c)) = Z.max (maxCombo (c_game c)) (next_combo c).
Proof.
  destruct c as [g ts nv tm nx sp cd clk hl fl ll].
  destruct ty; cbn; unfold next_combo; cbn; try destruct sp; cbn;
  destruct (maxCombo g <? _) eqn:E; rewrite ?Z.ltb_lt, ?Z.ltb_ge in E; lia.
Qed.

Lemma sc_normalHit ty c : sc_ok c -> sc_ok (cNormalHit ty c).
Proof.
  intros [A B]. destruct (normalHit_fields ty c) as (_ & _ & _ & _ & _ & _ & _ & _ & _ & Hs & Hh).
  split.
  - rewrite Hs, Hh, sum_points_snoc, A. reflexivity.
  - rewrite normalHit_maxCombo, Hh, max_combo_snoc, B. reflexivity.
Qed.

Lemma sc_cstep c c' : GoodC c -> sc_ok c -> cstep c c' -> sc_ok c'.
Proof.
  intros G K Hs. destruct Hs as [c c' Hm|c ready|c dt Hdt Hd|c h Hex|c].
  - revert G K Hm. apply ctl_moves_ind. clear c c'.
    intros c c' G K Hm. destruct Hm as [ty c _ _|c _ _|id y vy h c _ _ _].
    + apply sc_normalHit, K.
    + eapply sc_keeps_ok; [exact K|repeat split].
    + eapply sc_keeps_ok; [exact K|apply sc_miss].
  - destruct (loading (c_game c) && ready); [|exact K].
    eapply sc_keeps_ok; [exact K|repeat split].
  - eapply sc_keeps_ok; [exact K|repeat split].
  - eapply sc_keeps_ok; [exact K|apply sc_fire].
  - eapply sc_keeps_ok; [exact K|apply sc_goHome].
Qed.

Lemma sc_reachable M s : reachable M s -> sc_ok (ctl s).
Proof.
  apply ctl_reach_ind; [|exact sc_cstep].
  intros now w h. split; reflexivity.
Qed.

(** X4: The score is the sum of the points awarded by the hits of the session;
    [maxCombo] is the largest combo a hit reached (0 before any hit), and never
    below the current combo. *)

Theorem score_accounting M s : reachable M s ->
  score (game s) = sum_points (hitlog (ghost s)) /\
  maxCombo (game s) = max_combo (hitlog (ghost s)) /\
  combo (game s) <= maxCombo (game s).
Proof.
  intros Hr. destruct (sc_reachable M s Hr) as [A B]. cbn in A, B.
  split; [exact A|]. split; [exact B|].
  pose proof (reachable_good M s Hr) as G. rewrite B.
  destruct (hits_from_last _ _ _ _ _ (gd_hits _ G)) as [E|E].
  - cbn in E. rewrite E. apply max_combo_nonneg.
  - apply max_combo_ge, E.
Qed.

Lemma score_accounting_witness : reachable M0 s_hit2 /\
  score (game s_hit2) = sum_points (hitlog (ghost s_hit2)) /\
  maxCombo (game s_hit2) = max_combo (hitlog (ghost s_hit2)) /\
  combo (game s_hit2) <= maxCombo (game s_hit2).
Proof.
  assert (H : reachable M0 s_hit2) by (apply reach_M0; vm_compute; reflexivity).
  split; [exact H|]. exact (score_accounting M0 s_hit2 H).
Defined.



Lemma frz_refl s : engine (world s) = None -> frozen s s.
Proof. intros E; repeat split; auto. Qed.

Lemma frz_trans s1 s2 s3 : frozen s1 s2 -> frozen s2 s3 -> frozen s1 s3.
Proof. unfold frozen; intuition congruence. Qed.

Lemma frz_engine s s' : frozen s s' -> engine (world s') = None.
Proof. intros [E _]; exact E. Qed.

Lemma frz_setTimer cb d p s : engine (world s) = None -> frozen s (snd (setTimer cb d p s)).
Proof. intros E; repeat split; auto. Qed.

Lemma frz_clearTimer h s : engine (world s) = None -> frozen s (clearTimer h s).
Proof. intros E; repeat split; auto. Qed.

Lemma frz_cleanup s : engine (world s) = None -> frozen s (cleanup s).
Proof.
  intros E. unfold cleanup. rewrite E.
  destruct (spawnerH (sys s)); cbn;
  [destruct (countdownH _)|destruct (countdownH (sys s))]; repeat split; cbn; auto.
Qed.

Lemma frz_gameOver s : engine (world s) = None -> frozen s (gameOver s).
Proof.
  intros E. destruct (frz_cleanup s E) as (A & B & C & D & F & G).
  unfold gameOver; repeat split; cbn; auto.
Qed.

Lemma frz_goHome s : engine (world s) = None -> frozen s (goHome s).
Proof.
  intros E. destruct (frz_cleanup s E) as (A & B & C & D & F & G).
  unfold goHome; repeat split; cbn; auto.
Qed.

Lemma frz_spawnFruit M s : engine (world s) = None -> spawnFruit M s = s.
Proof. intros E; unfold spawnFruit; rewrite E; reflexivity. Qed.

Lemma frz_spawnLoop M s : engine (world s) = None -> frozen s (spawnLoop M s).
Proof.
  intros E. unfold spawnLoop. rewrite (frz_spawnFruit M s E).
  repeat split; cbn; auto.
Qed.

Lemma frz_startSpawning M s : engine (world s) = None -> frozen s (startSpawning M s).
Proof.
  intros E. unfold startSpawning.
  destruct (spawnerH (sys s)).
  - apply (frz_trans _ (clearTimer n s)); [apply frz_clearTimer; auto|].
    apply frz_spawnLoop; auto.
  - apply frz_spawnLoop; auto.
Qed.

Lemma frz_startCountdown s : engine (world s) = None -> frozen s (startCountdown s).
Proof. intros E; repeat split; auto. Qed.

Lemma frz_upd_game f s : engine (world s) = None ->
  score (f (game s)) = score (game s) -> lives (f (game s)) = lives (game s) ->
  combo (f (game s)) = combo (game s) -> maxCombo (f (game s)) = maxCombo (game s) ->
  frozen s (upd_game f s).
Proof. intros; repeat split; auto. Qed.

Lemma frz_upd_sys f s : engine (world s) = None -> frozen s (upd_sys f s).
Proof. intros; repeat split; auto. Qed.

Lemma frz_runCallback M cb s : engine (world s) = None -> frozen s (run_callback M cb s).
Proof.
  intros E. destruct cb; cbn [run_callback].
  - apply frz_spawnLoop; auto.
  - set (s1 := upd_game _ s).
    assert (F1 : frozen s s1) by (apply frz_upd_game; auto).
    destruct (countdown (game s1) <=? 0); [|exact F1].
    apply (frz_trans _ s1); [exact F1|]. pose proof (frz_engine _ _ F1) as E1.
    set (s2 := match countdownH (sys s1) with Some h => clearTimer h s1 | None => s1 end).
    assert (F2 : frozen s1 s2) by (unfold s2; destruct (countdownH (sys s1));
      [apply frz_clearTimer|apply frz_refl]; auto).
    apply (frz_trans _ s2); [exact F2|]. pose proof (frz_engine _ _ F2) as E2.
    apply (frz_trans _ (upd_sys (set_countdownH None) s2)); [apply frz_upd_sys; auto|].
    apply (frz_trans _ (upd_game (set_gameStarted true) (upd_sys (set_countdownH None) s2)));
      [apply frz_upd_game; auto|].
    apply frz_startSpawning; auto.
  - change (engine (world (upd_game (set_freezeActive false) s))) with (engine (world s)).
    rewrite E. apply frz_upd_game; auto.
  - apply frz_upd_game; auto.
  - apply frz_gameOver; auto.
  - apply frz_upd_game; auto.
Qed.

Lemma frz_fire M h s : engine (world s) = None -> frozen s (fire M h s).
Proof.
  intros E. unfold fire. destruct (find _ _); [|apply frz_refl; auto].
  set (q := match t_period t with Some p => _ | None => _ end).
  apply (frz_trans _ (upd_sys (set_timers q) s)); [apply frz_upd_sys; auto|].
  apply frz_runCallback; auto.
Qed.

Lemma frz_step M s ev : engine (world s) = None -> frozen s (step M s ev).
Proof.
  intros E. destruct ev; cbn [step].
  - set (s1 := if loading (game s) && cameraReady then _ else s).
    assert (F : frozen s s1).
    { unfold s1. destruct (loading (game s) && cameraReady).
      - apply (frz_trans _ (upd_game (set_loading false) s)); [apply frz_upd_game; auto|].
        apply frz_startCountdown; auto.
      - apply frz_refl; auto. }
    destruct F as (A & B & C & D & F & G). repeat split; auto.
  - unfold frame. rewrite E. apply frz_refl; auto.
  - apply frz_upd_sys; auto.
  - apply frz_fire; auto.
  - apply frz_upd_sys; auto.
  - apply frz_goHome; auto.
Qed.

Lemma frz_run M s evs : engine (world s) = None -> frozen s (run M s evs).
Proof.
  revert s. induction evs as [|ev evs IH]; intros s E; cbn [run].
  - apply frz_refl; auto.
  - pose proof (frz_step M s ev E) as F.
    apply (frz_trans _ (step M s ev)); [exact F|]. apply IH. exact (frz_engine _ _ F).
Qed.

(** X5: Once the engine has been released, no event brings it back: the fruits,
    score, lives, combo and max combo stay as they were. *)

Theorem session_over_frozen M s evs :
  engine (world s) = None ->
  engine (world (run M s evs)) = None /\ fruits (world (run M s evs)) = fruits (world s) /\
  score (game (run M s evs)) = score (game s) /\ lives (game (run M s evs)) = lives (game s) /\
  combo (game (run M s evs)) = combo (game s) /\ maxCombo (game (run M s evs)) = maxCombo (game s).
Proof. intros E. exact (frz_run M s evs E). Qed.

Lemma session_over_frozen_witness :
  engine (world (goHome s_hit1)) = None /\
  score (game (run M0 (goHome s_hit1) [EvFrame sb0; EvAdvance 3000; EvTimer 2])) =
  score (game (goHome s_hit1)).
Proof.
  assert (E : engine (world (goHome s_hit1)) = None) by (vm_compute; reflexivity).
  split; [exact E|].
  exact (proj1 (proj2 (proj2 (session_over_frozen M0 (goHome s_hit1)
    [EvFrame sb0; EvAdvance 3000; EvTimer 2] E)))).
Defined.



Lemma cleanup_engine s : engine (world (cleanup s)) = None.
Proof.
  dstate s. unfold cleanup. destruct eng; cbn; destruct sp; cbn; destruct cd; reflexivity.
Qed.

Lemma cCleanup_handles c : c_spawnerH (cCleanup c) = None /\ c_countdownH (cCleanup c) = None.
Proof.
  destruct c as [g ts nv tm nx sp cd clk hl fl ll].
  destruct sp, cd; split; reflexivity.
Qed.

Lemma cleanup_teardown M s : reachable M s ->
  let c' := cCleanup (ctl s) in
  c_spawnerH c' = None /\ c_countdownH c' = None /\
  (forall t, In t (c_timers c') -> t_cb t <> CbSpawnLoop /\ t_cb t <> CbCountdownTick /\
     In t (timers (sys s))) /\
  (forall t, In t (timers (sys s)) -> t_cb t <> CbSpawnLoop -> t_cb t <> CbCountdownTick ->
     In t (c_timers c')).
Proof.
  intros R c'. pose proof (reachable_good M s R) as G. pose proof (sp_reachable M s R) as K.
  destruct (cCleanup_handles (ctl s)) as [H1 H2].
  split; [exact H1|]. split; [exact H2|]. split.
  - intros t Ht. split; [exact (ns_cleanup _ K t Ht)|]. split.
    + apply (cleanup_no_countdown (ctl s)); [|exact Ht].
      intros t0 Ht0 Hcb. exact (proj2 (gd_countdown _ G t0 Ht0 Hcb)).
    + destruct (cleanup_fields (ctl s)) as (_&_&_&_&_&_&_&_&Hin).
      exact (proj1 (Hin t Ht)).
  - intros t Ht N1 N2. apply cleanup_keeps; auto. exact (gd_timers _ G).
Qed.

(** X6: [gameOver] and [goHome] end a session completely: the engine is released,
    the spawner and countdown handles are null and no spawn or countdown timer
    is left pending, while every other pending timer (power-up ends, hit-stop
    end, a bomb's game-over) is kept and no timer is added. *)

Theorem teardown_timers M s s' : reachable M s ->
  s' = gameOver s \/ s' = goHome s ->
  engine (world s') = None /\ spawnerH (sys s') = None /\ countdownH (sys s') = None /\
  (forall t, In t (timers (sys s')) ->
     t_cb t <> CbSpawnLoop /\ t_cb t <> CbCountdownTick /\ In t (timers (sys s))) /\
  (forall t, In t (timers (sys s)) -> t_cb t <> CbSpawnLoop -> t_cb t <> CbCountdownTick ->
     In t (timers (sys s'))).
Proof.
  intros R Hs. destruct (cleanup_teardown M s R) as (A & B & C & D).
  assert (E : engine (world s') = None /\ ctl s' = set_c_navs (c_navs (ctl s')) (cCleanup (ctl s))).
  { destruct Hs as [-> | ->].
    - split; [apply cleanup_engine|]. rewrite gameOver_ctl. reflexivity.
    - split; [apply cleanup_engine|]. rewrite goHome_ctl. reflexivity. }
  destruct E as [E Ec].
  change (spawnerH (sys s')) with (c_spawnerH (ctl s')).
  change (countdownH (sys s')) with (c_countdownH (ctl s')).
  change (timers (sys s')) with (c_timers (ctl s')).
  rewrite Ec. cbn [c_spawnerH c_countdownH c_timers set_c_navs].
  exact (conj E (conj A (conj B (conj C D)))).
Qed.

Lemma teardown_timers_witness : reachable M0 s_fx /\
  In (mkTimer 3 10000 CbFreezeEnd None) (timers (sys s_fx)) /\
  In (mkTimer 3 10000 CbFreezeEnd None) (timers (sys (gameOver s_fx))) /\
  spawnerH (sys (gameOver s_fx)) = None.
Proof.
  assert (H : reachable M0 s_fx) by (apply reachable_run; [apply reach_mount|vm_compute; reflexivity]).
  assert (I : In (mkTimer 3 10000 CbFreezeEnd None) (timers (sys s_fx))) by (vm_compute; tauto).
  destruct (teardown_timers M0 s_fx (gameOver s_fx) H (or_introl eq_refl)) as (_ & B & _ & _ & D).
  split; [exact H|]. split; [exact I|]. split; [|exact B].
  apply D; [exact I|discriminate|discriminate].
Defined.


(** X7: [spawnFruit] with a live engine and fewer than 15 fruits launches one body
    with the next body id: it starts 50 below the canvas, in the middle 60%
    of its width, moving up at 2.4% to 3.0% of the canvas height per step and
    sideways never away from the vertical centre line; its radius and colour are those
    of its type.  The body is added to the engine's world and to the fruits
    map, and the game refs, hands and effects are untouched. *)

Theorem spawnFruit_launch M s e :
  (forall n, 0 <= m_random M n < 1)%Q -> (0 < width (sys s))%Q -> (0 < height (sys s))%Q ->
  engine (world s) = Some e -> (List.length (fruits (world s)) < 15)%nat ->
  nextBodyId (sys (spawnFruit M s)) = S (nextBodyId (sys s)) /\
  engine (world (spawnFruit M s)) =
    Some (set_worldBodies (worldBodies e ++ [nextBodyId (sys s)]) e) /\
  game (spawnFruit M s) = game s /\ hands (spawnFruit M s) = hands s /\
  fx (spawnFruit M s) = fx s /\ timers (sys (spawnFruit M s)) = timers (sys s) /\
  exists fr,
    fruits (world (spawnFruit M s)) = fruits (world s) ++ [(nextBodyId (sys s), fr)] /\
    b_id (fr_body fr) = nextBodyId (sys s) /\
    (width (sys s) * (2#10) <= b_x (fr_body fr) < width (sys s) * (8#10))%Q /\
    b_y (fr_body fr) = (height (sys s) + 50)%Q /\
    (- (height (sys s) * (30#1000)) < b_vy (fr_body fr) <= - (height (sys s) * (24#1000)))%Q /\
    (0 <= (width (sys s) / 2 - b_x (fr_body fr)) * b_vx (fr_body fr))%Q /\
    b_circleRadius (fr_body fr) = type_radius (fr_type fr) /\
    fr_color fr = type_color (fr_type fr).
Proof.
  intros Hr Hw Hh E L. dstate s. cbn in E, L, Hw, Hh |- *. subst eng.
  unfold spawnFruit. cbn [world engine fruits].
  destruct (15 <=? List.length fr)%nat eqn:B; [apply Nat.leb_le in B; lia|].
  cbn -[nth Qfloor Qmult Qplus Qopp Qminus Qdiv Z.to_nat Qltb FRUIT_TYPES].
  destruct (Qltb (random M (S dr)) (15#100)) eqn:Hb;
  [|destruct (Qltb (95#100) (random M (S dr))) eqn:Hf];
  cbn -[nth Qfloor Qmult Qplus Qopp Qminus Qdiv Z.to_nat Qltb FRUIT_TYPES type_radius type_color].
  all: do 6 (split; [reflexivity|]); eexists; split; [reflexivity|].
  all: cbn [fr_body fr_type fr_color b_id b_x b_y b_vx b_vy b_circleRadius].
  all: split; [reflexivity|].
  all: unfold random.
  all: pose proof (Hr dr) as [R1 R1'].
  all: match goal with |- context [(0.01 + m_random _ ?n * 0.015)%Q] =>
         pose proof (Hr n) as [R5 R5'] end.
  all: match goal with |- context [(_ * 0.024 + m_random _ ?n * _)%Q] =>
         pose proof (Hr n) as [R3 R3']; set (r3 := m_random M n) in * end.
  all: set (r1 := m_random M dr) in *.
  all: split; [split; nra|]; split; [reflexivity|]; split; [split; nra|].
  all: split; [|split; reflexivity].
  all: set (d := (wd / 2 - (r1 * (wd * 0.6) + wd * 0.2))%Q).
  all: rewrite Qmult_assoc; apply Qmult_le_0_compat; [nra|lra].
Qed.

Lemma spawnFruit_launch_witness :
  engine (world s_started) = Some (mkEngine 1 [1%nat]) /\
  (List.length (fruits (world s_started)) < 15)%nat /\
  engine (world (spawnFruit M0 s_started)) = Some (mkEngine 1 [1%nat; 2%nat]).
Proof.
  assert (E : engine (world s_started) = Some (mkEngine 1 [1%nat])) by (vm_compute; reflexivity).
  assert (L : (List.length (fruits (world s_started)) < 15)%nat) by (vm_compute; lia).
  assert (Hr : forall n, (0 <= m_random M0 n < 1)%Q)
    by (intros n; cbn; unfold rnd0; destruct (_ || _); split; vm_compute; first [reflexivity | intros H; discriminate H]).
  assert (Hw : (0 < width (sys s_started))%Q) by (vm_compute; reflexivity).
  assert (Hh : (0 < height (sys s_started))%Q) by (vm_compute; reflexivity).
  destruct (spawnFruit_launch M0 s_started _ Hr Hw Hh E L) as (N & Eng & _).
  split; [exact E|]. split; [exact L|].
  rewrite Eng. vm_compute. reflexivity.
Defined.



Lemma idmap_keys l : map fst (idmap l) = map fst l.
Proof. unfold idmap. rewrite map_map. reflexivity. Qed.

Lemma wk_ok s s' : fm_ok s -> wk s s' -> fm_ok s'.
Proof.
  intros (N & I & L & W) (Hm & Hn & He).
  assert (K : map fst (fruits (world s')) = map fst (fruits (world s))).
  { rewrite <- !idmap_keys, Hm. reflexivity. }
  split; [rewrite K; exact N|]. split; [|split; [|]].
  - intros id fr Hin.
    assert (H1 : In (id, b_id (fr_body fr)) (idmap (fruits (world s')))).
    { unfold idmap. apply in_map_iff. exists (id, fr). auto. }
    rewrite Hm in H1. unfold idmap in H1. apply in_map_iff in H1 as [[id0 fr0] [Ep Hin0]].
    cbn in Ep. injection Ep as <- <-. destruct (I _ _ Hin0) as [A B]. split; [exact A|lia].
  - rewrite <- (length_map fst), K, length_map. exact L.
  - intros e' E'. destruct (He e' E') as (e & E & Hw). rewrite Hw, K. apply W, E.
Qed.

Lemma wk_refl s : wk s s.
Proof. split; [reflexivity|]. split; [lia|]. intros e' E'; exists e'; auto. Qed.

Lemma wk_trans s1 s2 s3 : wk s1 s2 -> wk s2 s3 -> wk s1 s3.
Proof.
  intros (A1 & B1 & C1) (A2 & B2 & C2). split; [congruence|]. split; [lia|].
  intros e3 E3. destruct (C2 e3 E3) as (e2 & E2 & W2). destruct (C1 e2 E2) as (e1 & E1 & W1).
  exists e1. split; [auto|congruence].
Qed.

Lemma wk_same s s' : world s' = world s -> nextBodyId (sys s') = nextBodyId (sys s) -> wk s s'.
Proof. intros Hw Hn. unfold wk. rewrite Hw, Hn. apply wk_refl. Qed.

Lemma fm_same s s' : fm_ok s -> world s' = world s -> nextBodyId (sys s') = nextBodyId (sys s) -> fm_ok s'.
Proof. intros F Hw Hn. apply (wk_ok s); [exact F|apply wk_same; auto]. Qed.

Ltac fm_triv F := apply (fm_same _ _ F); reflexivity.

Lemma wk_fx_draw f s : wk s (fx_draw f s).
Proof. unfold fx_draw. destruct (f _ _). apply wk_same; reflexivity. Qed.

Lemma wk_cleanup s : wk s (cleanup s).
Proof.
  split; [|split]; [| |intros e'; rewrite cleanup_engine; discriminate].
  all: dstate s; unfold cleanup.
  - destruct eng; cbn; destruct sp; cbn; destruct cd; reflexivity.
  - destruct eng; cbn; destruct sp; cbn; destruct cd; cbn; lia.
Qed.

Lemma wk_gameOver s : wk s (gameOver s).
Proof. apply (wk_trans _ (cleanup s)); [apply wk_cleanup|apply wk_same; reflexivity]. Qed.

Lemma wk_goHome s : wk s (goHome s).
Proof. apply (wk_trans _ (cleanup s)); [apply wk_cleanup|apply wk_same; reflexivity]. Qed.

Lemma wk_timeScale q s : wk s (match engine (world s) with
                               | Some e => upd_world (set_engine (Some (set_timeScale q e))) s
                               | None => s end).
Proof.
  destruct (engine (world s)) as [e|] eqn:E; [|apply wk_refl].
  split; [reflexivity|]. split; [cbn; lia|]. intros e' E'. cbn in E'. injection E' as <-.
  exists e. split; [exact E|reflexivity].
Qed.

Lemma spawnFruit_shape M s e : engine (world s) = Some e ->
  (List.length (fruits (world s)) < 15)%nat ->
  nextBodyId (sys (spawnFruit M s)) = S (nextBodyId (sys s)) /\
  engine (world (spawnFruit M s)) =
    Some (set_worldBodies (worldBodies e ++ [nextBodyId (sys s)]) e) /\
  exists fr, fruits (world (spawnFruit M s)) = fruits (world s) ++ [(nextBodyId (sys s), fr)] /\
    b_id (fr_body fr) = nextBodyId (sys s).
Proof.
  intros E L. dstate s. cbn in E, L |- *. subst eng.
  unfold spawnFruit. cbn [world engine fruits].
  destruct (15 <=? List.length fr)%nat eqn:B; [apply Nat.leb_le in B; lia|].
  cbn -[nth Qfloor Qmult Qplus Qopp Qminus Qdiv Z.to_nat Qltb FRUIT_TYPES].
  destruct (Qltb (random M (S dr)) (15#100));
  [|destruct (Qltb (95#100) (random M (S dr)))];
  cbn -[nth Qfloor Qmult Qplus Qopp Qminus Qdiv Z.to_nat Qltb FRUIT_TYPES type_radius type_color].
  all: split; [reflexivity|]; split; [reflexivity|]; eexists; split; reflexivity.
Qed.

Lemma fm_spawnFruit M s : fm_ok s -> fm_ok (spawnFruit M s).
Proof.
  intros F. destruct (engine (world s)) as [e|] eqn:E;
    [|unfold spawnFruit; rewrite E; exact F].
  destruct (Nat.lt_ge_cases (List.length (fruits (world s))) 15) as [B|B];
    [|unfold spawnFruit; rewrite E; apply Nat.leb_le in B; rewrite B; exact F].
  destruct (spawnFruit_shape M s e E B) as (Nb & Eng & fr & Fr & Id).
  destruct F as (N & I & L & W). specialize (W e E).
  unfold fm_ok. rewrite Nb, Eng, Fr.
  split.
  { rewrite map_app. cbn [map fst]. apply NoDup_app; [exact N|repeat constructor; intros []|].
    intros x Hx Hx'. destruct Hx' as [<-|[]]. apply in_map_iff in Hx as [[id0 fr0] [E0 Hin]].
    cbn in E0. specialize (I _ _ Hin). lia. }
  split; [intros id fr0 Hin; apply in_app_or in Hin as [Hin|[Hin|[]]];
          [specialize (I _ _ Hin); lia|injection Hin as <- <-; split; [exact Id|lia]]|].
  split; [rewrite length_app; cbn; lia|].
  intros e' E'; injection E' as <-; cbn; rewrite W, map_app; reflexivity.
Qed.

Lemma fm_spawnLoop M s : fm_ok s -> fm_ok (spawnLoop M s).
Proof.
  intros F. unfold spawnLoop. pose proof (fm_spawnFruit M s F) as F1.
  fm_triv F1.
Qed.

Lemma fm_startSpawning M s : fm_ok s -> fm_ok (startSpawning M s).
Proof.
  intros F. unfold startSpawning. apply fm_spawnLoop.
  destruct (spawnerH (sys s)); [fm_triv F|exact F].
Qed.

Lemma fm_startCountdown s : fm_ok s -> fm_ok (startCountdown s).
Proof. intros F. fm_triv F. Qed.

Lemma fm_activateFreeze s : fm_ok s -> fm_ok (activateFreeze s).
Proof.
  intros F. unfold activateFreeze.
  set (s1 := upd_game (set_freezeActive true) s).
  assert (F1 : fm_ok s1) by fm_triv F.
  pose proof (wk_ok _ _ F1 (wk_timeScale (1#2) s1)) as F2.
  fm_triv F2.
Qed.

Lemma fm_activateFrenzy M s : fm_ok s -> fm_ok (activateFrenzy M s).
Proof.
  intros F. unfold activateFrenzy.
  assert (F1 : fm_ok (upd_game (set_frenzyActive true) s)) by fm_triv F.
  pose proof (fm_startSpawning M _ F1) as F2. fm_triv F2.
Qed.

Lemma fm_runCallback M cb s : fm_ok s -> fm_ok (run_callback M cb s).
Proof.
  intros F. destruct cb; cbn [run_callback].
  - apply fm_spawnLoop; exact F.
  - set (s1 := upd_game _ s). assert (F1 : fm_ok s1) by fm_triv F.
    destruct (countdown (game s1) <=? 0); [|exact F1].
    apply fm_startSpawning.
    assert (F2 : fm_ok (match countdownH (sys s1) with Some h => clearTimer h s1 | None => s1 end))
      by (destruct (countdownH (sys s1)); [fm_triv F1|exact F1]).
    fm_triv F2.
  - assert (F1 : fm_ok (upd_game (set_freezeActive false) s)) by fm_triv F.
    exact (wk_ok _ _ F1 (wk_timeScale 1 _)).
  - fm_triv F.
  - exact (wk_ok _ _ F (wk_gameOver s)).
  - fm_triv F.
Qed.

Lemma fm_fire M h s : fm_ok s -> fm_ok (fire M h s).
Proof.
  intros F. unfold fire. destruct (find _ _); [|exact F].
  apply fm_runCallback. fm_triv F.
Qed.

Lemma fm_normalHit M sdx sdy fr s : fm_ok s -> fm_ok (normal_hit M sdx sdy fr s).
Proof.
  intros F. unfold normal_hit.
  set (s1 := match fr_type fr with
             | FreezeBanana => activateFreeze s
             | FrenzyBanana => activateFrenzy M s
             | _ => s end).
  assert (F1 : fm_ok s1).
  { unfold s1; destruct (fr_type fr);
    first [exact F | apply fm_activateFreeze; exact F | apply fm_activateFrenzy; exact F]. }
  clearbody s1.
  pose proof (wk_ok _ _ F1 (wk_fx_draw (createDebris M (b_x (fr_body fr)) (b_y (fr_body fr))
    (type_name (fr_type fr)) (b_angle (fr_body fr)) sdx sdy) s1)) as F2.
  set (s2 := fx_draw _ s1) in *. clearbody s2.
  unfold fx_draw. destruct (createParticles _ _ _ _ _ _) as [f' d'].
  fm_triv F2.
Qed.

Lemma map_fst_remove id (l : list (nat * Fruit)) :
  map fst (filter (fun e => negb (fst e =? id)%nat) l) = filter (fun j => negb (j =? id)%nat) (map fst l).
Proof.
  induction l as [|[k v] l IH]; cbn; [reflexivity|].
  destruct (k =? id)%nat; cbn; rewrite IH; reflexivity.
Qed.

Lemma fm_remove id e s : fm_ok s -> engine (world s) = Some e ->
  fm_ok (upd_world (fun wd =>
        set_fruits (filter (fun e => negb (fst e =? id)%nat) (fruits wd))
          (set_engine (Some (set_worldBodies (filter (fun j => negb (j =? id)%nat) (worldBodies e)) e)) wd)) s).
Proof.
  intros (N & I & L & W) E. specialize (W e E).
  unfold fm_ok, upd_world, set_world, set_fruits, set_engine. cbn [world fruits engine sys].
  split; [|split; [|split]].
  - rewrite map_fst_remove. apply NoDup_filter. exact N.
  - intros k fr Hin. apply filter_In in Hin as [Hin _]. exact (I _ _ Hin).
  - pose proof (filter_length_le (fun e => negb (fst e =? id)%nat) (fruits (world s))). lia.
  - intros e' E'. injection E' as <-. cbn. rewrite W, map_fst_remove. reflexivity.
Qed.

Lemma fm_remove_body id s : fm_ok s -> fm_ok (remove_body id s).
Proof.
  intros F. unfold remove_body. destruct (find _ _); [|exact F].
  destruct (engine (world s)) as [e|] eqn:E; [|exact F].
  apply fm_remove; auto.
Qed.

Lemma fm_remove_all l s : fm_ok s -> fm_ok (fold_left (fun s id => remove_body id s) l s).
Proof.
  revert s; induction l as [|id l IH]; intros s F; cbn; [exact F|].
  apply IH, fm_remove_body, F.
Qed.

Lemma fm_handPass M fuel k cx cy sdx sdy rem s :
  fm_ok s -> fm_ok (fst (fst (hand_pass M fuel k cx cy sdx sdy rem s))).
Proof.
  revert k rem s. induction fuel as [|fuel IH]; intros k rem s F; cbn [hand_pass]; [exact F|].
  destruct (nth_error (fruits (world s)) k) as [[id fr]|]; [|exact F].
  set (s1 := upd_ghost _ s). assert (F1 : fm_ok s1) by fm_triv F. clearbody s1.
  destruct (in_reach cx cy (fr_body fr)); [|apply IH; exact F1].
  destruct (fr_type fr) eqn:Ht; try (apply IH, fm_normalHit, F1).
  cbn [fst]. exact (wk_ok _ _ F1 (wk_fx_draw _ _)).
Qed.

Lemma fm_sliceHand M i s : fm_ok s -> fm_ok (fst (slice_hand M i s)).
Proof.
  intros F. unfold slice_hand.
  destruct (nth i (handPos (hands s)) None); [|exact F].
  destruct (nth i (lastHandPos (hands s)) None); [|exact F].
  destruct (Qltb _ 25); [exact F|].
  match goal with |- context [hand_pass M ?fu ?k ?cx ?cy ?dx ?dy ?r s] =>
    pose proof (fm_handPass M fu k cx cy dx dy r s F) as F1;
    destruct (hand_pass M fu k cx cy dx dy r s) as [[s1 rem] hb] end.
  cbn [fst] in F1. destruct hb; cbn [fst].
  - unfold bomb_exit. assert (F2 : fm_ok (upd_game (set_gameStarted false) s1)) by fm_triv F1.
    fm_triv F2.
  - apply fm_remove_all, F1.
Qed.

Lemma fm_checkSlicing M s : fm_ok s -> fm_ok (checkSlicing M s).
Proof.
  intros F. unfold checkSlicing, check_slicing.
  destruct (engine (world s)); [|exact F].
  pose proof (fm_sliceHand M 0 s F) as F1.
  destruct (slice_hand M 0 s) as [s1 stop]. cbn [fst] in F1.
  destruct stop; [exact F1|]. apply fm_sliceHand, F1.
Qed.

Lemma fm_renderFruits l s : fm_ok s -> fm_ok (fst (render_fruits l s)).
Proof.
  revert s; induction l as [|[k fr] l IH]; intros s F; cbn [render_fruits]; [exact F|].
  destruct (_ && _); [|apply IH, F].
  destruct (engine (world s)) as [e|] eqn:E; [|exact F].
  apply IH.
  pose proof (fm_remove (b_id (fr_body fr)) e s F E) as F1.
  set (s1 := upd_world _ s) in *. clearbody s1.
  destruct (gameStarted (game s1)); [|exact F1].
  set (s2 := upd_ghost _ _). assert (F2 : fm_ok s2) by fm_triv F1. clearbody s2.
  destruct (lives (game s2) <=? 0); [|exact F2].
  exact (wk_ok _ _ F2 (wk_gameOver s2)).
Qed.

Lemma fm_renderGame s : fm_ok s -> fm_ok (renderGame s).
Proof.
  intros F. unfold renderGame.
  set (s1 := upd_fx _ s). assert (F1 : fm_ok s1) by fm_triv F. clearbody s1.
  pose proof (fm_renderFruits (fruits (world s1)) s1 F1) as F2.
  destruct (render_fruits (fruits (world s1)) s1) as [s2 cr]. cbn [fst] in F2.
  destruct cr; [exact F2|]. fm_triv F2.
Qed.

Lemma fm_physics sb s : fm_ok s -> fm_ok (physics_update sb s).
Proof.
  intros F. apply (wk_ok s); [exact F|]. unfold physics_update.
  destruct (engine (world s)) as [e|] eqn:E; [|apply wk_refl].
  split; [|split; [cbn; lia|]].
  - cbn. unfold idmap. rewrite map_map. apply map_ext. intros [id fr]. cbn.
    destruct (existsb _ _); reflexivity.
  - intros e' E'. cbn in E'. exists e'. split; [congruence|reflexivity].
Qed.

Lemma fm_preSlice M sb s : fm_ok s -> fm_ok (pre_slice M sb s).
Proof.
  intros F. unfold pre_slice, updateHandPosition.
  set (s1 := if hitStopActive (game s) then s else physics_update sb s).
  assert (F1 : fm_ok s1) by (unfold s1; destruct (hitStopActive (game s)); [exact F|apply fm_physics, F]).
  clearbody s1.
  destruct (update_hand_slot_same M 0 s1) as (_ & W0 & _ & S0 & _).
  destruct (update_hand_slot_same M 1 (update_hand_slot M 0 s1)) as (_ & W1 & _ & S1 & _).
  apply (fm_same _ _ F1); congruence.
Qed.

Lemma fm_frame M sb s : fm_ok s -> fm_ok (frame M sb s).
Proof.
  intros F. unfold frame. destruct (engine (world s)); [|exact F].
  apply fm_renderGame. pose proof (fm_preSlice M sb s F) as F1.
  destruct (gameStarted (game (pre_slice M sb s))); [|exact F1].
  pose proof (fm_checkSlicing M _ F1) as F2. unfold swoosh. fm_triv F2.
Qed.

Lemma fm_step M s ev : fm_ok s -> fm_ok (step M s ev).
Proof.
  intros F. destruct ev; cbn [step].
  - assert (F1 : fm_ok (if loading (game s) && cameraReady
                        then startCountdown (upd_game (set_loading false) s) else s)).
    { destruct (_ && _); [|exact F]. apply fm_startCountdown. fm_triv F. }
    fm_triv F1.
  - apply fm_frame, F.
  - fm_triv F.
  - apply fm_fire, F.
  - fm_triv F.
  - exact (wk_ok _ _ F (wk_goHome s)).
Qed.

Lemma fm_mount cam now w h : fm_ok (mount cam now w h).
Proof.
  assert (F : fm_ok (mount false now w h)).
  { split; [constructor|]. split; [intros ? ? []|]. split; [cbn; lia|].
    intros e E. cbn in E. injection E as <-. reflexivity. }
  destruct cam; [|exact F]. apply fm_startCountdown. fm_triv F.
Qed.

(** X8: In every reachable state the fruits map and the physics world agree:
    the map has no duplicate key, each entry's key is its body's id and is
    below the next body id, it never holds more than 15 fruits, and while the
    engine is live its world holds exactly the bodies of the map, in the
    map's order. *)

Theorem fruits_engine_sync M s : reachable M s ->
  NoDup (map fst (fruits (world s))) /\
  (forall id fr, In (id, fr) (fruits (world s)) ->
     b_id (fr_body fr) = id /\ (id < nextBodyId (sys s))%nat) /\
  (List.length (fruits (world s)) <= 15)%nat /\
  (forall e, engine (world s) = Some e -> worldBodies e = map fst (fruits (world s))).
Proof.
  intros R. change (fm_ok s). induction R as [cam now w h|s ev R IH Hen].
  - apply fm_mount.
  - apply fm_step, IH.
Qed.

Lemma fruits_engine_sync_witness : reachable M0 s_started /\
  (List.length (fruits (world s_started)) <= 15)%nat /\
  (forall e, engine (world s_started) = Some e -> worldBodies e = map fst (fruits (world s_started))).
Proof.
  assert (H : reachable M0 s_started) by (apply reachable_run; [apply reach_mount|vm_compute; reflexivity]).
  destruct (fruits_engine_sync M0 s_started H) as (_ & _ & L & W).
  split; [exact H|]. split; [exact L|exact W].
Defined.


(** A trail in time order: each point is no later than the ones after it. *)

Lemma chrono_snoc tr p : chrono tr -> Forall (fun q => ttime q <= ttime p) tr -> chrono (tr ++ [p]).
Proof.
  induction tr as [|a tr IH]; intros C F; cbn; [split; constructor|].
  destruct C as [Fa C]. inversion F as [|? ? Ha F']; subst.
  split; [apply Forall_app; split; [exact Fa|constructor; [exact Ha|constructor]]|].
  apply IH; assumption.
Qed.

Lemma chrono_tl tr : chrono tr -> chrono (tl tr).
Proof. destruct tr; cbn; tauto. Qed.

Lemma drop_old_suffix now tr : exists pre, tr = pre ++ drop_old now tr.
Proof.
  induction tr as [|p tr IH]; cbn; [exists []; reflexivity|].
  destruct (TRAIL_LIFETIME <=? now - ttime p); [|exists []; reflexivity].
  destruct IH as [pre E]. exists (p :: pre). cbn. congruence.
Qed.

Lemma trail_ok_suffix now pre tr : trail_ok now (pre ++ tr) -> trail_ok now tr.
Proof.
  induction pre as [|a pre IH]; cbn; intros H; [exact H|].
  destruct H as (L & [_ C] & F). inversion F; subst. apply IH.
  split; [cbn in L |- *; lia|]. split; assumption.
Qed.

Lemma trail_ok_mono now now' tr : now <= now' -> trail_ok now tr -> trail_ok now' tr.
Proof.
  intros Le (L & C & F). split; [exact L|]. split; [exact C|].
  eapply Forall_impl; [|exact F]. intros p Hp; cbn in Hp; lia.
Qed.

Lemma trim_trail_ok now t tr : trail_ok now tr -> trail_ok now (trim_trail t tr).
Proof.
  intros H. unfold trim_trail. destruct (1 <? List.length tr)%nat; [|exact H].
  destruct (drop_old_suffix t tr) as [pre E]. rewrite E in H.
  exact (trail_ok_suffix _ _ _ H).
Qed.

Lemma update_slot_ok M now target pos last tr :
  trail_ok now tr ->
  let '(p, l, tr') := update_slot M now target pos last tr in
  (forall a, p = Some a -> exists b, l = Some b) /\ trail_ok now tr'.
Proof.
  intros (L & C & F). unfold update_slot.
  destruct target as [t|]; [|cbn; split; [discriminate|exact (conj L (conj C F))]].
  destruct pos as [p|]; [|cbn; split; [intros a _; eauto|exact (conj L (conj C F))]].
  cbv zeta. split; [intros a _; eauto|].
  set (q := mkTrailPt _ _ now).
  assert (C' : chrono (tr ++ [q])).
  { apply chrono_snoc; [exact C|]. eapply Forall_impl; [|exact F]. intros x Hx; cbn; exact Hx. }
  assert (F' : Forall (fun p => ttime p <= now) (tr ++ [q])).
  { apply Forall_app; split; [exact F|constructor; [cbn; lia|constructor]]. }
  assert (L' : List.length (tr ++ [q]) = S (List.length tr)) by (rewrite length_app; cbn; lia).
  destruct (MAX_TRAIL_LENGTH <? List.length (tr ++ [q]))%nat eqn:B.
  - apply Nat.ltb_lt in B. split; [|split; [apply chrono_tl, C'|]].
    + rewrite length_tl. unfold MAX_TRAIL_LENGTH in *. lia.
    + destruct (tr ++ [q]); cbn; [constructor|]. inversion F'; assumption.
  - apply Nat.ltb_ge in B. split; [lia|]. split; assumption.
Qed.

(** ** Who touches the hands *)

Lemma hands_spawnFruit M s : hands (spawnFruit M s) = hands s.
Proof.
  unfold spawnFruit. destruct (engine (world s)) eqn:E; [|reflexivity].
  destruct (15 <=? _)%nat; [reflexivity|].
  dstate s; cbn in E; subst eng. cbn.
  destruct (Qltb _ (15#100)); cbn; [reflexivity|].
  destruct (Qltb (95#100) _); cbn; reflexivity.
Qed.

Lemma hands_spawnLoop M s : hands (spawnLoop M s) = hands s.
Proof. unfold spawnLoop. rewrite <- (hands_spawnFruit M s). reflexivity. Qed.

Lemma hands_startSpawning M s : hands (startSpawning M s) = hands s.
Proof.
  unfold startSpawning. rewrite hands_spawnLoop. destruct (spawnerH (sys s)); reflexivity.
Qed.

Lemma hands_cleanup s : hands (cleanup s) = hands s.
Proof. dstate s. unfold cleanup. destruct eng; cbn; destruct sp; cbn; destruct cd; reflexivity. Qed.

Lemma hands_gameOver s : hands (gameOver s) = hands s.
Proof. unfold gameOver. cbn. apply hands_cleanup. Qed.

Lemma hands_goHome s : hands (goHome s) = hands s.
Proof. unfold goHome. cbn. apply hands_cleanup. Qed.

Lemma hands_runCallback M cb s : hands (run_callback M cb s) = hands s.
Proof.
  destruct cb; cbn [run_callback].
  - apply hands_spawnLoop.
  - destruct (_ <=? 0); [|reflexivity]. rewrite hands_startSpawning.
    destruct (countdownH _); reflexivity.
  - destruct (engine _); reflexivity.
  - reflexivity.
  - apply hands_gameOver.
  - reflexivity.
Qed.

Lemma hands_fire M h s : hands (fire M h s) = hands s.
Proof. unfold fire. destruct (find _ _); [|reflexivity]. rewrite hands_runCallback. reflexivity. Qed.

Lemma hands_normalHit M sdx sdy fr s : hands (normal_hit M sdx sdy fr s) = hands s.
Proof.
  unfold normal_hit.
  set (s1 := match fr_type fr with
             | FreezeBanana => activateFreeze s
             | FrenzyBanana => activateFrenzy M s
             | _ => s end).
  assert (H1 : hands s1 = hands s).
  { unfold s1. destruct (fr_type fr); try reflexivity.
    - unfold activateFreeze. destruct (engine _); reflexivity.
    - unfold activateFrenzy.
      change (hands (snd (setTimeout CbFrenzyEnd 5000 (startSpawning M (upd_game (set_frenzyActive true) s)))))
        with (hands (startSpawning M (upd_game (set_frenzyActive true) s))).
      rewrite hands_startSpawning. reflexivity. }
  clearbody s1. rewrite <- H1.
  unfold fx_draw. destruct (createDebris _ _ _ _ _ _ _ _).
  destruct (createParticles _ _ _ _ _ _). reflexivity.
Qed.

Lemma hands_handPass M fuel k cx cy sdx sdy rem s :
  hands (fst (fst (hand_pass M fuel k cx cy sdx sdy rem s))) = hands s.
Proof.
  revert k rem s. induction fuel as [|fuel IH]; intros k rem s; cbn [hand_pass]; [reflexivity|].
  destruct (nth_error (fruits (world s)) k) as [[id fr]|]; [|reflexivity].
  destruct (in_reach cx cy (fr_body fr)); [|rewrite IH; reflexivity].
  destruct (fr_type fr); try (rewrite IH, hands_normalHit; reflexivity).
  cbn [fst]. rewrite fx_draw_hands. reflexivity.
Qed.

Lemma hands_removeAll l s : hands (fold_left (fun s id => remove_body id s) l s) = hands s.
Proof.
  revert s; induction l as [|id l IH]; intros s; cbn; [reflexivity|]. rewrite IH.
  unfold remove_body. destruct (find _ _); [|reflexivity]. destruct (engine _); reflexivity.
Qed.

Lemma hands_sliceHand M i s : hands (fst (slice_hand M i s)) = hands s.
Proof.
  unfold slice_hand.
  destruct (nth i (handPos (hands s)) None); [|reflexivity].
  destruct (nth i (lastHandPos (hands s)) None); [|reflexivity].
  destruct (Qltb _ 25); [reflexivity|].
  match goal with |- context [hand_pass M ?fu ?k ?cx ?cy ?dx ?dy ?r s] =>
    pose proof (hands_handPass M fu k cx cy dx dy r s) as H1;
    destruct (hand_pass M fu k cx cy dx dy r s) as [[s1 rem] hb] end.
  cbn [fst] in H1. destruct hb; cbn [fst]; [exact H1|rewrite hands_removeAll; exact H1].
Qed.

Lemma hands_checkSlicing M s : hands (checkSlicing M s) = hands s.
Proof.
  unfold checkSlicing, check_slicing. destruct (engine (world s)); [|reflexivity].
  pose proof (hands_sliceHand M 0 s) as H0.
  destruct (slice_hand M 0 s) as [s1 stop]. cbn [fst] in H0.
  destruct stop; [exact H0|]. rewrite hands_sliceHand. exact H0.
Qed.

Lemma hands_renderFruits l s : hands (fst (render_fruits l s)) = hands s.
Proof.
  revert s; induction l as [|[k fr] l IH]; intros s; cbn [render_fruits]; [reflexivity|].
  destruct (_ && _); [|apply IH].
  destruct (engine (world s)); [|reflexivity].
  rewrite IH. destruct (gameStarted _); [|reflexivity].
  destruct (_ <=? 0); [rewrite hands_gameOver|]; reflexivity.
Qed.

(** ** Time only moves forward *)

Lemma cStartSpawning_clock c : c_clock (cStartSpawning c) = c_clock c.
Proof. unfold cStartSpawning. destruct (c_spawnerH c); reflexivity. Qed.

Lemma cCleanup_clock c : c_clock (cCleanup c) = c_clock c.
Proof. destruct (cleanup_fields c) as (_&_&_&Hc&_). exact Hc. Qed.

Lemma cRunCallback_clock cb c : c_clock (cRunCallback cb c) = c_clock c.
Proof.
  destruct cb; cbn [cRunCallback].
  - reflexivity.
  - destruct (_ <=? 0); [|reflexivity]. rewrite cStartSpawning_clock.
    destruct (c_countdownH _); reflexivity.
  - reflexivity.
  - reflexivity.
  - unfold cGameOver. cbn [c_clock set_c_navs]. apply cCleanup_clock.
  - reflexivity.
Qed.

Lemma cstep_clock c c' : cstep c c' -> c_clock c <= c_clock c'.
Proof.
  intros H. destruct H as [c c' Hm|c ready|c dt Hdt _|c h _|c].
  - rewrite (moves_clock _ _ Hm). lia.
  - destruct (_ && _); [|lia]. cbn. lia.
  - cbn. lia.
  - unfold cFire. destruct (find _ _); [|lia]. rewrite cRunCallback_clock. cbn. lia.
  - unfold cGoHome. cbn [c_clock set_c_navs]. rewrite cCleanup_clock. lia.
Qed.

(** ** The hand slots *)

Lemma hands_ok_mono now now' hs : now <= now' -> hands_ok now hs -> hands_ok now' hs.
Proof.
  intros Le (A & B & C & D & E & F). repeat split; auto.
  eapply Forall_impl; [|exact F]. intros tr; apply trail_ok_mono, Le.
Qed.

Lemma hands_ok_two now hs : hands_ok now hs ->
  exists r0 r1 p0 p1 l0 l1 t0 t1,
    hs = mkHands [r0; r1] [p0; p1] [l0; l1] [t0; t1] /\
    (forall a, p0 = Some a -> exists b, l0 = Some b) /\
    (forall a, p1 = Some a -> exists b, l1 = Some b) /\ trail_ok now t0 /\ trail_ok now t1.
Proof.
  destruct hs as [rw ps ls ts]. intros (A & B & C & D & E & F). cbn in *.
  destruct rw as [|r0 [|r1 [|]]]; try discriminate.
  destruct ps as [|p0 [|p1 [|]]]; try discriminate.
  destruct ls as [|l0 [|l1 [|]]]; try discriminate.
  destruct ts as [|t0 [|t1 [|]]]; try discriminate.
  inversion F as [|? ? F0 F']; subst. inversion F' as [|? ? F1 _]; subst.
  exists r0, r1, p0, p1, l0, l1, t0, t1. split; [reflexivity|].
  split; [intros a Ha; exact (E 0%nat a Ha)|]. split; [intros a Ha; exact (E 1%nat a Ha)|].
  split; assumption.
Qed.

Lemma hands_ok_mk now r0 r1 p0 p1 l0 l1 t0 t1 :
  (forall a, p0 = Some a -> exists b, l0 = Some b) ->
  (forall a, p1 = Some a -> exists b, l1 = Some b) -> trail_ok now t0 -> trail_ok now t1 ->
  hands_ok now (mkHands [r0; r1] [p0; p1] [l0; l1] [t0; t1]).
Proof.
  intros H0 H1 T0 T1. unfold hands_ok; cbn [rawHand handPos lastHandPos handTrails].
  do 4 (split; [reflexivity|]). split.
  - intros [|[|i]] p; cbn; [apply H0|apply H1|destruct i; discriminate].
  - constructor; [exact T0|constructor; [exact T1|constructor]].
Qed.

Lemma hands_ok_update M s : hands_ok (clock (sys s)) (hands s) ->
  hands_ok (clock (sys s)) (hands (updateHandPosition M s)).
Proof.
  intros H. destruct (hands_ok_two _ _ H) as (r0 & r1 & p0 & p1 & l0 & l1 & t0 & t1 & E & H0 & H1 & T0 & T1).
  unfold updateHandPosition, update_hand_slot.
  destruct s as [g w hs f y gh]. cbn [hands sys] in *. subst hs. cbn [rawHand handPos lastHandPos handTrails nth].
  pose proof (update_slot_ok M (clock y) r0 p0 l0 t0 T0) as U0.
  destruct (update_slot M (clock y) r0 p0 l0 t0) as [[p0' l0'] t0'].
  destruct U0 as [H0' T0']. cbn.
  pose proof (update_slot_ok M (clock y) r1 p1 l1 t1 T1) as U1.
  destruct (update_slot M (clock y) r1 p1 l1 t1) as [[p1' l1'] t1'].
  destruct U1 as [H1' T1']. cbn.
  apply hands_ok_mk; assumption.
Qed.

Lemma hands_ok_frame M sb s : hands_ok (clock (sys s)) (hands s) ->
  hands_ok (clock (sys s)) (hands (frame M sb s)).
Proof.
  intros H. unfold frame. destruct (engine (world s)); [|exact H].
  set (s0 := if hitStopActive (game s) then s else physics_update sb s).
  assert (E0 : hands s0 = hands s /\ sys s0 = sys s).
  { unfold s0. destruct (hitStopActive (game s)); [split; reflexivity|].
    unfold physics_update. destruct (engine (world s)); split; reflexivity. }
  unfold pre_slice. fold s0.
  assert (H1 : hands_ok (clock (sys s)) (hands (updateHandPosition M s0))).
  { destruct E0 as [Eh Es]. rewrite <- Es. apply hands_ok_update. rewrite Eh, Es. exact H. }
  set (s1 := updateHandPosition M s0) in *. clearbody s1.
  set (s2 := if gameStarted (game s1) then swoosh (checkSlicing M s1) else s1).
  assert (H2 : hands s2 = hands s1).
  { unfold s2. destruct (gameStarted (game s1)); [|reflexivity].
    unfold swoosh. cbn. apply hands_checkSlicing. }
  clearbody s2. rewrite <- H2 in H1.
  unfold renderGame.
  set (s3 := upd_fx _ s2).
  pose proof (hands_renderFruits (fruits (world s3)) s3) as H3.
  destruct (render_fruits (fruits (world s3)) s3) as [s4 cr]. cbn [fst] in H3.
  destruct cr; [rewrite H3; exact H1|].
  cbn [hands upd_fx upd_hands set_fx set_hands].
  rewrite H3. change (hands s3) with (hands s2).
  destruct (hands_ok_two _ _ H1) as (r0 & r1 & p0 & p1 & l0 & l1 & t0 & t1 & E & Q0 & Q1 & T0 & T1).
  rewrite E. cbn.
  apply hands_ok_mk; auto; apply trim_trail_ok; assumption.
Qed.

Lemma hands_ok_step M s ev : enabledb s ev = true ->
  hands_ok (clock (sys s)) (hands s) -> hands_ok (clock (sys (step M s ev))) (hands (step M s ev)).
Proof.
  intros Hen H.
  apply (hands_ok_mono (clock (sys s))); [exact (cstep_clock _ _ (step_cstep M s ev Hen))|].
  destruct ev; cbn [step].
  - destruct (hands_ok_two _ _ H) as (a0 & a1 & p0 & p1 & l0 & l1 & t0 & t1 & E & Q0 & Q1 & T0 & T1).
    assert (Eh : hands (if loading (game s) && cameraReady
                        then startCountdown (upd_game (set_loading false) s) else s) = hands s)
      by (destruct (_ && _); reflexivity).
    cbn [hands upd_hands set_hands]. rewrite Eh, E. cbn. apply hands_ok_mk; assumption.
  - apply hands_ok_frame, H.
  - exact H.
  - rewrite hands_fire. exact H.
  - exact H.
  - rewrite hands_goHome. exact H.
Qed.

Lemma hands_ok_mount cam now w h : hands_ok (clock (sys (mount cam now w h))) (hands (mount cam now w h)).
Proof.
  assert (H : hands_ok now (mkHands [None; None] [None; None] [None; None] [[]; []])).
  { apply hands_ok_mk; try discriminate; repeat split; cbn; try constructor; unfold MAX_TRAIL_LENGTH; lia. }
  destruct cam; exact H.
Qed.

(** X9: In every reachable state the tracker keeps two slots of each kind (raw
    target, smoothed position, last position, trail); a slot with a smoothed
    position also has a last position; and each trail holds at most
    [MAX_TRAIL_LENGTH] points, in time order, none stamped later than the
    current time. *)

Theorem hand_slots_ok M s : reachable M s ->
  List.length (rawHand (hands s)) = 2%nat /\ List.length (handPos (hands s)) = 2%nat /\
  List.length (lastHandPos (hands s)) = 2%nat /\ List.length (handTrails (hands s)) = 2%nat /\
  (forall i p, nth i (handPos (hands s)) None = Some p ->
     exists q, nth i (lastHandPos (hands s)) None = Some q) /\
  (forall tr, In tr (handTrails (hands s)) ->
     (List.length tr <= MAX_TRAIL_LENGTH)%nat /\ chrono tr /\
     (forall p, In p tr -> ttime p <= clock (sys s))).
Proof.
  intros R. assert (H : hands_ok (clock (sys s)) (hands s)).
  { induction R as [cam now w h|s ev R IH Hen]; [apply hands_ok_mount|].
    apply hands_ok_step; assumption. }
  destruct H as (A & B & C & D & E & F). repeat (split; [assumption|]).
  intros tr Htr. rewrite Forall_forall in F. destruct (F tr Htr) as (L & Ch & Ft).
  rewrite Forall_forall in Ft. split; [exact L|]. split; [exact Ch|exact Ft].
Qed.

Lemma hand_slots_ok_witness : reachable M0 s_hit1 /\
  (forall i p, nth i (handPos (hands s_hit1)) None = Some p ->
     exists q, nth i (lastHandPos (hands s_hit1)) None = Some q) /\
  List.length (handTrails (hands s_hit1)) = 2%nat.
Proof.
  assert (H : reachable M0 s_hit1) by (apply reachable_run; [apply reach_mount|vm_compute; reflexivity]).
  destruct (hand_slots_ok M0 s_hit1 H) as (_ & _ & _ & D & E & _).
  split; [exact H|]. split; [exact E|exact D].
Defined.



Lemma drop_old_split now tr : exists pre, tr = pre ++ drop_old now tr /\
  (forall p, In p pre -> TRAIL_LIFETIME <= now - ttime p) /\
  (forall p r, drop_old now tr = p :: r -> now - ttime p < TRAIL_LIFETIME).
Proof.
  induction tr as [|p tr IH]; cbn.
  - exists []. split; [reflexivity|]. split; [intros _ []|discriminate].
  - destruct (TRAIL_LIFETIME <=? now - ttime p) eqn:B.
    + destruct IH as (pre & E & A & F). exists (p :: pre). split; [cbn; congruence|].
      split; [|exact F]. intros q [<-|Hq]; [apply Z.leb_le; exact B|auto].
    + exists []. split; [reflexivity|]. split; [intros _ []|].
      intros q r Eq. injection Eq as <- _. apply Z.leb_gt in B. exact B.
Qed.

Lemma chrono_app pre tr : chrono (pre ++ tr) -> chrono tr.
Proof. induction pre as [|a pre IH]; cbn; [auto|intros [_ C]; auto]. Qed.

(** X10: The trail pruning of the render pass: a trail of at most one point is
    left alone, however old; a longer trail in time order loses exactly its
    leading points that are [TRAIL_LIFETIME] old or more, so every point left
    is younger than that (a trail with no young point is emptied). *)

Theorem trim_trail_prunes now tr : chrono tr ->
  ((List.length tr <= 1)%nat -> trim_trail now tr = tr) /\
  ((1 < List.length tr)%nat ->
     exists pre, tr = pre ++ trim_trail now tr /\
       (forall p, In p pre -> TRAIL_LIFETIME <= now - ttime p) /\
       (forall p, In p (trim_trail now tr) -> now - ttime p < TRAIL_LIFETIME)).
Proof.
  intros C. unfold trim_trail. split.
  - intros L. destruct (1 <? List.length tr)%nat eqn:B; [apply Nat.ltb_lt in B; lia|reflexivity].
  - intros L. apply Nat.ltb_lt in L. rewrite L.
    destruct (drop_old_split now tr) as (pre & E & A & F).
    exists pre. split; [exact E|]. split; [exact A|].
    rewrite E in C. apply chrono_app in C.
    destruct (drop_old now tr) as [|p0 r]; [intros _ []|].
    specialize (F p0 r eq_refl). destruct C as [Fr _].
    intros p [<-|Hp]; [exact F|].
    rewrite Forall_forall in Fr. specialize (Fr p Hp). lia.
Qed.

Lemma trim_trail_prunes_witness :
  chrono trail_demo /\ trim_trail 1000 trail_demo = [mkTrailPt 0 0 700; mkTrailPt 0 0 900] /\
  exists pre, trail_demo = pre ++ trim_trail 1000 trail_demo /\
    (forall p, In p pre -> TRAIL_LIFETIME <= 1000 - ttime p).
Proof.
  assert (C : chrono trail_demo) by (cbn; repeat split; repeat constructor; cbn; lia).
  split; [exact C|]. split; [reflexivity|].
  destruct (proj2 (trim_trail_prunes 1000 trail_demo C) ltac:(cbn; lia)) as (pre & E & A & _).
  exists pre. split; [exact E|exact A].
Defined.



Lemma claim_spec {A} (act : A -> bool) init spawned need pool d :
  (forall sp d, act (fst (init sp d)) = true) ->
  let '(pool', k, _) := claim act init spawned need pool d in
  List.length pool' = List.length pool /\ (spawned <= k)%nat /\ (k <= need \/ k = spawned)%nat /\
  (List.length (filter act pool') + spawned = List.length (filter act pool) + k)%nat.
Proof.
  intros Hi. revert spawned d. induction pool as [|a rest IH]; intros spawned d; cbn [claim].
  - cbn. lia.
  - destruct (need <=? spawned)%nat eqn:B; [cbn; lia|].
    apply Nat.leb_gt in B.
    destruct (act a) eqn:Ea.
    + pose proof (IH spawned d) as IH'.
      destruct (claim act init spawned need rest d) as [[rest' k] d'] eqn:Ec.
      destruct IH' as (L & K1 & K2 & C). cbn. rewrite Ea. cbn. lia.
    + specialize (Hi spawned d). destruct (init spawned d) as [a' d1]. cbn in Hi.
      pose proof (IH (S spawned) d1) as IH'.
      destruct (claim act init (S spawned) need rest d1) as [[rest' k] d'] eqn:Ec.
      destruct IH' as (L & K1 & K2 & C). cbn. rewrite Ea, Hi. cbn. lia.
Qed.

Lemma createParticles_ok M x y c ex f d : px_ok f -> px_ok (fst (createParticles M x y c ex f d)).
Proof.
  intros (Lp & Ld & Ec & Eb). unfold createParticles.
  destruct (100 <? activeParticleCount f) eqn:B; [exact (conj Lp (conj Ld (conj Ec Eb)))|].
  apply Z.ltb_ge in B.
  set (cnt := if ex then 30%nat else 15%nat).
  pose proof (claim_spec p_active (burst_particle M x y c ex (if ex then 2%Q else 1%Q)) 0 cnt
                (particlePool f) d) as C1.
  destruct (claim _ _ 0 cnt (particlePool f) d) as [[pool1 k1] d1].
  destruct C1 as (L1 & _ & K1 & A1); [intros sp d0; unfold burst_particle; destruct ex; reflexivity|].
  assert (Hk1 : (k1 <= 30)%nat) by (unfold cnt in K1; destruct ex; lia).
  destruct ex.
  - unfold px_ok, n_active in *; cbn. split; [lia|]. split; [exact Ld|]. split; lia.
  - pose proof (claim_spec p_active (spark_particle M x y) 0 8 pool1 d1) as C2.
    destruct (claim _ _ 0 8 pool1 d1) as [[pool2 k2] d2].
    destruct C2 as (L2 & _ & K2 & A2); [intros sp d0; reflexivity|].
    unfold px_ok, n_active in *; cbn. unfold cnt in K1. split; [lia|]. split; [exact Ld|]. split; lia.
Qed.

Lemma createDebris_ok M x y ty rot vx vy f d : px_ok f -> px_ok (fst (createDebris M x y ty rot vx vy f d)).
Proof.
  intros (Lp & Ld & Ec & Eb). unfold createDebris.
  pose proof (claim_spec d_active (debris_piece M x y ty rot vx vy) 0 2 (debrisPool f) d) as C1.
  destruct (claim _ _ 0 2 (debrisPool f) d) as [[pool1 k1] d1].
  destruct C1 as (L1 & _); [intros sp d0; reflexivity|].
  unfold px_ok, n_active in *; cbn. split; [exact Lp|]. split; [lia|]. split; assumption.
Qed.

Lemma render_particles_spec h pool cnt :
  let '(pool', c') := render_particles h pool cnt in
  List.length pool' = List.length pool /\
  c' + Z.of_nat (n_active pool) = cnt + Z.of_nat (n_active pool') /\
  (n_active pool' <= n_active pool)%nat.
Proof.
  unfold n_active. revert cnt. induction pool as [|p rest IH]; intros cnt; cbn [render_particles].
  - cbn. lia.
  - destruct (p_active p) eqn:Ea.
    + unfold step_particle. cbv zeta.
      set (off := Qle_bool _ 0 || Qltb h _).
      pose proof (IH (if off then cnt - 1 else cnt)) as IH'.
      destruct (render_particles h rest (if off then cnt - 1 else cnt)) as [rest' c'].
      destruct IH' as (L & C & N). cbn [filter p_active List.length]. rewrite Ea.
      destruct off; cbn [negb List.length]; lia.
    + pose proof (IH cnt) as IH'.
      destruct (render_particles h rest cnt) as [rest' c'].
      destruct IH' as (L & C & N). cbn [filter List.length]. rewrite Ea. lia.
Qed.

Lemma renderParticles_ok h f : px_ok f -> px_ok (renderParticles h f).
Proof.
  intros (Lp & Ld & Ec & Eb). unfold renderParticles.
  destruct (0 <? activeParticleCount f); [|exact (conj Lp (conj Ld (conj Ec Eb)))].
  pose proof (render_particles_spec h (particlePool f) (activeParticleCount f)) as R.
  destruct (render_particles h (particlePool f) (activeParticleCount f)) as [pool' c'].
  destruct R as (L & C & N). unfold px_ok, n_active in *; cbn. split; [lia|]. split; [exact Ld|]. split; lia.
Qed.

Lemma renderDebris_ok h f : px_ok f -> px_ok (renderDebris h f).
Proof.
  intros (Lp & Ld & Ec & Eb). unfold renderDebris, px_ok. cbn.
  split; [exact Lp|]. split; [rewrite length_map; exact Ld|]. split; assumption.
Qed.

Lemma px_popups l n f : px_ok f -> px_ok (set_popupIdCounter n (set_popups l f)).
Proof. intros H; exact H. Qed.

Lemma fx_spawnFruit M s : fx (spawnFruit M s) = fx s.
Proof. apply (spawnFruit_aux M s). Qed.

Lemma fx_spawnLoop M s : fx (spawnLoop M s) = fx s.
Proof. unfold spawnLoop. rewrite <- (fx_spawnFruit M s). reflexivity. Qed.

Lemma fx_startSpawning M s : fx (startSpawning M s) = fx s.
Proof. unfold startSpawning. rewrite fx_spawnLoop. destruct (spawnerH (sys s)); reflexivity. Qed.

Lemma fx_cleanup s : fx (cleanup s) = fx s.
Proof. dstate s. unfold cleanup. destruct eng; cbn; destruct sp; cbn; destruct cd; reflexivity. Qed.

Lemma fx_gameOver s : fx (gameOver s) = fx s.
Proof. unfold gameOver. cbn. apply fx_cleanup. Qed.

Lemma fx_goHome s : fx (goHome s) = fx s.
Proof. unfold goHome. cbn. apply fx_cleanup. Qed.

Lemma fx_runCallback M cb s : fx (run_callback M cb s) = fx s.
Proof.
  destruct cb; cbn [run_callback].
  - apply fx_spawnLoop.
  - destruct (_ <=? 0); [|reflexivity]. rewrite fx_startSpawning.
    destruct (countdownH _); reflexivity.
  - destruct (engine _); reflexivity.
  - reflexivity.
  - apply fx_gameOver.
  - reflexivity.
Qed.

Lemma fx_fire M h s : fx (fire M h s) = fx s.
Proof. unfold fire. destruct (find _ _); [|reflexivity]. rewrite fx_runCallback. reflexivity. Qed.

Lemma fx_removeAll l s : fx (fold_left (fun s id => remove_body id s) l s) = fx s.
Proof.
  revert s; induction l as [|id l IH]; intros s; cbn; [reflexivity|]. rewrite IH.
  unfold remove_body. destruct (find _ _); [|reflexivity]. destruct (engine _); reflexivity.
Qed.

Lemma fx_renderFruits l s : fx (fst (render_fruits l s)) = fx s.
Proof.
  revert s; induction l as [|[k fr] l IH]; intros s; cbn [render_fruits]; [reflexivity|].
  destruct (_ && _); [|apply IH].
  destruct (engine (world s)); [|reflexivity].
  rewrite IH. destruct (gameStarted _); [|reflexivity].
  destruct (_ <=? 0); [rewrite fx_gameOver|]; reflexivity.
Qed.

(** ** Invariants of the effects state

    [fx] changes only through the pool producers, the render updates of
    the pools, a popup push and the popup pass of the render loop. *)

Section FxInv.

Variable P : Fx -> Prop.

Hypothesis P_particles : forall M x y c ex f d, P f -> P (fst (createParticles M x y c ex f d)).

Hypothesis P_debris : forall M x y ty rot vx vy f d, P f -> P (fst (createDebris M x y ty rot vx vy f d)).

Hypothesis P_render : forall h f, P f -> P (renderDebris h (renderParticles h f)).

Hypothesis P_popup : forall f n x y c, P f -> popupIdCounter f = n ->
  P (set_popupIdCounter (S n) (set_popups (popups f ++ [mkPopup n x y (10 * c) c 1 2]) f)).

Hypothesis P_popups : forall f, P f -> P (set_popups (render_popups (popups f)) f).

Hypothesis P_mount : P (mkFx (repeat inert_particle MAX_PARTICLES) 0 (repeat inert_debris MAX_DEBRIS) [] 0).

Lemma fxi_fx s s' : fx s' = fx s -> fis P s -> fis P s'.
Proof. unfold fis. intros ->; auto. Qed.

Lemma fxi_draw f s : (forall x d, P x -> P (fst (f x d))) -> fis P s -> fis P (fx_draw f s).
Proof.
  intros Hf H. unfold fx_draw, fis in *. specialize (Hf (fx s) (draws (sys s)) H).
  destruct (f (fx s) (draws (sys s))). exact Hf.
Qed.

Lemma fxi_normalHit M sdx sdy fr s : fis P s -> fis P (normal_hit M sdx sdy fr s).
Proof.
  intros H. unfold normal_hit.
  set (s1 := match fr_type fr with
             | FreezeBanana => activateFreeze s
             | FrenzyBanana => activateFrenzy M s
             | _ => s end).
  assert (H1 : fis P s1).
  { apply (fxi_fx s); [|exact H]. unfold s1. destruct (fr_type fr); try reflexivity.
    - unfold activateFreeze. destruct (engine _); reflexivity.
    - unfold activateFrenzy.
      change (fx (snd (setTimeout CbFrenzyEnd 5000 (startSpawning M (upd_game (set_frenzyActive true) s)))))
        with (fx (startSpawning M (upd_game (set_frenzyActive true) s))).
      rewrite fx_startSpawning. reflexivity. }
  clearbody s1.
  assert (H2 : fis P (fx_draw (createDebris M (b_x (fr_body fr)) (b_y (fr_body fr)) (type_name (fr_type fr))
                  (b_angle (fr_body fr)) sdx sdy) s1))
    by (apply fxi_draw; [intros; apply P_debris; assumption|exact H1]).
  set (s2 := fx_draw _ s1) in *. clearbody s2.
  unfold fis. cbn [fx upd_ghost set_ghost].
  apply fxi_draw; [intros; apply P_particles; assumption|].
  apply (P_popup (fx s2)); [exact H2|reflexivity].
Qed.

Lemma fxi_handPass M fuel k cx cy sdx sdy rem s :
  fis P s -> fis P (fst (fst (hand_pass M fuel k cx cy sdx sdy rem s))).
Proof.
  revert k rem s. induction fuel as [|fuel IH]; intros k rem s H; cbn [hand_pass]; [exact H|].
  destruct (nth_error (fruits (world s)) k) as [[id fr]|]; [|exact H].
  set (s1 := upd_ghost _ s). assert (H1 : fis P s1) by exact H. clearbody s1.
  destruct (in_reach cx cy (fr_body fr)); [|apply IH, H1].
  destruct (fr_type fr); try (apply IH, fxi_normalHit, H1).
  cbn [fst]. apply fxi_draw; [intros; apply P_particles; assumption|exact H1].
Qed.

Lemma fxi_sliceHand M i s : fis P s -> fis P (fst (slice_hand M i s)).
Proof.
  intros H. unfold slice_hand.
  destruct (nth i (handPos (hands s)) None); [|exact H].
  destruct (nth i (lastHandPos (hands s)) None); [|exact H].
  destruct (Qltb _ 25); [exact H|].
  match goal with |- context [hand_pass M ?fu ?k ?cx ?cy ?dx ?dy ?r s] =>
    pose proof (fxi_handPass M fu k cx cy dx dy r s H) as H1;
    destruct (hand_pass M fu k cx cy dx dy r s) as [[s1 rem] hb] end.
  cbn [fst] in H1. destruct hb; cbn [fst]; [exact H1|].
  apply (fxi_fx s1); [apply fx_removeAll|exact H1].
Qed.

Lemma fxi_checkSlicing M s : fis P s -> fis P (checkSlicing M s).
Proof.
  intros H. unfold checkSlicing, check_slicing. destruct (engine (world s)); [|exact H].
  pose proof (fxi_sliceHand M 0 s H) as H0.
  destruct (slice_hand M 0 s) as [s1 stop]. cbn [fst] in H0.
  destruct stop; [exact H0|]. apply fxi_sliceHand, H0.
Qed.

Lemma fxi_renderGame s : fis P s -> fis P (renderGame s).
Proof.
  intros H. unfold renderGame.
  set (s1 := upd_fx _ s).
  assert (H1 : fis P s1) by (apply P_render, H).
  clearbody s1.
  pose proof (fx_renderFruits (fruits (world s1)) s1) as E.
  destruct (render_fruits (fruits (world s1)) s1) as [s2 cr]. cbn [fst] in E.
  assert (H2 : fis P s2) by (apply (fxi_fx s1); assumption).
  destruct cr; [exact H2|]. apply P_popups, H2.
Qed.

Lemma fxi_frame M sb s : fis P s -> fis P (frame M sb s).
Proof.
  intros H. unfold frame. destruct (engine (world s)); [|exact H].
  apply fxi_renderGame.
  assert (H1 : fis P (pre_slice M sb s)).
  { apply (fxi_fx s); [|exact H]. unfold pre_slice, updateHandPosition, update_hand_slot.
    set (s0 := if hitStopActive (game s) then s else physics_update sb s).
    assert (E0 : fx s0 = fx s).
    { unfold s0. destruct (hitStopActive (game s)); [reflexivity|].
      unfold physics_update. destruct (engine (world s)); reflexivity. }
    destruct (update_slot _ _ _ _ _ _) as [[? ?] ?]. cbn.
    destruct (update_slot _ _ _ _ _ _) as [[? ?] ?]. exact E0. }
  destruct (gameStarted (game (pre_slice M sb s))); [|exact H1].
  unfold swoosh. apply fxi_checkSlicing, H1.
Qed.

Lemma fxi_step M s ev : fis P s -> fis P (step M s ev).
Proof.
  intros H. destruct ev; cbn [step].
  - apply (fxi_fx s); [|exact H]. cbn. destruct (_ && _); reflexivity.
  - apply fxi_frame, H.
  - exact H.
  - apply (fxi_fx s); [apply fx_fire|exact H].
  - exact H.
  - apply (fxi_fx s); [apply fx_goHome|exact H].
Qed.

Lemma fxi_mount cam now w h : fis P (mount cam now w h).
Proof.
  assert (H : fis P (mount false now w h)) by exact P_mount.
  destruct cam; exact H.
Qed.

Lemma fx_reachable M s : reachable M s -> P (fx s).
Proof.
  intros R. change (fis P s). induction R as [cam now w h|s ev R IH Hen].
  - apply fxi_mount.
  - apply fxi_step, IH.
Qed.

End FxInv.

(** X11: The particle and debris pools keep their 200 and 30 slots, the active
    particle counter always equals the number of active slots, and it never
    exceeds 130: a burst is only emitted while at most 100 particles are
    active, and adds at most 30. *)

Theorem particle_accounting M s : reachable M s ->
  List.length (particlePool (fx s)) = MAX_PARTICLES /\ List.length (debrisPool (fx s)) = MAX_DEBRIS /\
  activeParticleCount (fx s) = Z.of_nat (List.length (filter p_active (particlePool (fx s)))) /\
  activeParticleCount (fx s) <= 130.
Proof.
  intros R. change (px_ok (fx s)). refine (fx_reachable px_ok _ _ _ _ _ _ M s R).
  - intros; apply createParticles_ok; assumption.
  - intros; apply createDebris_ok; assumption.
  - intros; apply renderDebris_ok, renderParticles_ok; assumption.
  - intros; apply px_popups; assumption.
  - intros; apply px_popups; assumption.
  - vm_compute. repeat split; discriminate.
Qed.

Lemma particle_accounting_witness : reachable M0 s_hit1 /\
  activeParticleCount (fx s_hit1) = Z.of_nat (List.length (filter p_active (particlePool (fx s_hit1)))).
Proof.
  assert (H : reachable M0 s_hit1) by (apply reachable_run; [apply reach_mount|vm_compute; reflexivity]).
  split; [exact H|]. exact (proj1 (proj2 (proj2 (particle_accounting M0 s_hit1 H)))).
Defined.



Lemma cGoHome_fields c : c_navs (cGoHome c) = c_navs c ++ [RHome] /\ c_game (cGoHome c) = c_game c /\
  c_timers (cGoHome c) = c_timers (cCleanup c).
Proof.
  destruct (cleanup_fields c) as (G & _ & N & _). unfold cGoHome. cbn [c_navs c_game c_timers set_c_navs].
  rewrite N, G. auto.
Qed.

Lemma cGameOver_fields c : c_navs (cGameOver c) = c_navs c ++ [RGameOver (score (c_game c))].
Proof.
  destruct (cleanup_fields c) as (G & _ & N & _). unfold cGameOver. cbn [c_navs c_game set_c_navs].
  rewrite N, G. reflexivity.
Qed.

(** X12: Leaving for the home screen does not cancel a bomb's pending game-over:
    the timer stays queued, and when it fires the view navigates to the
    game-over screen with the score of the session, after the home screen. *)

Theorem home_then_gameover M s t : reachable M s ->
  In t (timers (sys s)) -> t_cb t = CbBombGameOver ->
  In t (timers (sys (goHome s))) /\
  navs (sys (fire M (t_handle t) (goHome s))) = navs (sys s) ++ [RHome; RGameOver (score (game s))].
Proof.
  intros R Ht Hcb.
  assert (R1 : reachable M (goHome s)) by (apply (reach_step M s EvGoHome R); reflexivity).
  destruct (cleanup_teardown M s R) as (_ & _ & _ & Keep).
  destruct (cGoHome_fields (ctl s)) as (N1 & G1 & T1).
  assert (In1 : In t (timers (sys (goHome s)))).
  { change (timers (sys (goHome s))) with (c_timers (ctl (goHome s))).
    rewrite goHome_ctl, T1. apply Keep; [exact Ht|rewrite Hcb; discriminate|rewrite Hcb; discriminate]. }
  split; [exact In1|].
  pose proof (gd_timers _ (reachable_good M _ R1)) as TO1.
  change (navs (sys (fire M (t_handle t) (goHome s)))) with (c_navs (ctl (fire M (t_handle t) (goHome s)))).
  rewrite fire_ctl. unfold cFire.
  destruct (find (fun t0 => (t_handle t0 =? t_handle t)%nat) (c_timers (ctl (goHome s)))) as [t'|] eqn:F.
  - destruct (find_handle _ _ _ F) as [In' Eh].
    assert (E : t' = t) by (apply (nodup_same_handle _ _ _ (to_nodup _ TO1)); assumption).
    subst t'.
    destruct (to_period _ TO1 t In') as [Hp|[Hc _]]; [|congruence].
    rewrite Hp, Hcb. cbn [cRunCallback]. rewrite cGameOver_fields.
    cbn [c_navs c_game set_c_timers]. rewrite goHome_ctl, N1, G1.
    cbn [c_navs c_game ctl]. rewrite <- app_assoc. reflexivity.
  - exfalso. apply (find_none _ _ F) in In1. rewrite Nat.eqb_refl in In1. discriminate.
Qed.

Lemma home_then_gameover_witness : reachable M1 s_bomb_hit /\ In t_bomb (timers (sys s_bomb_hit)) /\
  navs (sys (fire M1 3 (goHome s_bomb_hit))) = [RHome; RGameOver 0].
Proof.
  assert (H : reachable M1 s_bomb_hit) by (apply reachable_run; [apply reach_mount|vm_compute; reflexivity]).
  assert (I : In t_bomb (timers (sys s_bomb_hit))) by (vm_compute; tauto).
  split; [exact H|]. split; [exact I|].
  destruct (home_then_gameover M1 s_bomb_hit t_bomb H I eq_refl) as [_ E].
  exact E.
Defined.



Lemma ss_snoc {A} (R : A -> A -> Prop) l x :
  StronglySorted R l -> Forall (fun a => R a x) l -> StronglySorted R (l ++ [x]).
Proof.
  induction l as [|a l IH]; intros H F; cbn.
  - constructor; constructor.
  - inversion H as [|? ? Hl Ha]; subst. inversion F as [|? ? Rax F']; subst.
    constructor; [apply IH; assumption|]. apply Forall_app; split; [exact Ha|constructor; [exact Rax|constructor]].
Qed.

Lemma render_popups_in l q : In q (render_popups l) ->
  exists p, In p l /\ pu_id q = pu_id p /\ pu_velocity q = pu_velocity p /\
    pu_points q = pu_points p /\ pu_combo q = pu_combo p /\
    pu_life q = (pu_life p - (2#100))%Q /\ (0 < pu_life q)%Q.
Proof.
  induction l as [|p l IH]; cbn; [intros []|].
  destruct (Qle_bool (pu_life p - (2#100)) 0) eqn:B.
  - intros Hq. destruct (IH Hq) as (p0 & H0 & R). exists p0. split; [right; exact H0|exact R].
  - intros [<-|Hq].
    + exists p. split; [left; reflexivity|]. cbn. repeat split.
      apply Qnot_le_lt. intros Hle. apply Qle_bool_iff in Hle. congruence.
    + destruct (IH Hq) as (p0 & H0 & R). exists p0. split; [right; exact H0|exact R].
Qed.

Lemma render_popups_sorted l : StronglySorted (fun a b => (pu_id a < pu_id b)%nat) l ->
  StronglySorted (fun a b => (pu_id a < pu_id b)%nat) (render_popups l).
Proof.
  induction l as [|p l IH]; intros H; cbn; [constructor|].
  inversion H as [|? ? Hl Hp]; subst.
  destruct (Qle_bool _ 0); [apply IH, Hl|].
  constructor; [apply IH, Hl|]. apply Forall_forall. intros q Hq. cbn.
  destruct (render_popups_in l q Hq) as (p0 & H0 & Eid & _). rewrite Eid.
  rewrite Forall_forall in Hp. exact (Hp p0 H0).
Qed.

Lemma createParticles_pp M x y c ex f d :
  popups (fst (createParticles M x y c ex f d)) = popups f /\
  popupIdCounter (fst (createParticles M x y c ex f d)) = popupIdCounter f.
Proof.
  unfold createParticles. destruct (100 <? _); [split; reflexivity|].
  destruct (claim _ _ _ _ _ _) as [[pool1 k1] d1]. destruct ex; [split; reflexivity|].
  destruct (claim _ _ _ _ _ _) as [[pool2 k2] d2]. split; reflexivity.
Qed.

Lemma createDebris_pp M x y ty rot vx vy f d :
  popups (fst (createDebris M x y ty rot vx vy f d)) = popups f /\
  popupIdCounter (fst (createDebris M x y ty rot vx vy f d)) = popupIdCounter f.
Proof.
  unfold createDebris. destruct (claim _ _ _ _ _ _) as [[pool1 k1] d1]. split; reflexivity.
Qed.

Lemma render_pools_popups h f :
  popups (renderDebris h (renderParticles h f)) = popups f /\
  popupIdCounter (renderDebris h (renderParticles h f)) = popupIdCounter f.
Proof.
  unfold renderDebris, renderParticles. destruct (0 <? _); [|split; reflexivity].
  destruct (render_particles _ _ _). split; reflexivity.
Qed.

Lemma pp_same f f' : popups f' = popups f -> popupIdCounter f' = popupIdCounter f -> pp_ok f -> pp_ok f'.
Proof. unfold pp_ok. intros -> ->. auto. Qed.

(** X13: Score popups: their ids are given in increasing order and stay below the
    id counter; a popup on screen has a life in (0, 1] (it is removed at the
    frame its life reaches 0), rises by 2 per frame, and shows ten times its
    combo. *)

Theorem popups_ok M s : reachable M s ->
  StronglySorted (fun a b => (pu_id a < pu_id b)%nat) (popups (fx s)) /\
  (forall p, In p (popups (fx s)) ->
     (pu_id p < popupIdCounter (fx s))%nat /\ (0 < pu_life p <= 1)%Q /\
     pu_velocity p = 2%Q /\ pu_points p = 10 * pu_combo p).
Proof.
  intros R. assert (H : pp_ok (fx s)).
  { refine (fx_reachable pp_ok _ _ _ _ _ _ M s R).
    - intros M' x y c ex f d. destruct (createParticles_pp M' x y c ex f d) as [A B].
      apply pp_same; assumption.
    - intros M' x y ty rot vx vy f d. destruct (createDebris_pp M' x y ty rot vx vy f d) as [A B].
      apply pp_same; assumption.
    - intros h f. destruct (render_pools_popups h f) as [A B]. apply pp_same; assumption.
    - intros f n x y c [Ss F] En. unfold pp_ok. cbn [popups popupIdCounter set_popups set_popupIdCounter].
      split.
      + apply ss_snoc; [exact Ss|]. eapply Forall_impl; [|exact F].
        intros p (Hp & _). cbn. lia.
      + apply Forall_app. split.
        * eapply Forall_impl; [|exact F]. intros p (Hp & Hl & Hv & Hpt). split; [lia|auto].
        * constructor; [|constructor]. unfold popup_ok; cbn. split; [lia|].
          split; [split; [reflexivity|apply Qle_refl]|]. split; reflexivity.
    - intros f [Ss F]. unfold pp_ok. cbn [popups popupIdCounter set_popups].
      split; [apply render_popups_sorted, Ss|].
      apply Forall_forall. intros q Hq.
      destruct (render_popups_in _ q Hq) as (p & Hp & Eid & Ev & Ept & Ec & El & Hl).
      rewrite Forall_forall in F. destruct (F p Hp) as (A & [L1 L2] & V & Pt).
      unfold popup_ok. rewrite Eid, Ev, Ept, Ec, El. split; [exact A|].
      split; [split; [rewrite <- El; exact Hl|lra]|]. split; assumption.
    - split; constructor. }
  destruct H as [Ss F]. split; [exact Ss|]. rewrite Forall_forall in F. exact F.
Qed.

Lemma popups_ok_witness : reachable M0 s_hit2 /\
  (forall p, In p (popups (fx s_hit2)) -> pu_points p = 10 * pu_combo p).
Proof.
  assert (H : reachable M0 s_hit2) by (apply reachable_run; [apply reach_mount|vm_compute; reflexivity]).
  split; [exact H|]. intros p Hp. exact (proj2 (proj2 (proj2 (proj2 (popups_ok M0 s_hit2 H) p Hp)))).
Defined.
